(** * THPS2 PKR archive tools: a shallow embedding

    The development follows the three command-line tools of the repository:
    - [repack_pkr]   (repack_pkr.py):  directory tree -> PKR archive,
    - [extract_pkr]  (extract_pkr.py): PKR archive -> directory tree,
    - [adjust_volume] (adjust_wav_volume.py): scaling of WAV samples.

    Python integers are modelled by [N] (every integer the tools handle is
    a length, a count or an offset), bytes by [Byte.byte], [str] values by
    [string], dictionaries by [gmap], exceptions by an explicit error type
    threaded through a state-and-error monad. *)

From Stdlib Require Import NArith ZArith List Strings.Byte Strings.Ascii Strings.String.
From Stdlib Require Import Floats.SpecFloat.
From stdpp Require Import base option list sorting gmap strings.

Set Warnings "-register-all,-clear-no-such-hyp".

Open Scope N_scope.
Open Scope list_scope.

Abbreviation bytes := (list byte).

(** ** Exceptions and the state-and-error monad *)

(** The Python exceptions the tools can meet. *)
Inductive exn :=
  | KeyError (key : string)      (* dictionary lookup of a missing key *)
  | StructError                  (* short read in a binary primitive *)
  | OSError (path : string)      (* os.makedirs failure *)
  | IOError (path : string)      (* open() failure; IOError is OSError in Python 3 *)
  | FileNotFoundError (path : string)
  | WaveError
  | ValueError.

(** A computation over a mutable state [S] that may raise: the state
    reached when the exception is raised is kept, as side effects done
    before a Python exception are. *)
Definition M (S A : Type) : Type := S -> S * (exn + A).

Definition ret {S A} (a : A) : M S A := fun s => (s, inr a).
Definition raise {S A} (e : exn) : M S A := fun s => (s, inl e).
Definition bind {S A B} (c : M S A) (k : A -> M S B) : M S B :=
  fun s => match c s with
           | (s', inl e) => (s', inl e)
           | (s', inr a) => k a s'
           end.
Definition get {S} : M S S := fun s => (s, inr s).
Definition modify {S} (f : S -> S) : M S unit := fun s => (f s, inr tt).

Notation "'let*' x := c 'in' k" := (bind c (fun x => k))
  (at level 10, x pattern, c at level 100, k at level 200).
Notation "c >> k" := (bind c (fun _ => k))
  (at level 65, right associativity, only parsing).

(** [for x in l: body x] *)
Fixpoint for_each {S A} (l : list A) (body : A -> M S unit) : M S unit :=
  match l with
  | [] => ret tt
  | x :: l' => body x >> for_each l' body
  end.

(** ** Byte streams *)

(** A file opened with mode "wb": its contents so far and the position of
    the next write.  Seeking past the end is allowed; the gap is filled
    with zero bytes by the next write. *)
Record ostream := { o_data : bytes; o_pos : N }.

Definition o_empty : ostream := {| o_data := []; o_pos := 0 |}.

Definition o_write_raw (bs : bytes) (f : ostream) : ostream :=
  let p := N.to_nat (o_pos f) in
  let padded := o_data f ++ replicate (p - length (o_data f)) x00 in
  {| o_data := take p padded ++ bs ++ drop (p + length bs) padded;
     o_pos := o_pos f + N.of_nat (length bs) |}.

Definition o_write (bs : bytes) : M ostream unit := modify (o_write_raw bs).
Definition o_seek (p : N) : M ostream unit :=
  modify (fun f => {| o_data := o_data f; o_pos := p |}).
Definition o_tell : M ostream N := fun f => (f, inr (o_pos f)).

(** [data[pos : pos + n]] as Python slices it: short when the end of the
    data is reached, empty when [pos] is at or past the end. *)
Definition slice (data : bytes) (pos n : N) : bytes :=
  let len := N.of_nat (length data) in
  if len <=? pos then []
  else take (N.to_nat (N.min n (len - pos))) (drop (N.to_nat pos) data).

(** ** Binary I/O primitives (common.py) *)

Definition byte_of_N (n : N) : byte := default x00 (Byte.of_N (n mod 256)).

(** The four little-endian bytes of the low 32 bits of [v]. *)
Definition le32 (v : N) : bytes :=
  [byte_of_N v; byte_of_N (v / 2^8); byte_of_N (v / 2^16); byte_of_N (v / 2^24)].

Definition le32_decode (b0 b1 b2 b3 : byte) : N :=
  Byte.to_N b0 + 2^8 * Byte.to_N b1 + 2^16 * Byte.to_N b2 + 2^24 * Byte.to_N b3.

(** The [n]-byte field holding [s]: truncated when longer, padded with
    null bytes when shorter. *)
Definition string_field (s : string) (n : nat) : bytes :=
  let bs := take n (list_byte_of_string s) in
  bs ++ replicate (n - length bs) x00.

Fixpoint until_null (bs : bytes) : bytes :=
  match bs with
  | [] => []
  | b :: bs' => if Byte.eqb b x00 then [] else b :: until_null bs'
  end.

(** Modelled from the spec: common.py is not among the sources; section
    4.1 of the specification describes its [write32]: an unsigned 32-bit
    little-endian integer is written, and writing never fails.  The low 32
    bits of the value are what a 4-byte field holds. *)
Definition write32 (v : N) : M ostream unit := o_write (le32 v).

(** Modelled from the spec: common.py is not among the sources; section
    4.1 describes its [write_string]: a fixed-length text field of [n]
    bytes, padded with null bytes if the text is shorter than [n] and
    truncated, without raising, if it is longer. *)
Definition write_string (s : string) (n : nat) : M ostream unit :=
  o_write (string_field s n).

(** ** The input directory tree and os.walk *)

(** A directory tree on disk.  The order of [entries] is the order in
    which the filesystem enumerates the directory. *)
Inductive node :=
  | File (content : bytes)
  | Dir (entries : list (string * node)).

(** One triple [(root, dirnames, filenames)] yielded by [os.walk]; [root]
    is kept as the list of path components below the walked directory.
    Each file name comes with the size [os.path.getsize] reports for it. *)
Record walk_item := {
  w_root : list string;
  w_dirnames : list string;
  w_files : list (string * N)
}.

Definition dirnames_of (es : list (string * node)) : list string :=
  omap (fun e => match e.2 with Dir _ => Some e.1 | File _ => None end) es.

Definition files_of (es : list (string * node)) : list (string * N) :=
  omap (fun e => match e.2 with
                 | File c => Some (e.1, N.of_nat (length c))
                 | Dir _ => None
                 end) es.

(** [os.walk], top-down.  [keep] is the pruning the loop body performs by
    assigning to [dirnames[:]]: only the kept sub-directories are walked. *)
Fixpoint os_walk (keep : string -> bool) (root : list string) (t : node)
  : list walk_item :=
  match t with
  | File _ => []
  | Dir es =>
      {| w_root := root; w_dirnames := dirnames_of es; w_files := files_of es |}
      :: (fix sub (l : list (string * node)) : list walk_item :=
            match l with
            | [] => []
            | (n, c) :: l' =>
                (match c with
                 | Dir _ => if keep n then os_walk keep (root ++ [n]) c else []
                 | File _ => []
                 end) ++ sub l'
            end) es
  end.

(** ** String helpers of the Python code *)

Definition startswith_dot (s : string) : bool :=
  match s with
  | String c _ => Ascii.eqb c "."
  | EmptyString => false
  end.

Definition startswith_slash (s : string) : bool :=
  match s with
  | String c _ => Ascii.eqb c "/"
  | EmptyString => false
  end.

Fixpoint endswith_slash (s : string) : bool :=
  match s with
  | EmptyString => false
  | String c EmptyString => Ascii.eqb c "/"
  | String _ s' => endswith_slash s'
  end.

(** [s.replace('\\', '/')] *)
Fixpoint replace_backslash (s : string) : string :=
  match s with
  | EmptyString => EmptyString
  | String c s' =>
      String (if Ascii.eqb c "\" then "/"%char else c) (replace_backslash s')
  end.

(** [posixpath.join(a, b)] *)
Definition path_join (a b : string) : string :=
  if startswith_slash b then b
  else if String.eqb a EmptyString || endswith_slash a then a +:+ b
  else a +:+ "/" +:+ b.

(** [os.path.join(a, *parts)] *)
Definition path_join_all (a : string) (parts : list string) : string :=
  foldl path_join a parts.

(** [os.path.relpath(root, base)] for a [root] below [base]. *)
Definition relpath (root : list string) : string :=
  match root with
  | [] => "."
  | c :: cs => foldl (fun acc x => acc +:+ "/" +:+ x) c cs
  end.

(** ** Sorting as [sorted] and [list.sort] do: stable, ascending *)

Section Sorting.
Context {A : Type} (leb : A -> A -> bool).

Fixpoint insert_sorted (x : A) (l : list A) : list A :=
  match l with
  | [] => [x]
  | y :: l' => if leb x y then x :: l else y :: insert_sorted x l'
  end.

Definition py_sorted (l : list A) : list A := foldr insert_sorted [] l.
End Sorting.

(** ** repack_pkr.py: collecting files and directories *)

(** An element of [all_files_info]:
    [(relative_dir_path, file_name, full_file_path, file_size)]. *)
Record file_info := {
  fi_dir : string;
  fi_name : string;
  fi_path : string;
  fi_size : N
}.

(** The three accumulators of the first pass. *)
Record collected := {
  temp_dirs : gmap string (list string);
  all_files_info : list file_info;
  total_file_count : N
}.

(** Lines 34-37: the canonical name of the directory at [root], "/" for
    the walked directory itself, with a trailing slash otherwise. *)
Definition pkr_dir_name_of (root : list string) : string :=
  let relative_dir := replace_backslash (relpath root) in
  let pkr_dir_name :=
    if String.eqb relative_dir "." then "/"%string else relative_dir in
  if negb (String.eqb pkr_dir_name "/") && negb (endswith_slash pkr_dir_name)
  then pkr_dir_name +:+ "/" else pkr_dir_name.

(** [not s.startswith('.')] *)
Definition not_hidden (s : string) : bool := negb (startswith_dot s).

(** The body of the [for root, dirnames, filenames in os.walk(...)] loop. *)
Definition visit (base_input_dir : string) (st : collected) (it : walk_item)
  : collected :=
  let pkr_dir_name := pkr_dir_name_of (w_root it) in
  let temp_dirs1 :=
    match temp_dirs st !! pkr_dir_name with
    | None => <[pkr_dir_name := []]> (temp_dirs st)
    | Some _ => temp_dirs st
    end in
  let filenames := filter (fun f => not_hidden f.1 = true) (w_files it) in
  let temp_dirs2 :=
    <[pkr_dir_name := default [] (temp_dirs1 !! pkr_dir_name) ++ filenames.*1]>
      temp_dirs1 in
  let root := path_join_all base_input_dir (w_root it) in
  foldl (fun st' f =>
           {| temp_dirs := temp_dirs st';
              all_files_info :=
                all_files_info st'
                ++ [{| fi_dir := pkr_dir_name; fi_name := f.1;
                       fi_path := path_join root f.1; fi_size := f.2 |}];
              total_file_count := total_file_count st' + 1 |})
        {| temp_dirs := temp_dirs2;
           all_files_info := all_files_info st;
           total_file_count := total_file_count st |}
        filenames.

(** Lines 25-53: the first pass over the tree [t] found at
    [base_input_dir]. *)
Definition collect (base_input_dir : string) (t : node) : collected :=
  foldl (visit base_input_dir)
        {| temp_dirs := ∅; all_files_info := []; total_file_count := 0 |}
        (os_walk not_hidden [] t).

(** The key of [all_files_info.sort]: the pair [(x[0], x[1])], compared
    as Python compares tuples. *)
Definition info_key_leb (a b : file_info) : bool :=
  String.ltb (fi_dir a) (fi_dir b)
  || (String.eqb (fi_dir a) (fi_dir b) && String.leb (fi_name a) (fi_name b)).

(** Lines 57-59: [dirs_to_pack], the directories sorted by name, each
    with its sorted file names. *)
Definition dirs_to_pack_of (td : gmap string (list string))
  : list (string * list string) :=
  let sorted_dir_names := py_sorted String.leb (map_to_list td).*1 in
  (fun pkr_dir_name =>
     (pkr_dir_name, py_sorted String.leb (default [] (td !! pkr_dir_name))))
    <$> sorted_dir_names.

(** ** repack_pkr.py: layout and offsets *)

Definition PKR_MAGIC : N := 0x32524B50.
Definition PKR_VERSION : N := 0x00000001.
Definition header_size : N := 16.
Definition dir_entry_size : N := 32 + 4 + 4.
Definition file_entry_size : N := 32 + 4 + 4 + 4 + 4.

(** [os.path.join(pkr_dir_name, file_name).replace('\\', '/')] *)
Definition file_key_of (pkr_dir_name file_name : string) : string :=
  replace_backslash (path_join pkr_dir_name file_name).

(** What lines 71-89 leave in the local variables. *)
Record layout := {
  dir_table_size : N;
  total_file_tables_size : N;
  dir_offsets : gmap string N;
  file_data_offsets : gmap string N;
  current_data_offset : N
}.

(** Lines 71-89.  The loop over [all_files_info] computes [file_key] and
    advances [current_data_offset]; it stores nothing in
    [file_data_offsets]. *)
Definition layout_plan (dirs_to_pack : list (string * list string))
    (infos : list file_info) : layout :=
  let num_directories := N.of_nat (length dirs_to_pack) in
  let dir_table_size := num_directories * dir_entry_size in
  let '(total_file_tables_size, dir_offsets, _) :=
    foldl (fun '(total, offs, current_file_table_offset) '(pkr_dir_name, filenames) =>
             let offs' := <[pkr_dir_name := current_file_table_offset]> offs in
             let file_table_size := N.of_nat (length filenames) * file_entry_size in
             (total + file_table_size, offs',
              current_file_table_offset + file_table_size))
          (0, ∅, header_size + dir_table_size) dirs_to_pack in
  let '(file_data_offsets, current_data_offset) :=
    foldl (fun '(fdo, current_data_offset) info =>
             let file_key := file_key_of (fi_dir info) (fi_name info) in
             (fdo, current_data_offset + fi_size info))
          (∅, header_size + dir_table_size + total_file_tables_size) infos in
  {| dir_table_size := dir_table_size;
     total_file_tables_size := total_file_tables_size;
     dir_offsets := dir_offsets;
     file_data_offsets := file_data_offsets;
     current_data_offset := current_data_offset |}.

(** ** repack_pkr.py: writing the archive *)

(** [d[key]] *)
Definition dict_get {S} (d : gmap string N) (key : string) : M S N :=
  match d !! key with
  | Some v => ret v
  | None => raise (KeyError key)
  end.

(** The four writes of lines 122-125 that make one record of a file table. *)
Definition write_file_entry (file_name : string) (file_size : N) : M ostream unit :=
  write_string file_name 32 >>
  write32 0xFFFFFFFE >>
  write32 file_size >>
  write32 file_size.

Section Emit.
(** [reread path]: what [open(path, "rb").read()] gives during the
    payload pass; [None] when it raises [IOError]. *)
Variable reread : string -> option bytes.
Variable dirs_to_pack : list (string * list string).
Variable infos : list file_info.
Variable file_count_total : N.

Let lay := layout_plan dirs_to_pack infos.

Definition write_header : M ostream unit :=
  write32 PKR_MAGIC >>
  write32 PKR_VERSION >>
  write32 (N.of_nat (length dirs_to_pack)) >>
  write32 file_count_total.

Definition write_dir_table : M ostream unit :=
  for_each dirs_to_pack (fun '(pkr_dir_name, filenames) =>
    let file_count := N.of_nat (length filenames) in
    let* offset := dict_get (dir_offsets lay) pkr_dir_name in
    write_string pkr_dir_name 32 >>
    write32 offset >>
    write32 file_count).

Definition write_file_tables : M ostream unit :=
  for_each dirs_to_pack (fun '(pkr_dir_name, filenames) =>
    let* offset := dict_get (dir_offsets lay) pkr_dir_name in
    o_seek offset >>
    for_each filenames (fun file_name =>
      let file_key := file_key_of pkr_dir_name file_name in
      match find (fun info =>
                    String.eqb (file_key_of (fi_dir info) (fi_name info)) file_key)
                 infos with
      | Some file_info =>
          let file_size := fi_size file_info in
          let* data_offset := dict_get (file_data_offsets lay) file_key in
          write_file_entry file_name file_size
      | None => ret tt
      end)).

Definition write_file_data : M ostream unit :=
  o_seek (header_size + dir_table_size lay + total_file_tables_size lay) >>
  for_each infos (fun info =>
    let file_key := file_key_of (fi_dir info) (fi_name info) in
    let* data_offset := dict_get (file_data_offsets lay) file_key in
    let* pos := o_tell in
    (if negb (pos =? data_offset) then o_seek data_offset else ret tt) >>
    match reread (fi_path info) with
    | Some data => o_write data
    | None => o_write (replicate (N.to_nat (fi_size info)) x00)
    end).

(** The body of [with open(output_pkr_file, "wb") as f]. *)
Definition emit : M ostream unit :=
  write_header >> write_dir_table >> write_file_tables >> write_file_data.
End Emit.

(** [repack_pkr(input_dir, output_pkr_file)].  [t] is the tree found at
    [input_dir]; [can_open] tells whether [open(output_pkr_file, "wb")]
    succeeds.  The result is the returned boolean and the contents of the
    output file, if it was created: an exception raised inside the [with]
    block closes the file with what was written so far, and every
    exception is turned into [return False]. *)
Definition repack_pkr (reread : string -> option bytes) (can_open : bool)
    (input_dir : string) (t : node) : bool * option bytes :=
  let st := collect input_dir t in
  let dirs_to_pack := dirs_to_pack_of (temp_dirs st) in
  let infos := py_sorted info_key_leb (all_files_info st) in
  if can_open then
    match emit reread dirs_to_pack infos (total_file_count st) o_empty with
    | (f, inr _) => (true, Some (o_data f))
    | (f, inl _) => (false, Some (o_data f))
    end
  else (false, None).

(** ** extract_pkr.py *)

(** The operating-system calls [extract_pkr] makes on the output tree. *)
Class FileSystem (FS : Type) := {
  (** [os.makedirs(path, exist_ok=True)]; [None] when it raises. *)
  makedirs : string -> FS -> option FS;
  (** [open(path, "wb")]: the file is created or truncated; [None] when
      it raises [IOError]. *)
  open_wb : string -> FS -> option FS;
  (** [fo.write(data)] on the file just opened, and its closing. *)
  fs_write : string -> bytes -> FS -> FS
}.

(** The messages printed on stderr. *)
Inductive warning :=
  | UnexpectedMagicVersion (magic version : N)
  | UnexpectedUnk1 (unk1 : N) (file_name dir_name : string)
  | SizeMismatch (size1 size2 : N) (file_name dir_name : string)
  | ShortRead (got expected : N) (path : string)
  | ErrorWritingFile (path : string).

(** An element of [dir_entries]. *)
Record dir_entry := { de_name : string; de_offset : N; de_count : N }.

(** [s.split('/')] *)
Fixpoint split_slash (s : string) : list string :=
  match s with
  | EmptyString => [EmptyString]
  | String c s' =>
      if Ascii.eqb c "/" then EmptyString :: split_slash s'
      else match split_slash s' with
           | h :: t => String c h :: t
           | [] => [String c EmptyString]
           end
  end.

Definition nonempty (s : string) : bool := negb (String.eqb s EmptyString).

(** [for j in range(n): body j] *)
Definition for_range {S} (n : nat) (body : nat -> M S unit) : M S unit :=
  for_each (seq 0 n) body.

Section Extract.
Context {FS : Type} `{FileSystem FS}.

(** The state [extract_pkr] works on: the position of the input stream
    [f], the output tree and the warnings printed so far. *)
Record xstate := { x_pos : N; x_fs : FS; x_log : list warning }.

(** The bytes of the archive; the stream [f] never changes them. *)
Variable data : bytes.

Definition f_tell : M xstate N := fun st => (st, inr (x_pos st)).
Definition f_seek (p : N) : M xstate unit :=
  modify (fun st => {| x_pos := p; x_fs := x_fs st; x_log := x_log st |}).
(** [f.read(n)]: at most [n] bytes, fewer at the end of the stream. *)
Definition f_read (n : N) : M xstate bytes :=
  fun st =>
    let bs := slice data (x_pos st) n in
    ({| x_pos := x_pos st + N.of_nat (length bs);
        x_fs := x_fs st; x_log := x_log st |}, inr bs).
Definition warn (w : warning) : M xstate unit :=
  modify (fun st => {| x_pos := x_pos st; x_fs := x_fs st;
                       x_log := x_log st ++ [w] |}).
Definition when {S} (b : bool) (c : M S unit) : M S unit :=
  if b then c else ret tt.

(** Modelled from the spec: common.py is not among the sources; section
    4.1 describes its [read32]: an unsigned 32-bit little-endian integer
    is read, and the end of the stream before 4 bytes are available is
    an error. *)
Definition read32 : M xstate N :=
  let* bs := f_read 4 in
  match bs with
  | [b0; b1; b2; b3] => ret (le32_decode b0 b1 b2 b3)
  | _ => raise StructError
  end.

(** Modelled from the spec: common.py is not among the sources; section
    4.1 describes its [read_string]: a field of [n] bytes is read, the
    text stops at the first null byte of the field, and the end of the
    stream before [n] bytes are available is an error. *)
Definition read_string (n : nat) : M xstate string :=
  let* bs := f_read (N.of_nat n) in
  if (length bs <? n)%nat then raise StructError
  else ret (string_of_list_byte (until_null bs)).

(** [os.makedirs(path, exist_ok=True)] on the output tree. *)
Definition do_makedirs (path : string) : M xstate unit :=
  fun st =>
    match makedirs path (x_fs st) with
    | Some fs' => ({| x_pos := x_pos st; x_fs := fs'; x_log := x_log st |}, inr tt)
    | None => (st, inl (OSError path))
    end.

(** Lines 78-85: the [try: with open(...) as fo: ... except IOError]. *)
Definition write_payload (file_export_path : string) (size1 : N)
  : M xstate unit :=
  fun st =>
    match open_wb file_export_path (x_fs st) with
    | Some fs1 =>
        (let* bs := f_read size1 in
         when (negb (N.of_nat (length bs) =? size1))
              (warn (ShortRead (N.of_nat (length bs)) size1 file_export_path)) >>
         modify (fun st' =>
                   {| x_pos := x_pos st';
                      x_fs := fs_write file_export_path bs (x_fs st');
                      x_log := x_log st' |}))
          {| x_pos := x_pos st; x_fs := fs1; x_log := x_log st |}
    | None => warn (ErrorWritingFile file_export_path) st
    end.

(** Lines 61-86: the body of [for j in range(count)]. *)
Definition extract_file_entry (name current_dir_export_path : string)
    (j : nat) : M xstate unit :=
  let* file_name := read_string 32 in
  let* unk1 := read32 in
  when (negb (unk1 =? 0xFFFFFFFE)) (warn (UnexpectedUnk1 unk1 file_name name)) >>
  let* data_offset := read32 in
  let* size1 := read32 in
  let* size2 := read32 in
  when (negb (size1 =? size2)) (warn (SizeMismatch size1 size2 file_name name)) >>
  let* file_cursor := f_tell in
  f_seek data_offset >>
  let file_export_path := path_join current_dir_export_path file_name in
  write_payload file_export_path size1 >>
  f_seek file_cursor.

(** Lines 38-43: reading the directory table. *)
Fixpoint read_dir_entries (n : nat) : M xstate (list dir_entry) :=
  match n with
  | O => ret []
  | S n' =>
      let* name := read_string 32 in
      let* offset := read32 in
      let* count := read32 in
      let* rest := read_dir_entries n' in
      ret ({| de_name := name; de_offset := offset; de_count := count |} :: rest)
  end.

(** Lines 46-86: the body of [for i, entry in enumerate(dir_entries)]. *)
Definition extract_dir (output_base_dir : string) (entry : dir_entry)
  : M xstate unit :=
  let name := de_name entry in
  let offset := de_offset entry in
  let count := de_count entry in
  let path_parts := filter (fun part => nonempty part = true) (split_slash name) in
  let current_dir_export_path := path_join_all output_base_dir path_parts in
  do_makedirs current_dir_export_path >>
  let* cursor := f_tell in
  f_seek offset >>
  for_range (N.to_nat count) (extract_file_entry name current_dir_export_path).

(** The body of [with open(pkr_file_path, "rb") as f]. *)
Definition extract_body (output_base_dir : string) : M xstate unit :=
  let* magic := read32 in
  let* version := read32 in
  let* num_dir := read32 in
  let* num_file := read32 in
  when (negb (magic =? 0x32524B50) || negb (version =? 0x00000001))
       (warn (UnexpectedMagicVersion magic version)) >>
  do_makedirs output_base_dir >>
  let* dir_entries := read_dir_entries (N.to_nat num_dir) in
  for_each dir_entries (extract_dir output_base_dir).
End Extract.

Arguments xstate FS : clear implicits.

(** How a call of [extract_pkr] ends: the value it returns, the exception
    its handlers caught (if any), the output tree and the warnings. *)
Record extract_result (FS : Type) := {
  x_returned : bool;
  x_caught : option exn;
  x_tree : FS;
  x_warnings : list warning
}.
Arguments x_returned {FS}.
Arguments x_caught {FS}.
Arguments x_tree {FS}.
Arguments x_warnings {FS}.

(** [extract_pkr(pkr_file_path, output_base_dir)].  [input] is the content
    of the file at [pkr_file_path], [None] when there is no such file. *)
Definition extract_pkr {FS} `{FileSystem FS} (pkr_file_path : string)
    (input : option bytes) (output_base_dir : string) (fs : FS)
  : extract_result FS :=
  match input with
  | None =>
      {| x_returned := false; x_caught := Some (FileNotFoundError pkr_file_path);
         x_tree := fs; x_warnings := [] |}
  | Some data =>
      match extract_body data output_base_dir
              {| x_pos := 0; x_fs := fs; x_log := [] |} with
      | (st, inr _) =>
          {| x_returned := true; x_caught := None;
             x_tree := x_fs st; x_warnings := x_log st |}
      | (st, inl e) =>
          {| x_returned := false; x_caught := Some e;
             x_tree := x_fs st; x_warnings := x_log st |}
      end
  end.

(** ** A concrete output tree *)

(** A flat filesystem: the set of directory paths and the content of
    every file path. *)
Record simple_fs := { sf_dirs : gset string; sf_files : gmap string bytes }.

Definition sf_empty : simple_fs := {| sf_dirs := ∅; sf_files := ∅ |}.

#[global] Instance simple_fs_FileSystem : FileSystem simple_fs := {|
  makedirs path fs :=
    match sf_files fs !! path with
    | Some _ => None
    | None => Some {| sf_dirs := {[path]} ∪ sf_dirs fs; sf_files := sf_files fs |}
    end;
  open_wb path fs :=
    if String.eqb path EmptyString || endswith_slash path || bool_decide (path ∈ sf_dirs fs)
    then None
    else Some {| sf_dirs := sf_dirs fs; sf_files := <[path := []]> (sf_files fs) |};
  fs_write path bs fs :=
    {| sf_dirs := sf_dirs fs; sf_files := <[path := bs]> (sf_files fs) |}
|}.

(** ** Example trees *)

Fixpoint tree_files (root : string) (t : node) : list (string * bytes) :=
  match t with
  | File c => [(root, c)]
  | Dir es =>
      (fix sub (l : list (string * node)) : list (string * bytes) :=
         match l with
         | [] => []
         | (n, c) :: l' => tree_files (path_join root n) c ++ sub l'
         end) es
  end.

(** Reading the tree itself back: the filesystem has not changed between
    the two passes of [repack_pkr]. *)
Definition reread_tree (input_dir : string) (t : node) : string -> option bytes :=
  fun path => (list_to_map (tree_files input_dir t) : gmap string bytes) !! path.

Definition repack_tree (input_dir : string) (t : node) : bool * option bytes :=
  repack_pkr (reread_tree input_dir t) true input_dir t.

Definition tree_one_file : node := Dir [("a.bin"%string, File [x01; x02; x03])].
Definition tree_audio : node :=
  Dir [("audio"%string, Dir [("a.bin"%string, File [x01; x02; x03]);
                             ("b.bin"%string, File [])])].
Definition tree_dirs_only : node :=
  Dir [("b"%string, Dir []); ("a"%string, Dir [("c"%string, Dir [])])].

(** A hand-made archive: the root directory with the two files of
    [tree_audio]'s "audio" directory, laid out as the format table says. *)
Definition archive_audio : bytes :=
  le32 PKR_MAGIC ++ le32 PKR_VERSION ++ le32 2 ++ le32 2
  ++ string_field "/" 32 ++ le32 96 ++ le32 0
  ++ string_field "audio/" 32 ++ le32 96 ++ le32 2
  ++ string_field "a.bin" 32 ++ le32 0xFFFFFFFE ++ le32 192 ++ le32 3 ++ le32 3
  ++ string_field "b.bin" 32 ++ le32 0xFFFFFFFE ++ le32 195 ++ le32 0 ++ le32 0
  ++ [x01; x02; x03].

(** ** adjust_wav_volume.py *)

(** [numpy.float64] values: the IEEE 754 binary64 numbers of [SpecFloat]. *)
Definition float64 : Type := spec_float.
Definition f64_of_Z (z : Z) : float64 := binary_normalize 53 1024 z 0%Z false.
Definition f64_mul : float64 -> float64 -> float64 := SFmul 53 1024.

(** The exact comparisons of a float with an integer bound (IEEE
    comparisons are exact on the represented values and false on NaN). *)
Definition f64_lt_Z (x : float64) (b : Z) : bool :=
  match x with
  | S754_nan => false
  | S754_zero _ => (0 <? b)%Z
  | S754_infinity s => s
  | S754_finite s m e =>
      if (0 <=? e)%Z then (cond_Zopp s (Zpos m * 2 ^ e) <? b)%Z
      else (cond_Zopp s (Zpos m) <? b * 2 ^ (- e))%Z
  end.

Definition f64_gt_Z (x : float64) (b : Z) : bool :=
  match x with
  | S754_nan => false
  | S754_zero _ => (b <? 0)%Z
  | S754_infinity s => negb s
  | S754_finite s m e =>
      if (0 <=? e)%Z then (b <? cond_Zopp s (Zpos m * 2 ^ e))%Z
      else (b * 2 ^ (- e) <? cond_Zopp s (Zpos m))%Z
  end.

(** [np.clip(x, lo, hi)], that is [minimum(maximum(x, lo), hi)]; NaN
    stays NaN. *)
Definition f64_clip (lo hi : Z) (x : float64) : float64 :=
  let y := if f64_lt_Z x lo then f64_of_Z lo else x in
  if f64_gt_Z y hi then f64_of_Z hi else y.

(** Truncation toward zero, the value of a C cast to an integer type.
    The cast of NaN or of an infinity is undefined in C; it is taken to
    be 0 here (after [f64_clip] only NaN can still reach it). *)
Definition f64_trunc (x : float64) : Z :=
  match x with
  | S754_finite s m e =>
      cond_Zopp s (if (0 <=? e)%Z then Zpos m * 2 ^ e else Zpos m / 2 ^ (- e))%Z
  | _ => 0%Z
  end.

(** The 16-bit two's complement value of [z]. *)
Definition wrap16 (z : Z) : Z := ((z + 32768) mod 65536 - 32768)%Z.

(** [x.astype(np.int16)]. *)
Definition astype_int16 (x : float64) : Z := wrap16 (f64_trunc x).

Definition int16_min : Z := (-32768)%Z.
Definition int16_max : Z := 32767%Z.

(** One sample through lines 35-41. *)
Definition scale_sample (factor : float64) (sample : Z) : Z :=
  astype_int16 (f64_clip int16_min int16_max (f64_mul (f64_of_Z sample) factor)).

(** A 16-bit signed sample in the byte order of the machine, taken to be
    little-endian. *)
Definition int16_of_bytes (b0 b1 : byte) : Z :=
  let u := Z.of_N (Byte.to_N b0 + 256 * Byte.to_N b1) in
  if (u <? 32768)%Z then u else (u - 65536)%Z.

(** [tobytes()] for one sample. *)
Definition bytes_of_int16 (z : Z) : bytes :=
  let u := Z.to_N (z mod 65536) in [byte_of_N u; byte_of_N (u / 256)].

(** [np.frombuffer(frames, dtype=np.int16)]; [None] when it raises
    [ValueError] because the buffer size is not a multiple of the element
    size. *)
Fixpoint frombuffer_int16 (frames : bytes) : option (list Z) :=
  match frames with
  | [] => Some []
  | [_] => None
  | b0 :: b1 :: rest => cons (int16_of_bytes b0 b1) <$> frombuffer_int16 rest
  end.

(** [wf.getparams()] *)
Record wav_params := {
  n_channels : N;
  sampwidth : N;
  framerate : N;
  n_frames : N;
  comptype : string;
  compname : string
}.

(** What [wave.open(input_wav_path, 'rb')] finds. *)
Inductive wav_input :=
  | WavMissing                                      (* FileNotFoundError *)
  | WavInvalid                                      (* wave.Error *)
  | WavFile (params : wav_params) (frames : bytes). (* frames: readframes(n_frames) *)

(** [adjust_volume(input_wav_path, output_wav_path, factor)]: the returned
    boolean and, when the output file is written, its parameters and
    frames.  [output_ok] tells whether the output file can be written. *)
Definition adjust_volume (input : wav_input) (output_ok : bool) (factor : float64)
  : bool * option (wav_params * bytes) :=
  match input with
  | WavMissing => (false, None)
  | WavInvalid => (false, None)
  | WavFile params frames =>
      if negb (String.eqb (comptype params) "NONE") then (false, None)
      else
        match frombuffer_int16 frames with
        | None => (false, None)
        | Some audio_data =>
            let adjusted_data := scale_sample factor <$> audio_data in
            let adjusted_frames := concat (bytes_of_int16 <$> adjusted_data) in
            if output_ok then (true, Some (params, adjusted_frames))
            else (false, None)
        end
  end.

Definition f64_half : float64 := S754_finite false 4503599627370496 (-53).
Definition pcm (width frames : N) : wav_params :=
  {| n_channels := 1; sampwidth := width; framerate := 22050; n_frames := frames;
     comptype := "NONE"; compname := "not compressed" |}.

(** ** Notions used in the statements *)

(** The number of file-table records of a list of directories. *)
Definition records_of (dirs : list (string * list string)) : N :=
  N.of_nat (length (concat dirs.*2)).

Definition dir_step : N * gmap string N * N -> string * list string
                      -> N * gmap string N * N :=
  fun '(total, offs, current_file_table_offset) '(pkr_dir_name, filenames) =>
    let offs' := <[pkr_dir_name := current_file_table_offset]> offs in
    let file_table_size := N.of_nat (length filenames) * file_entry_size in
    (total + file_table_size, offs', current_file_table_offset + file_table_size).

(** A computation that leaves the bytes of the output file as they are. *)
Definition keeps_data {A} (c : M ostream A) : Prop :=
  forall f, o_data (c f).1 = o_data f.

(** A computation that returns normally from every state. *)
Definition succeeds {S A} (c : M S A) : Prop :=
  forall s, exists s' a, c s = (s', inr a).

(** The stream positioned at the end of the bytes [d]. *)
Definition at_end (d : bytes) : ostream :=
  {| o_data := d; o_pos := N.of_nat (length d) |}.

Definition header_bytes (num_directories file_count_total : N) : bytes :=
  le32 PKR_MAGIC ++ le32 PKR_VERSION ++ le32 num_directories ++ le32 file_count_total.

Definition dir_record_bytes (offs : gmap string N) (d : string * list string) : bytes :=
  string_field d.1 32 ++ le32 (default 0 (offs !! d.1))
  ++ le32 (N.of_nat (length d.2)).

Definition dir_table_bytes (offs : gmap string N)
    (dirs : list (string * list string)) : bytes :=
  concat (dir_record_bytes offs <$> dirs).

Definition item_key (it : walk_item) : string := pkr_dir_name_of (w_root it).

Definition item_files (it : walk_item) : list (string * N) :=
  filter (fun f => not_hidden f.1 = true) (w_files it).

Definition item_infos (base : string) (it : walk_item) : list file_info :=
  (fun f => {| fi_dir := item_key it; fi_name := f.1;
               fi_path := path_join (path_join_all base (w_root it)) f.1;
               fi_size := f.2 |}) <$> item_files it.

(** The pairs (directory, file name) of a walk. *)
Definition flat_names (its : list walk_item) : list (string * string) :=
  its ≫= fun it => (fun f => (item_key it, f.1)) <$> item_files it.

Definition names_for (k : string) (its : list walk_item) : list string :=
  (filter (fun p => p.1 = k) (flat_names its)).*2.

(** The part of [os_walk] that descends into the entries of a directory. *)
Definition walk_entries (keep : string -> bool) (root : list string)
    (es : list (string * node)) : list walk_item :=
  (fix sub (l : list (string * node)) : list walk_item :=
     match l with
     | [] => []
     | (n, c) :: l' =>
         (match c with
          | Dir _ => if keep n then os_walk keep (root ++ [n]) c else []
          | File _ => []
          end) ++ sub l'
     end) es.

(** [tree_perm t1 t2]: [t2] is [t1] with the entries of some directories
    enumerated in another order. *)
Inductive tree_perm : node -> node -> Prop :=
  | tp_refl t : tree_perm t t
  | tp_dir es1 es2 : entries_perm es1 es2 -> tree_perm (Dir es1) (Dir es2)
with entries_perm : list (string * node) -> list (string * node) -> Prop :=
  | ep_nil : entries_perm [] []
  | ep_skip n t1 t2 l1 l2 :
      tree_perm t1 t2 -> entries_perm l1 l2 ->
      entries_perm ((n, t1) :: l1) ((n, t2) :: l2)
  | ep_swap e1 e2 l : entries_perm (e1 :: e2 :: l) (e2 :: e1 :: l)
  | ep_trans l1 l2 l3 :
      entries_perm l1 l2 -> entries_perm l2 l3 -> entries_perm l1 l3.

Scheme tree_perm_mut := Minimality for tree_perm Sort Prop
  with entries_perm_mut := Minimality for entries_perm Sort Prop.
Combined Scheme tree_entries_perm_ind from tree_perm_mut, entries_perm_mut.

(** Two walks with the same directories and the same files, in any order. *)
Definition walk_sim (its1 its2 : list walk_item) : Prop :=
  item_key <$> its1 ≡ₚ item_key <$> its2 /\ flat_names its1 ≡ₚ flat_names its2.

Definition tree_audio_reordered : node :=
  Dir [("audio"%string, Dir [("b.bin"%string, File []);
                             ("a.bin"%string, File [x01; x02; x03])])].

(** [has_file t]: some file of [t] is packed, that is, it is not hidden
    and neither is any directory on the way to it. *)
Fixpoint has_file (t : node) : bool :=
  match t with
  | File _ => false
  | Dir es =>
      (fix any (l : list (string * node)) : bool :=
         match l with
         | [] => false
         | (n, c) :: l' =>
             (not_hidden n
              && match c with File _ => true | Dir _ => has_file c end)
             || any l'
         end) es
  end.

Definition has_file_in (es : list (string * node)) : bool := has_file (Dir es).

(** Induction on trees, with the hypothesis for every entry of a directory. *)
Fixpoint node_ind' (P : node -> Prop)
    (HF : forall c, P (File c))
    (HD : forall es, Forall (fun e => P e.2) es -> P (Dir es))
    (t : node) : P t :=
  match t with
  | File c => HF c
  | Dir es =>
      HD es ((fix go (l : list (string * node)) : Forall (fun e => P e.2) l :=
                match l with
                | [] => @List.Forall_nil _ _
                | (n, c) :: l' =>
                    @List.Forall_cons _ (fun e => P e.2) (n, c) l'
                      (node_ind' P HF HD c) (go l')
                end) es)
  end.

(** The decoders of the archive fields, as plain functions of the bytes. *)
Definition u32_at (data : bytes) (pos : N) : N :=
  match slice data pos 4 with
  | [b0; b1; b2; b3] => le32_decode b0 b1 b2 b3
  | _ => 0
  end.

Definition str_at (data : bytes) (pos : N) (n : nat) : string :=
  string_of_list_byte (until_null (slice data pos (N.of_nat n))).

Section ExtractSpec.
Context {FS : Type} `{FileSystem FS}.
Variable data : bytes.

(** The state [st] with the stream moved to position [p]. *)
Definition st_at (p : N) (st : xstate FS) : xstate FS :=
  {| x_pos := p; x_fs := x_fs st; x_log := x_log st |}.

(** The fields of the file-table record at position [pos]. *)
Definition fe_name (pos : N) : string := str_at data pos 32.
Definition fe_unk1 (pos : N) : N := u32_at data (pos + 32).
Definition fe_offset (pos : N) : N := u32_at data (pos + 36).
Definition fe_size1 (pos : N) : N := u32_at data (pos + 40).
Definition fe_size2 (pos : N) : N := u32_at data (pos + 44).

(** The output tree after the record at the position of [st] has been
    processed. *)
Definition entry_fs (dir : string) (st : xstate FS) : FS :=
  let pos := x_pos st in
  let path := path_join dir (fe_name pos) in
  match open_wb path (x_fs st) with
  | Some fs1 => fs_write path (slice data (fe_offset pos) (fe_size1 pos)) fs1
  | None => x_fs st
  end.

(** The warnings it prints. *)
Definition entry_warnings (name dir : string) (st : xstate FS) : list warning :=
  let pos := x_pos st in
  let path := path_join dir (fe_name pos) in
  (if fe_unk1 pos =? 0xFFFFFFFE then []
   else [UnexpectedUnk1 (fe_unk1 pos) (fe_name pos) name])
  ++ (if fe_size1 pos =? fe_size2 pos then []
      else [SizeMismatch (fe_size1 pos) (fe_size2 pos) (fe_name pos) name])
  ++ match open_wb path (x_fs st) with
     | Some _ =>
         let got := N.of_nat (length (slice data (fe_offset pos) (fe_size1 pos))) in
         if got =? fe_size1 pos then [] else [ShortRead got (fe_size1 pos) path]
     | None => [ErrorWritingFile path]
     end.

Definition entry_result (name dir : string) (st : xstate FS) : xstate FS :=
  {| x_pos := x_pos st + 48; x_fs := entry_fs dir st;
     x_log := x_log st ++ entry_warnings name dir st |}.
End ExtractSpec.

(** A record whose two sizes differ, followed by its three payload bytes. *)
Definition entry_example : bytes :=
  string_field "a.bin" 32 ++ le32 0xFFFFFFFE ++ le32 48 ++ le32 3 ++ le32 5
  ++ [x01; x02; x03].

(** A record whose payload starts two bytes before the end of the data. *)
Definition entry_short_example : bytes :=
  string_field "a.bin" 32 ++ le32 0xFFFFFFFE ++ le32 49 ++ le32 3 ++ le32 3
  ++ [x01; x02; x03].

Definition xstate0 : xstate simple_fs := {| x_pos := 0; x_fs := sf_empty; x_log := [] |}.

(** The directory table as the bytes hold it. *)
Fixpoint dir_entries_at (data : bytes) (pos : N) (n : nat) : list dir_entry :=
  match n with
  | O => []
  | S n' =>
      {| de_name := str_at data pos 32;
         de_offset := u32_at data (pos + 32);
         de_count := u32_at data (pos + 36) |}
      :: dir_entries_at data (pos + 40) n'
  end.

(** The file table of a directory entry lies within the data. *)
Definition table_in_bounds (data : bytes) (e : dir_entry) : bool :=
  (de_count e =? 0) || (de_offset e + 48 * de_count e <=? N.of_nat (length data)).

(** Structurally navigable archives: the header, the directory table and
    every file table lie within the data.  Nothing is asked of the magic,
    the version, the markers, the second sizes or the payload offsets. *)
Definition navigable (data : bytes) : bool :=
  let len := N.of_nat (length data) in
  let num_dir := u32_at data 8 in
  (16 <=? len) && (16 + 40 * num_dir <=? len)
  && forallb (table_in_bounds data) (dir_entries_at data 16 (N.to_nat num_dir)).

(** A computation whose only exception is the [OSError] of [os.makedirs]. *)
Definition only_oserror {S A} (c : M S A) : Prop :=
  forall s, match (c s).2 with
            | inr _ => True
            | inl e => exists p, e = OSError p
            end.

(** An archive with every recoverable anomaly: wrong magic and version,
    a marker that is not the sentinel, two sizes that differ and a payload
    offset past the end of the data. *)
Definition archive_anomalous : bytes :=
  le32 0x12345678 ++ le32 7 ++ le32 1 ++ le32 1
  ++ string_field "/" 32 ++ le32 56 ++ le32 1
  ++ string_field "a.bin" 32 ++ le32 0 ++ le32 500 ++ le32 3 ++ le32 4.

(** Characters allowed in the name of a directory entry: not a path
    separator (of either kind) and not the null character. *)
Definition char_ok (c : ascii) : bool :=
  negb (Ascii.eqb c "/") && negb (Ascii.eqb c "\") && negb (Ascii.eqb c "000").

Fixpoint chars_ok (s : string) : bool :=
  match s with
  | EmptyString => true
  | String c s' => char_ok c && chars_ok s'
  end.

(** A name that is not empty, not hidden and made of allowed characters. *)
Definition name_ok (s : string) : bool :=
  match s with
  | EmptyString => false
  | String c _ => negb (Ascii.eqb c ".")
  end && chars_ok s.

(** A tree of directories only, all of them with such names. *)
Fixpoint plain_dirs (t : node) : bool :=
  match t with
  | File _ => false
  | Dir es =>
      (fix all (l : list (string * node)) : bool :=
         match l with
         | [] => true
         | (n, c) :: l' => name_ok n && plain_dirs c && all l'
         end) es
  end.

(** The canonical name of a directory below the root: every component
    followed by a slash. *)
Fixpoint canon (root : list string) : string :=
  match root with
  | [] => EmptyString
  | c :: cs => c +:+ "/" +:+ canon cs
  end.

(** What the accumulator of [relpath] keeps true. *)
Definition relpath_ok (acc : string) : Prop :=
  (exists c0 r, acc = String c0 r /\ Ascii.eqb c0 "." = false
                /\ Ascii.eqb c0 "/" = false)
  /\ endswith_slash acc = false
  /\ replace_backslash acc = acc.

Fixpoint no_nul (s : string) : bool :=
  match s with
  | EmptyString => true
  | String c s' => negb (Ascii.eqb c "000") && no_nul s'
  end.

(** What the reader finds in a directory table written by [repack_pkr]. *)
Definition dir_record_read (offs : gmap string N) (d : string * list string)
  : dir_entry :=
  {| de_name := d.1;
     de_offset := default 0 (offs !! d.1) mod 2 ^ 32;
     de_count := N.of_nat (length d.2) mod 2 ^ 32 |}.

Definition field_ok (k : string) : Prop :=
  (String.length k <= 32)%nat /\ no_nul k = true.

Definition plain_dirs_in (es : list (string * node)) : bool := plain_dirs (Dir es).

(** In a walk of plain directories nothing is pruned, no file is listed
    and every path is made of plain names. *)
Definition plain_item (it : walk_item) : Prop :=
  w_files it = [] /\ Forall (fun c => name_ok c = true) (w_root it).

(** The directories of a tree, as paths below [base]. *)
Definition tree_dirs (base : string) (t : node) : list string :=
  (fun it => path_join_all base (w_root it)) <$> os_walk (fun _ => true) [] t.

(** The canonical names of the directories of a tree. *)
Definition canonical_names (t : node) : list string :=
  item_key <$> os_walk (fun _ => true) [] t.

(** The output tree that reproduces [t] below [base]. *)
Definition expected_fs (base : string) (t : node) : simple_fs :=
  {| sf_dirs := list_to_set (tree_dirs base t);
     sf_files := list_to_map (tree_files base t) |}.

(** The directory [extract_pkr] creates for a canonical name. *)
Definition export_path (base name : string) : string :=
  path_join_all base (filter (fun part => nonempty part = true) (split_slash name)).

(** No entry of the tree is hidden. *)
Fixpoint no_hidden_entries (t : node) : bool :=
  match t with
  | File _ => true
  | Dir es =>
      (fix all (l : list (string * node)) : bool :=
         match l with
         | [] => true
         | (n, c) :: l' => not_hidden n && no_hidden_entries c && all l'
         end) es
  end.

(** Extracting, below [base], the archive made from the tree [t] found
    at [input_dir] gives back the directories and the files of [t]. *)
Definition roundtrip (input_dir base : string) (t : node) : Prop :=
  exists archive,
    (repack_tree input_dir t).2 = Some archive
    /\ x_tree (extract_pkr "archive.pkr" (Some archive) base sf_empty)
       = expected_fs base t.

(** A directory whose name is 40 bytes long. *)
Definition tree_long_name : node :=
  Dir [("aaaaaaaaaaaaaaaaaaaaaaaaaaaaaaaaaaaaaaaa"%string, Dir [])].

(** ** Further notions: the first pass and the layout *)

(** No backslash in the string. *)
Fixpoint no_backslash (s : string) : bool :=
  match s with
  | EmptyString => true
  | String c s' => negb (Ascii.eqb c "\") && no_backslash s'
  end.

(** A tree with a hidden file, a hidden directory and two plain files. *)
Definition tree_mixed : node :=
  Dir [(".git"%string, Dir [("config"%string, File [x01])]);
       ("sfx"%string, Dir [("b.wav"%string, File [x01; x02]);
                           (".cache"%string, File [x03]);
                           ("a.wav"%string, File [x04])]);
       ("readme"%string, File [x05; x06; x07])].

(** The sum of the sizes recorded for a list of files. *)
Definition payload_size (infos : list file_info) : N :=
  foldr (fun info acc => fi_size info + acc) 0 infos.

(** ** Further notions: reading an archive *)

Section ExtractPlan.
Context {FS : Type} `{FileSystem FS}.
Variable data : bytes.

(** The state after [n] consecutive records of a file table, the first
    one at the position of [st]. *)
Definition table_result (name dir : string) (n : nat) (st : xstate FS)
  : xstate FS :=
  Nat.iter n (entry_result data name dir) st.

(** What processing the directory entry [e] amounts to when its file
    table lies within the data. *)
Definition dir_result (base : string) (e : dir_entry) (st : xstate FS)
  : xstate FS * (exn + unit) :=
  let path := export_path base (de_name e) in
  match makedirs path (x_fs st) with
  | Some fs' =>
      (table_result (de_name e) path (N.to_nat (de_count e))
         {| x_pos := de_offset e; x_fs := fs'; x_log := x_log st |}, inr tt)
  | None => (st, inl (OSError path))
  end.
End ExtractPlan.

(** [a] is a prefix of [s]. *)
Definition string_prefix (a s : string) : Prop := exists r, s = a +:+ r.

(** A header that announces one directory, and nothing after it. *)
Definition archive_header_only : bytes :=
  le32 PKR_MAGIC ++ le32 PKR_VERSION ++ le32 1 ++ le32 0.

(** A file table that announces two records and holds one, whose payload
    is the first three bytes of the archive. *)
Definition archive_cut_table : bytes :=
  le32 PKR_MAGIC ++ le32 PKR_VERSION ++ le32 1 ++ le32 2
  ++ string_field "/" 32 ++ le32 56 ++ le32 2
  ++ string_field "a.bin" 32 ++ le32 0xFFFFFFFE ++ le32 0 ++ le32 3 ++ le32 3.

(** A record whose name is an absolute path. *)
Definition entry_absolute : bytes :=
  string_field "/tmp/x" 32 ++ le32 0xFFFFFFFE ++ le32 48 ++ le32 2 ++ le32 2
  ++ [x0a; x0b].

(** ** Further notions: volume factors *)




(** ** pkr_volume_adjuster_gui.py: the worker *)

(** [c.lower()] on the ASCII letters. *)
Definition ascii_lower (c : ascii) : ascii :=
  let n := nat_of_ascii c in
  if (65 <=? n)%nat && (n <=? 90)%nat then ascii_of_nat (n + 32) else c.

Fixpoint str_lower (s : string) : string :=
  match s with
  | EmptyString => EmptyString
  | String c s' => String (ascii_lower c) (str_lower s')
  end.

(** [s.endswith(suffix)] *)
Fixpoint endswith (s suffix : string) : bool :=
  String.eqb s suffix
  || match s with
     | EmptyString => false
     | String _ s' => endswith s' suffix
     end.

(** [f.lower().endswith(".wav")] *)
Definition is_wav (f : string) : bool := endswith (str_lower f) ".wav".

(** The text of [volume_adj_summary]. *)
Inductive volume_adj_summary :=
  | WavFilesAdjusted (processed_count total_files error_count : nat)
  | NoWavFilesFound
  | NoAudioDirectory.

(** The two [RuntimeError]s the worker raises. *)
Inductive worker_error := ExtractionFailed | RepackingFailed.

(** The texts put on the queue. *)
Inductive worker_message :=
  | RemovingExisting
  | WarnRemoveOldFailed
  | ExtractingPKR
  | AdjustingWavVolumes
  | ProcessingWav (number total_files : nat) (wav_file : string)
  | NoWavFilesSkipping
  | NoAudioDirSkipping
  | RepackingFiles
  | CleaningUp
  | ProcessingComplete (summary : volume_adj_summary) (cleaned_up : bool)
  | ErrorOccurred (e : worker_error).

(** An element of [result_queue]: [(message, is_complete, is_error)]. *)
Definition queue_item : Type := worker_message * bool * bool.

Definition is_complete (q : queue_item) : bool := q.1.2.
Definition is_error (q : queue_item) : bool := q.2.

(** The local variables of the worker that change. *)
Record worker_state := {
  result_queue : list queue_item;
  processed_count : nat;
  error_count : nat
}.

(** [result_queue.put((message, is_complete, is_error))] *)
Definition put (message : worker_message) (complete error : bool)
    (st : worker_state) : worker_state :=
  {| result_queue := result_queue st ++ [(message, complete, error)];
     processed_count := processed_count st;
     error_count := error_count st |}.

(** [enumerate(l)], counted from [i]. *)
Fixpoint enumerate_from {A} (i : nat) (l : list A) : list (nat * A) :=
  match l with
  | [] => []
  | x :: l' => (i, x) :: enumerate_from (S i) l'
  end.

Section Worker.
Context {FS : Type} `{FileSystem FS}.
(** What the worker finds around it. *)
Variable out_exists : bool.       (* os.path.exists(self.output_dir), at the start *)
Variable rmtree_old_ok : bool.    (* the first shutil.rmtree raises no OSError *)
Variable pkr_path : string.
Variable pkr_input : option bytes.       (* the content of the file at pkr_path *)
Variable fs0 : FS.                (* the output tree when the extraction starts *)
Variable audio_isdir : bool.      (* os.path.isdir(audio_dir) *)
Variable audio_listing : list string.    (* os.listdir(audio_dir) *)
Variable wav_at : string -> wav_input.   (* what wave.open finds at a path *)
Variable writable : string -> bool.      (* the path can be opened for writing *)
Variable reread : string -> option bytes.
Variable can_open : bool.         (* ALL.PKR can be opened for writing *)
Variable out_tree : node.         (* the tree at self.output_dir when it is repacked *)
Variable rmtree_tmp_ok : bool.    (* the last shutil.rmtree raises no OSError *)
Variable output_dir : string.
Variable factor : float64.

(** The body of [for idx, wav_file in enumerate(wav_files)]. *)
Definition adjust_one (audio_dir : string) (total_files : nat)
    (st : worker_state) (p : nat * string) : worker_state :=
  let '(idx, wav_file) := p in
  let input_wav := path_join audio_dir wav_file in
  let output_wav := input_wav in
  let st1 := put (ProcessingWav (idx + 1) total_files wav_file) false false st in
  if negb (adjust_volume (wav_at input_wav) (writable output_wav) factor).1
  then {| result_queue := result_queue st1;
          processed_count := processed_count st1;
          error_count := error_count st1 + 1 |}
  else {| result_queue := result_queue st1;
          processed_count := processed_count st1 + 1;
          error_count := error_count st1 |}.

(** The volume adjustment step: the state it leaves and the summary. *)
Definition adjust_wavs (st : worker_state) : worker_state * volume_adj_summary :=
  let audio_dir := path_join output_dir "audio" in
  if audio_isdir then
    let st1 := put AdjustingWavVolumes false false st in
    let wav_files := filter (fun f => is_wav f = true) audio_listing in
    match wav_files with
    | _ :: _ =>
        let total_files := length wav_files in
        let st2 := foldl (adjust_one audio_dir total_files) st1
                         (enumerate_from 0 wav_files) in
        (st2, WavFilesAdjusted (processed_count st2) total_files (error_count st2))
    | [] => (put NoWavFilesSkipping false false st1, NoWavFilesFound)
    end
  else (put NoAudioDirSkipping false false st, NoAudioDirectory).

(** The handler [except Exception as e] of the worker. *)
Definition worker_handler (e : worker_error) (st : worker_state) : worker_state :=
  put (ErrorOccurred e) true true st.

(** [processing_worker(pkr_path, factor, result_queue)]: the queue it
    leaves. *)
Definition processing_worker : list queue_item :=
  let st0 := {| result_queue := []; processed_count := 0; error_count := 0 |} in
  let st1 :=
    if out_exists then
      let st := put RemovingExisting false false st0 in
      if rmtree_old_ok then st else put WarnRemoveOldFailed false true st
    else st0 in
  let st2 := put ExtractingPKR false false st1 in
  result_queue
    (if negb (x_returned (extract_pkr pkr_path pkr_input output_dir fs0))
     then worker_handler ExtractionFailed st2
     else
       let '(st3, volume_adj_summary) := adjust_wavs st2 in
       let st4 := put RepackingFiles false false st3 in
       if (repack_pkr reread can_open output_dir out_tree).1 then
         let st5 := put CleaningUp false false st4 in
         if rmtree_tmp_ok
         then put (ProcessingComplete volume_adj_summary true) true false st5
         else put (ProcessingComplete volume_adj_summary false) true true st5
       else worker_handler RepackingFailed st4).
End Worker.

(** ** The command lines *)

(** repack_pkr.py, lines 162-174.  [dir_at path] is the tree found at
    [path] when it is a directory.  The result is the exit status and the
    content of the output file, if it was created. *)
Definition repack_main (argv : list string) (dir_at : string -> option node)
    (reread : string -> option bytes) (can_open : bool) : N * option bytes :=
  match argv with
  | [_; input_directory; output_file] =>
      match dir_at input_directory with
      | None => (1, None)
      | Some t => (0, (repack_pkr reread can_open input_directory t).2)
      end
  | _ => (1, None)
  end.

(** extract_pkr.py, lines 125-141.  [file_at path] is the content of the
    regular file at [path], if there is one.  The result is the exit
    status and the output tree. *)
Definition extract_main {FS} `{FileSystem FS} (argv : list string)
    (file_at : string -> option bytes) (fs : FS) : N * FS :=
  match argv with
  | [_; input_file] =>
      let output_dir := "out"%string in
      match file_at input_file with
      | None => (1, fs)
      | Some data =>
          let r := extract_pkr input_file (Some data) output_dir fs in
          if negb (x_returned r) then (1, x_tree r) else (0, x_tree r)
      end
  | _ => (1, fs)
  end.

(** ** pkr_volume_adjuster_gui.py: the window and the queue *)

(** What [check_processing_queue] reads and changes in the window. *)
Record gui_state := {
  is_processing : bool;
  (** the successive messages given to [status_text.set] *)
  status_history : list worker_message;
  (** the dialogs shown: [true] for [showerror], [false] for [showinfo] *)
  dialogs : list (bool * worker_message);
  (** a call of [check_processing_queue] is pending in the event loop *)
  check_scheduled : bool
}.

(** [check_processing_queue(self)], lines 109-126: the queue and the
    window after one call. *)
Definition check_processing_queue (queue : list queue_item) (g : gui_state)
  : list queue_item * gui_state :=
  match queue with
  | (message, complete, error) :: queue' =>
      if complete then
        (queue', {| is_processing := false;
                    status_history := status_history g ++ [message];
                    dialogs := dialogs g ++ [(error, message)];
                    check_scheduled := false |})
      else
        (queue', {| is_processing := is_processing g;
                    status_history := status_history g ++ [message];
                    dialogs := dialogs g;
                    check_scheduled := true |})
  | [] =>
      (queue, {| is_processing := is_processing g;
                 status_history := status_history g;
                 dialogs := dialogs g;
                 check_scheduled := is_processing g |})
  end.

(** The worker thread and the window side by side: the messages the
    worker has still to put, the queue, and the window. *)
Record session := {
  to_put : list queue_item;
  in_queue : list queue_item;
  window : gui_state
}.

(** One step of either side: the worker puts its next message, or the
    event loop runs the pending call of [check_processing_queue]. *)
Inductive session_step : session -> session -> Prop :=
  | step_put q rest queue g :
      session_step {| to_put := q :: rest; in_queue := queue; window := g |}
                   {| to_put := rest; in_queue := queue ++ [q]; window := g |}
  | step_check rest queue g :
      check_scheduled g = true ->
      session_step {| to_put := rest; in_queue := queue; window := g |}
                   {| to_put := rest;
                      in_queue := (check_processing_queue queue g).1;
                      window := (check_processing_queue queue g).2 |}.

(** The session as [start_processing] leaves it (lines 94-106): the
    window is busy, the queue is new and empty, the worker has all its
    messages to put, and the first check is scheduled. *)
Definition session_start (messages : list queue_item) : session :=
  {| to_put := messages; in_queue := [];
     window := {| is_processing := true; status_history := []; dialogs := [];
                  check_scheduled := true |} |}.

(** What every state of a session keeps true, for messages of which only
    the last is marked complete. *)
Definition session_inv (messages : list queue_item) (s : session) : Prop :=
  exists shown,
    status_history (window s) = (fun q => q.1.1) <$> shown
    /\ shown ++ in_queue s ++ to_put s = messages
    /\ ((check_scheduled (window s) = true /\ is_processing (window s) = true
         /\ dialogs (window s) = [] /\ Forall (fun q => is_complete q = false) shown)
        \/ (check_scheduled (window s) = false /\ is_processing (window s) = false
            /\ in_queue s = [] /\ to_put s = []
            /\ exists m e, last messages = Some (m, true, e)
                           /\ dialogs (window s) = [(e, m)])).

(** [s.rfind(c)], [None] for -1. *)
Fixpoint rfind (c : ascii) (s : string) : option nat :=
  match s with
  | EmptyString => None
  | String x s' =>
      match rfind c s' with
      | Some i => Some (S i)
      | None => if Ascii.eqb x c then Some 0%nat else None
      end
  end.

(** [p[k:k+1] != '.'] *)
Definition not_dot_at (p : string) (k : nat) : bool :=
  match String.get k p with
  | Some c => negb (Ascii.eqb c ".")
  | None => true
  end.

(** [posixpath.splitext(p)]: the extension starts at the last dot of the
    last component, unless only dots come before it in that component. *)
Definition splitext (p : string) : string * string :=
  let sepIndex := rfind "/" p in
  let dotIndex := rfind "." p in
  match dotIndex with
  | Some d =>
      let filenameIndex := match sepIndex with Some i => S i | None => 0%nat end in
      if (filenameIndex <=? d)%nat
         && existsb (not_dot_at p) (seq filenameIndex (d - filenameIndex))
      then (String.substring 0 d p, String.substring d (String.length p - d) p)
      else (p, EmptyString)
  | None => (p, EmptyString)
  end.

(** adjust_wav_volume.py, lines 72-76: the output path; [output] is the
    value of the option [-o], if given. *)
Definition output_wav_of (input_wav : string) (output : option string) : string :=
  match output with
  | Some o =>
      if nonempty o then o
      else let '(base, ext) := splitext input_wav in base +:+ "_adj" +:+ ext
  | None => let '(base, ext) := splitext input_wav in base +:+ "_adj" +:+ ext
  end.

(** * Properties *)

(** ** The monad and the output stream *)

Lemma bind_ret_l {S A B} (a : A) (k : A -> M S B) s : bind (ret a) k s = k a s.
Proof. reflexivity. Qed.

Lemma for_each_app {S A} (l1 l2 : list A) (body : A -> M S unit) s :
  for_each (l1 ++ l2) body s = (for_each l1 body >> for_each l2 body) s.
Proof.
  revert s. induction l1 as [|x l1 IH]; intros s; simpl.
  - reflexivity.
  - unfold bind in *. destruct (body x s) as [s1 [e|[]]]; [reflexivity|].
    apply IH.
Qed.

(** Writing at the end of the file appends. *)
Lemma o_write_raw_end bs d :
  o_write_raw bs {| o_data := d; o_pos := N.of_nat (length d) |}
  = {| o_data := d ++ bs; o_pos := N.of_nat (length (d ++ bs)) |}.
Proof.
  unfold o_write_raw; simpl. rewrite Nat2N.id, Nat.sub_diag. simpl.
  rewrite app_nil_r, take_ge by lia. rewrite drop_ge by lia.
  rewrite app_nil_r, length_app. f_equal. lia.
Qed.

Lemma length_le32 v : length (le32 v) = 4%nat.
Proof. reflexivity. Qed.

Lemma length_string_field s n : length (string_field s n) = n.
Proof.
  unfold string_field. rewrite length_app, length_replicate, length_take. lia.
Qed.

(** ** The layout plan *)

Lemma records_of_cons k fs dirs :
  records_of ((k, fs) :: dirs) = N.of_nat (length fs) + records_of dirs.
Proof. unfold records_of. csimpl. rewrite length_app. lia. Qed.

Lemma dir_step_fold dirs total offs cur :
  exists offs',
    foldl dir_step (total, offs, cur) dirs
    = (total + 48 * records_of dirs, offs', cur + 48 * records_of dirs)
    /\ (forall k, k ∉ dirs.*1 -> offs' !! k = offs !! k)
    /\ (forall k, k ∈ dirs.*1 -> is_Some (offs' !! k))
    /\ (forall i k fs, NoDup dirs.*1 -> dirs !! i = Some (k, fs) ->
          offs' !! k = Some (cur + 48 * records_of (take i dirs))).
Proof.
  revert total offs cur.
  induction dirs as [|[k0 fs0] dirs IH]; intros total offs cur.
  - exists offs. unfold records_of. csimpl. repeat split.
    + f_equal; [f_equal|]; lia.
    + intros k Hk. by apply elem_of_nil in Hk.
    + intros i k fs _ Hi. by rewrite lookup_nil in Hi.
  - change (foldl dir_step (total, offs, cur) ((k0, fs0) :: dirs))
      with (foldl dir_step (total + N.of_nat (length fs0) * file_entry_size,
                            <[k0 := cur]> offs,
                            cur + N.of_nat (length fs0) * file_entry_size) dirs).
    destruct (IH (total + N.of_nat (length fs0) * file_entry_size)
                 (<[k0 := cur]> offs)
                 (cur + N.of_nat (length fs0) * file_entry_size))
      as (offs' & Heq & Hout & Hsome & Hin).
    exists offs'. rewrite Heq, records_of_cons. unfold file_entry_size.
    csimpl. repeat split.
    + f_equal; [f_equal|]; lia.
    + intros k Hk. rewrite Hout.
      * apply lookup_insert_ne. intros ->. apply Hk. left.
      * intros Hk'. apply Hk. by right.
    + intros k Hk. destruct (decide (k ∈ dirs.*1)) as [Hk'|Hk']; [by apply Hsome|].
      rewrite Hout by done. apply elem_of_cons in Hk as [->|Hk]; [|done].
      rewrite lookup_insert_eq. by eexists.
    + intros i k fs Hnd Hi. apply NoDup_cons in Hnd as [Hk0 Hnd].
      destruct i as [|i]; csimpl in Hi.
      * injection Hi as -> ->. rewrite Hout by done.
        rewrite lookup_insert_eq. f_equal. unfold records_of. csimpl. lia.
      * rewrite (Hin i k fs Hnd Hi).
        change (take (S i) ((k0, fs0) :: dirs)) with ((k0, fs0) :: take i dirs).
        rewrite records_of_cons. unfold file_entry_size. f_equal. lia.
Qed.

Lemma layout_plan_no_file_offsets dirs infos :
  file_data_offsets (layout_plan dirs infos) = ∅.
Proof.
  unfold layout_plan.
  destruct (foldl _ (0, ∅, _) dirs) as [[tot offs] cur].
  match goal with
  | |- context [foldl ?f (∅, ?c) infos] =>
      assert (Hfold : forall l c', (foldl f (∅, c') l).1 = ∅)
  end.
  { induction l as [|x l IH]; intros c'; simpl; [done|apply IH]. }
  match goal with
  | |- context [foldl ?f (∅, ?c) infos] =>
      specialize (Hfold infos c); destruct (foldl f (∅, c) infos) as [fdo cdo]
  end.
  exact Hfold.
Qed.

Lemma layout_plan_dirs dirs infos :
  total_file_tables_size (layout_plan dirs infos) = 48 * records_of dirs
  /\ dir_table_size (layout_plan dirs infos) = N.of_nat (length dirs) * 40
  /\ (forall i k fs, NoDup dirs.*1 -> dirs !! i = Some (k, fs) ->
        dir_offsets (layout_plan dirs infos) !! k
        = Some (16 + 40 * N.of_nat (length dirs) + 48 * records_of (take i dirs)))
  /\ (forall k, k ∈ dirs.*1 ->
        is_Some (dir_offsets (layout_plan dirs infos) !! k)).
Proof.
  unfold layout_plan. fold dir_step.
  destruct (dir_step_fold dirs 0 ∅ (header_size + N.of_nat (length dirs) * dir_entry_size))
    as (offs' & Heq & _ & Hsome & Hin).
  rewrite Heq.
  destruct (foldl _ (∅, _) infos) as [fdo cdo]. cbn [total_file_tables_size
    dir_table_size dir_offsets].
  unfold header_size, dir_entry_size in *.
  repeat split.
  - intros i k fs Hnd Hi. rewrite (Hin i k fs Hnd Hi). f_equal. lia.
  - exact Hsome.
Qed.

(** ** Sorting *)

Section SortingFacts.
Context {A : Type} (leb : A -> A -> bool).
Let R : relation A := fun x y => leb x y = true.
Hypothesis leb_total : forall x y, leb x y = true \/ leb y x = true.
Hypothesis leb_trans : forall x y z, leb x y = true -> leb y z = true -> leb x z = true.

Lemma insert_sorted_perm x l : insert_sorted leb x l ≡ₚ x :: l.
Proof.
  induction l as [|y l IH]; simpl; [done|].
  destruct (leb x y); [done|]. rewrite IH. apply Permutation_swap.
Qed.

Lemma py_sorted_perm l : py_sorted leb l ≡ₚ l.
Proof.
  induction l as [|x l IH]; simpl; [done|].
  unfold py_sorted in *. simpl. rewrite insert_sorted_perm. by rewrite IH.
Qed.

Lemma insert_sorted_strongly x l :
  StronglySorted R l -> StronglySorted R (insert_sorted leb x l).
Proof.
  induction 1 as [|y l Hl IH Hy]; simpl.
  - repeat constructor.
  - destruct (leb x y) eqn:Hxy.
    + constructor; [by constructor|].
      constructor; [exact Hxy|].
      eapply Forall_impl; [exact Hy|]. intros z Hz. by eapply leb_trans.
    + constructor; [exact IH|].
      rewrite insert_sorted_perm. constructor; [|exact Hy].
      destruct (leb_total x y) as [Hc|Hc]; [congruence|exact Hc].
Qed.

Lemma py_sorted_strongly l : StronglySorted R (py_sorted leb l).
Proof.
  induction l as [|x l IH]; [constructor|].
  by apply insert_sorted_strongly.
Qed.

Hypothesis leb_antisym : forall x y, leb x y = true -> leb y x = true -> x = y.

(** The sorted list depends only on the elements, not on their order. *)
Lemma py_sorted_of_perm l1 l2 : l1 ≡ₚ l2 -> py_sorted leb l1 = py_sorted leb l2.
Proof.
  intros Hp.
  assert (AntiSymm (=) R) by (intros x y; apply leb_antisym).
  apply (StronglySorted_unique R); try apply py_sorted_strongly.
  by rewrite !py_sorted_perm.
Qed.
End SortingFacts.

(** The order of [str] values is a total order. *)
Lemma ascii_compare_lt_trans a b c :
  Ascii.compare a b = Lt -> Ascii.compare b c = Lt -> Ascii.compare a c = Lt.
Proof.
  unfold Ascii.compare. rewrite !N.compare_lt_iff. lia.
Qed.

Lemma string_compare_lt_trans s1 s2 s3 :
  String.compare s1 s2 = Lt -> String.compare s2 s3 = Lt -> String.compare s1 s3 = Lt.
Proof.
  revert s2 s3. induction s1 as [|a s1 IH]; intros [|b s2] [|c s3]; simpl; try done.
  destruct (Ascii.compare a b) eqn:Hab; try done;
    destruct (Ascii.compare b c) eqn:Hbc; try done.
  - apply Ascii.compare_eq_iff in Hab, Hbc. subst.
    rewrite (proj2 (N.compare_eq_iff _ _) eq_refl : Ascii.compare c c = Eq).
    apply IH.
  - apply Ascii.compare_eq_iff in Hab. subst. by rewrite Hbc.
  - apply Ascii.compare_eq_iff in Hbc. subst. by rewrite Hab.
  - by rewrite (ascii_compare_lt_trans a b c).
Qed.

Lemma string_compare_refl s : String.compare s s = Eq.
Proof.
  induction s as [|a s IH]; simpl; [done|].
  by rewrite (proj2 (N.compare_eq_iff _ _) eq_refl : Ascii.compare a a = Eq).
Qed.

Lemma string_leb_trans s1 s2 s3 :
  String.leb s1 s2 = true -> String.leb s2 s3 = true -> String.leb s1 s3 = true.
Proof.
  unfold String.leb.
  destruct (String.compare s1 s2) eqn:H12; try done;
    destruct (String.compare s2 s3) eqn:H23; try done; intros _ _.
  - apply String.compare_eq_iff in H12, H23. subst. by rewrite string_compare_refl.
  - apply String.compare_eq_iff in H12. subst. by rewrite H23.
  - apply String.compare_eq_iff in H23. subst. by rewrite H12.
  - by rewrite (string_compare_lt_trans s1 s2 s3).
Qed.

Lemma sorted_strings_of_perm (l1 l2 : list string) :
  l1 ≡ₚ l2 -> py_sorted String.leb l1 = py_sorted String.leb l2.
Proof.
  apply py_sorted_of_perm.
  - apply String.leb_total.
  - apply string_leb_trans.
  - apply String.leb_antisym.
Qed.

Lemma sorted_strings_perm (l : list string) : py_sorted String.leb l ≡ₚ l.
Proof. apply py_sorted_perm. Qed.

(** ** What [repack_pkr] writes *)

Lemma keeps_data_ret {A} (a : A) : keeps_data (ret a).
Proof. by intros f. Qed.

Lemma keeps_data_raise {A} e : keeps_data (@raise ostream A e).
Proof. by intros f. Qed.

Lemma keeps_data_bind {A B} (c : M ostream A) (k : A -> M ostream B) :
  keeps_data c -> (forall a, keeps_data (k a)) -> keeps_data (bind c k).
Proof.
  intros Hc Hk f. unfold bind. specialize (Hc f).
  destruct (c f) as [f1 [e|a]]; simpl in *; [done|].
  by rewrite Hk.
Qed.

Lemma keeps_data_for_each {A} (l : list A) (body : A -> M ostream unit) :
  (forall x, keeps_data (body x)) -> keeps_data (for_each l body).
Proof.
  intros Hb. induction l as [|x l IH]; simpl.
  - apply keeps_data_ret.
  - apply keeps_data_bind; [apply Hb|]. by intros _.
Qed.

Lemma keeps_data_seek p : keeps_data (o_seek p).
Proof. by intros f. Qed.

Lemma keeps_data_dict_get d key : keeps_data (dict_get d key).
Proof. intros f. unfold dict_get. by destruct (d !! key). Qed.

Lemma succeeds_ret {S A} (a : A) : succeeds (@ret S A a).
Proof. intros s. by exists s, a. Qed.

Lemma succeeds_bind {S A B} (c : M S A) (k : A -> M S B) :
  succeeds c -> (forall a, succeeds (k a)) -> succeeds (bind c k).
Proof.
  intros Hc Hk s. unfold bind. destruct (Hc s) as (s1 & a & ->). apply Hk.
Qed.

Lemma succeeds_for_each {S A} (l : list A) (body : A -> M S unit) :
  (forall x, x ∈ l -> succeeds (body x)) -> succeeds (for_each l body).
Proof.
  induction l as [|x l IH]; intros Hb; simpl.
  - apply succeeds_ret.
  - apply succeeds_bind; [apply Hb; left|].
    intros _. apply IH. intros y Hy. apply Hb. by right.
Qed.

Lemma succeeds_modify {S} (g : S -> S) : succeeds (modify g).
Proof. intros s. by exists (g s), tt. Qed.

Lemma o_write_at_end bs d : o_write bs (at_end d) = (at_end (d ++ bs), inr tt).
Proof. unfold o_write, modify, at_end. by rewrite o_write_raw_end. Qed.

Lemma write_header_at_end dirs fc d :
  write_header dirs fc (at_end d)
  = (at_end (d ++ header_bytes (N.of_nat (length dirs)) fc), inr tt).
Proof.
  unfold write_header, write32, bind, header_bytes.
  rewrite !o_write_at_end. by rewrite <- !app_assoc.
Qed.

Lemma write_dir_records_at_end offs (l : list (string * list string)) d :
  (forall k, k ∈ l.*1 -> is_Some (offs !! k)) ->
  for_each l (fun '(pkr_dir_name, filenames) =>
      let file_count := N.of_nat (length filenames) in
      let* offset := dict_get offs pkr_dir_name in
      write_string pkr_dir_name 32 >> write32 offset >> write32 file_count)
    (at_end d)
  = (at_end (d ++ dir_table_bytes offs l), inr tt).
Proof.
  revert d. induction l as [|[k fs] l IH]; intros d Hk.
  - unfold dir_table_bytes. csimpl. by rewrite app_nil_r.
  - cbn [for_each]. unfold bind at 1.
    destruct (Hk k) as [v Hv]; [left|].
    unfold dict_get at 1, bind at 1. rewrite Hv.
    unfold ret at 1, bind at 1, write_string, write32.
    rewrite o_write_at_end. unfold bind at 1. rewrite o_write_at_end.
    unfold bind at 1. rewrite o_write_at_end.
    rewrite IH.
    + unfold dir_table_bytes, dir_record_bytes. csimpl. rewrite Hv. csimpl.
      by rewrite <- !app_assoc.
    + intros k' Hk'. apply Hk. by right.
Qed.

Lemma write_dir_table_at_end dirs infos d :
  write_dir_table dirs infos (at_end d)
  = (at_end (d ++ dir_table_bytes (dir_offsets (layout_plan dirs infos)) dirs),
     inr tt).
Proof.
  apply write_dir_records_at_end.
  apply (layout_plan_dirs dirs infos).
Qed.

Lemma keeps_data_write_file_tables dirs infos :
  keeps_data (write_file_tables dirs infos).
Proof.
  unfold write_file_tables. rewrite layout_plan_no_file_offsets.
  apply keeps_data_for_each. intros [k fs].
  apply keeps_data_bind; [apply keeps_data_dict_get|]. intros offset.
  apply keeps_data_bind; [apply keeps_data_seek|]. intros _.
  apply keeps_data_for_each. intros file_name.
  destruct (find _ infos); [|apply keeps_data_ret].
  unfold dict_get. rewrite lookup_empty. by intros ?.
Qed.

(** With an empty [file_data_offsets] the payload loop stops at its first
    file, before anything is written. *)
Lemma keeps_data_write_file_data reread dirs infos :
  keeps_data (write_file_data reread dirs infos).
Proof.
  unfold write_file_data. rewrite layout_plan_no_file_offsets.
  apply keeps_data_bind; [apply keeps_data_seek|]. intros _.
  apply keeps_data_for_each. intros info.
  unfold dict_get. rewrite lookup_empty. by intros ?.
Qed.

Lemma emit_data reread dirs infos fc :
  o_data (emit reread dirs infos fc o_empty).1
  = header_bytes (N.of_nat (length dirs)) fc
    ++ dir_table_bytes (dir_offsets (layout_plan dirs infos)) dirs.
Proof.
  unfold emit, bind.
  change o_empty with (at_end []).
  rewrite write_header_at_end, write_dir_table_at_end.
  pose proof (keeps_data_write_file_tables dirs infos) as H1.
  pose proof (keeps_data_write_file_data reread dirs infos) as H2.
  match goal with |- context [write_file_tables dirs infos ?f] =>
    specialize (H1 f); destruct (write_file_tables dirs infos f) as [f1 [e|[]]]
  end; simpl in *; [done|].
  specialize (H2 f1).
  destruct (write_file_data reread dirs infos f1) as [f2 [e|[]]]; simpl in *;
    congruence.
Qed.

(** [emit] returns normally exactly when there is no file to pack. *)
Lemma emit_no_files reread dirs fc :
  exists f, emit reread dirs [] fc o_empty = (f, inr tt).
Proof.
  assert (succeeds (emit reread dirs [] fc)) as Hs.
  { unfold emit.
    apply succeeds_bind.
    { intros s. change (exists s' a, write_header dirs fc s = (s', inr a)).
      unfold write_header, write32, o_write, bind, modify. by eexists _, _. }
    intros ?; cbv beta. apply succeeds_bind.
    { unfold write_dir_table. apply succeeds_for_each. intros [k fs] Hk.
      destruct (proj2 (proj2 (proj2 (layout_plan_dirs dirs []))) k) as [v Hv].
      { apply list_elem_of_fmap. by exists (k, fs). }
      unfold dict_get. rewrite Hv. intros s.
      unfold write_string, write32, o_write, bind, modify, ret. by eexists _, _. }
    intros ?; cbv beta. apply succeeds_bind.
    { unfold write_file_tables. apply succeeds_for_each. intros [k fs] Hk.
      destruct (proj2 (proj2 (proj2 (layout_plan_dirs dirs []))) k) as [v Hv].
      { apply list_elem_of_fmap. by exists (k, fs). }
      unfold dict_get at 1. rewrite Hv.
      apply succeeds_bind; [apply succeeds_ret|]. intros ?; cbv beta.
      apply succeeds_bind; [apply succeeds_modify|]. intros ?; cbv beta.
      apply succeeds_for_each. intros x _. apply succeeds_ret. }
    intros ?; cbv beta. unfold write_file_data.
    apply succeeds_bind; [apply succeeds_modify|]. intros ?; cbv beta. apply succeeds_ret. }
  destruct (Hs o_empty) as (f & [] & Hf). by exists f.
Qed.

Lemma emit_with_files reread dirs info infos fc :
  exists f e, emit reread dirs (info :: infos) fc o_empty = (f, inl e).
Proof.
  unfold emit, bind.
  destruct (write_header dirs fc o_empty) as [f0 [e|[]]]; [by eexists _, _|].
  destruct (write_dir_table dirs (info :: infos) f0) as [f1 [e|[]]];
    [by eexists _, _|].
  destruct (write_file_tables dirs (info :: infos) f1) as [f2 [e|[]]];
    [by eexists _, _|].
  unfold write_file_data. rewrite layout_plan_no_file_offsets.
  unfold bind, o_seek, modify. cbn [for_each]. unfold bind, dict_get.
  rewrite lookup_empty. by eexists _, _.
Qed.

(** ** What the first pass collects *)

Lemma visit_spec base st it :
  visit base st it
  = {| temp_dirs :=
         <[item_key it := default [] (temp_dirs st !! item_key it)
                          ++ (item_files it).*1]> (temp_dirs st);
       all_files_info := all_files_info st ++ item_infos base it;
       total_file_count := total_file_count st + N.of_nat (length (item_files it)) |}.
Proof.
  unfold visit. fold (item_key it). fold (item_files it).
  set (k := item_key it). set (root := path_join_all base (w_root it)).
  set (td2 := <[k := _]> _).
  assert (td2 = <[k := default [] (temp_dirs st !! k) ++ (item_files it).*1]>
                  (temp_dirs st)) as ->.
  { unfold td2. destruct (temp_dirs st !! k) as [l|] eqn:Hk.
    - by rewrite Hk.
    - rewrite lookup_insert_eq. csimpl. by rewrite insert_insert_eq. }
  unfold item_infos. fold k. fold root.
  generalize (<[k := default [] (temp_dirs st !! k) ++ (item_files it).*1]>
                (temp_dirs st)) as td.
  generalize (all_files_info st) as infos, (total_file_count st) as n.
  induction (item_files it) as [|f fl IH]; intros n infos td; csimpl.
  - rewrite app_nil_r. f_equal. lia.
  - rewrite IH. f_equal.
    + by rewrite <- app_assoc.
    + lia.
Qed.

Lemma flat_names_cons it its :
  flat_names (it :: its)
  = ((fun f => (item_key it, f.1)) <$> item_files it) ++ flat_names its.
Proof. reflexivity. Qed.

Lemma names_for_cons k it its :
  names_for k (it :: its)
  = (if decide (item_key it = k) then (item_files it).*1 else []) ++ names_for k its.
Proof.
  unfold names_for. rewrite flat_names_cons, filter_app, fmap_app. f_equal.
  induction (item_files it) as [|f fl IH]; csimpl.
  - by destruct (decide _).
  - rewrite filter_cons. csimpl. destruct (decide (item_key it = k)); csimpl.
    + by rewrite IH.
    + exact IH.
Qed.

Lemma collect_fold base its st :
  let st' := foldl (visit base) st its in
  all_files_info st' = all_files_info st ++ (its ≫= item_infos base)
  /\ total_file_count st'
     = total_file_count st + N.of_nat (length (its ≫= item_infos base))
  /\ forall k,
       temp_dirs st' !! k
       = match temp_dirs st !! k with
         | Some l => Some (l ++ names_for k its)
         | None => if decide (k ∈ item_key <$> its)
                   then Some (names_for k its) else None
         end.
Proof.
  revert st. induction its as [|it its IH]; intros st.
  - csimpl. repeat split.
    + by rewrite app_nil_r.
    + lia.
    + intros k. destruct (temp_dirs st !! k); [by rewrite app_nil_r|done].
  - cbn [foldl]. destruct (IH (visit base st it)) as (Hi & Ht & Hd).
    cbv zeta in *. rewrite Hi, Ht. rewrite visit_spec in Hd |- *.
    cbn [all_files_info total_file_count temp_dirs] in *. csimpl. repeat split.
    + by rewrite <- app_assoc.
    + rewrite !length_app. unfold item_infos at 2. rewrite length_fmap. lia.
    + intros k. rewrite Hd. rewrite names_for_cons.
      destruct (decide (item_key it = k)) as [<-|Hne].
      * rewrite lookup_insert_eq.
        destruct (temp_dirs st !! item_key it).
        -- csimpl. by rewrite <- app_assoc.
        -- csimpl. rewrite decide_True by left. done.
      * rewrite lookup_insert_ne by done. csimpl.
        destruct (temp_dirs st !! k); [done|].
        destruct (decide (k ∈ item_key <$> its)) as [Hin|Hnin].
        -- rewrite decide_True by (by right). done.
        -- rewrite decide_False; [done|].
           intros Hc. apply elem_of_cons in Hc as [?|?]; congruence.
Qed.

Lemma collect_spec base t :
  let its := os_walk not_hidden [] t in
  let st := collect base t in
  all_files_info st = its ≫= item_infos base
  /\ total_file_count st = N.of_nat (length (its ≫= item_infos base))
  /\ forall k, temp_dirs st !! k
               = if decide (k ∈ item_key <$> its)
                 then Some (names_for k its) else None.
Proof.
  cbv zeta. unfold collect.
  destruct (collect_fold base (os_walk not_hidden [] t)
              {| temp_dirs := ∅; all_files_info := []; total_file_count := 0 |})
    as (Hi & Ht & Hd).
  cbv zeta in *. cbn [all_files_info total_file_count temp_dirs] in *.
  rewrite Hi, Ht. repeat split.
  intros k. rewrite Hd, lookup_empty. done.
Qed.

Lemma length_item_infos base its :
  length (its ≫= item_infos base) = length (flat_names its).
Proof.
  induction its as [|it its IH]; csimpl; [done|].
  rewrite !length_app, IH. unfold item_infos. by rewrite !length_fmap.
Qed.

Lemma dirs_to_pack_of_ext (td1 td2 : gmap string (list string)) :
  (forall k, is_Some (td1 !! k) <-> is_Some (td2 !! k)) ->
  (forall k, default [] (td1 !! k) ≡ₚ default [] (td2 !! k)) ->
  dirs_to_pack_of td1 = dirs_to_pack_of td2.
Proof.
  intros Hdom Hval. unfold dirs_to_pack_of.
  assert ((map_to_list td1).*1 ≡ₚ (map_to_list td2).*1) as Hkeys.
  { apply NoDup_Permutation; try apply NoDup_fst_map_to_list.
    intros k. rewrite !list_elem_of_fmap. split.
    - intros ([k' v] & -> & Hin). apply elem_of_map_to_list in Hin.
      destruct (proj1 (Hdom k')) as [v' Hv']; [by eexists|].
      exists (k', v'). split; [done|]. by apply elem_of_map_to_list.
    - intros ([k' v] & -> & Hin). apply elem_of_map_to_list in Hin.
      destruct (proj2 (Hdom k')) as [v' Hv']; [by eexists|].
      exists (k', v'). split; [done|]. by apply elem_of_map_to_list. }
  rewrite (sorted_strings_of_perm _ _ Hkeys).
  apply list_fmap_ext. intros _ k _. f_equal.
  apply sorted_strings_of_perm, Hval.
Qed.

Lemma dirs_to_pack_of_keys (td : gmap string (list string)) :
  (dirs_to_pack_of td).*1 ≡ₚ (map_to_list td).*1.
Proof.
  unfold dirs_to_pack_of. rewrite <- list_fmap_compose.
  rewrite (list_fmap_ext _ id) by done.
  rewrite list_fmap_id. apply sorted_strings_perm.
Qed.

Lemma dirs_to_pack_of_NoDup (td : gmap string (list string)) :
  NoDup (dirs_to_pack_of td).*1.
Proof. rewrite dirs_to_pack_of_keys. apply NoDup_fst_map_to_list. Qed.

Lemma py_sorted_nil_iff {A} (leb : A -> A -> bool) l : py_sorted leb l = [] <-> l = [].
Proof.
  split; [|by intros ->].
  intros Hs. apply Permutation_nil_r. rewrite <- Hs. by rewrite py_sorted_perm.
Qed.

(** The whole of [repack_pkr]: the output file holds the header and the
    directory table, and the call returns [True] exactly when no file was
    collected. *)
Lemma repack_pkr_spec reread input_dir t :
  let st := collect input_dir t in
  let dirs := dirs_to_pack_of (temp_dirs st) in
  let infos := py_sorted info_key_leb (all_files_info st) in
  repack_pkr reread true input_dir t
  = (bool_decide (all_files_info st = []),
     Some (header_bytes (N.of_nat (length dirs)) (total_file_count st)
           ++ dir_table_bytes (dir_offsets (layout_plan dirs infos)) dirs)).
Proof.
  cbv zeta. unfold repack_pkr.
  pose proof (emit_data reread (dirs_to_pack_of (temp_dirs (collect input_dir t)))
                (py_sorted info_key_leb (all_files_info (collect input_dir t)))
                (total_file_count (collect input_dir t))) as Hdata.
  destruct (all_files_info (collect input_dir t)) as [|info infos] eqn:Hinfos.
  - change (py_sorted info_key_leb []) with (@nil file_info) in *.
    destruct (emit_no_files reread (dirs_to_pack_of (temp_dirs (collect input_dir t)))
                (total_file_count (collect input_dir t))) as [f Hf].
    rewrite Hf in *. simpl in Hdata. by rewrite Hdata.
  - destruct (py_sorted info_key_leb (info :: infos)) as [|i' is'] eqn:Hs.
    { apply py_sorted_nil_iff in Hs. done. }
    destruct (emit_with_files reread (dirs_to_pack_of (temp_dirs (collect input_dir t)))
                i' is' (total_file_count (collect input_dir t))) as (f & e & Hf).
    rewrite Hf in *. simpl in Hdata. by rewrite Hdata.
Qed.

(** ** Trees that differ only by the enumeration order *)

Lemma os_walk_dir keep root es :
  os_walk keep root (Dir es)
  = {| w_root := root; w_dirnames := dirnames_of es; w_files := files_of es |}
    :: walk_entries keep root es.
Proof. reflexivity. Qed.

Lemma walk_entries_cons keep root n c l :
  walk_entries keep root ((n, c) :: l)
  = (if keep n then os_walk keep (root ++ [n]) c else [])
    ++ walk_entries keep root l.
Proof.
  change (walk_entries keep root ((n, c) :: l))
    with ((match c with
           | Dir _ => if keep n then os_walk keep (root ++ [n]) c else []
           | File _ => []
           end) ++ walk_entries keep root l).
  f_equal. destruct c; [by destruct (keep n)|done].
Qed.

Lemma walk_sim_refl its : walk_sim its its.
Proof. by split. Qed.

Lemma walk_sim_trans its1 its2 its3 :
  walk_sim its1 its2 -> walk_sim its2 its3 -> walk_sim its1 its3.
Proof. intros [H1 H2] [H3 H4]. split; by etrans. Qed.

Lemma flat_names_app its1 its2 :
  flat_names (its1 ++ its2) = flat_names its1 ++ flat_names its2.
Proof. unfold flat_names. apply bind_app. Qed.

Lemma walk_sim_app a1 a2 b1 b2 :
  walk_sim a1 a2 -> walk_sim b1 b2 -> walk_sim (a1 ++ b1) (a2 ++ b2).
Proof.
  intros [H1 H2] [H3 H4]. split.
  - rewrite !fmap_app. by f_equiv.
  - rewrite !flat_names_app. by f_equiv.
Qed.

Lemma walk_sim_app_comm a b : walk_sim (a ++ b) (b ++ a).
Proof.
  split.
  - rewrite !fmap_app. apply Permutation_app_comm.
  - rewrite !flat_names_app. apply Permutation_app_comm.
Qed.

Lemma files_of_cons e l : files_of (e :: l) = files_of [e] ++ files_of l.
Proof. unfold files_of. csimpl. by destruct e as [n [c|es]]. Qed.

Lemma walk_of_tree_perm keep :
  (forall t1 t2, tree_perm t1 t2 ->
     (forall n, files_of [(n, t1)] = files_of [(n, t2)])
     /\ forall root, walk_sim (os_walk keep root t1) (os_walk keep root t2))
  /\ (forall es1 es2, entries_perm es1 es2 ->
        files_of es1 ≡ₚ files_of es2
        /\ forall root, walk_sim (walk_entries keep root es1)
                                 (walk_entries keep root es2)).
Proof.
  apply tree_entries_perm_ind.
  - intros t. split; [done|]. intros root. apply walk_sim_refl.
  - intros es1 es2 _ [Hf Hw]. split; [done|]. intros root.
    rewrite !os_walk_dir. destruct (Hw root) as [Hk Hn]. split.
    + csimpl. by f_equiv.
    + rewrite !flat_names_cons. f_equiv; [|done].
      unfold item_files, item_key. cbn [w_files w_root].
      by rewrite Hf.
  - split; [done|]. intros root. apply walk_sim_refl.
  - intros n t1 t2 l1 l2 _ [Hk Ht] _ [Hf Hl]. split.
    + rewrite (files_of_cons (n, t1)), (files_of_cons (n, t2)).
      rewrite Hk. by f_equiv.
    + intros root. rewrite !walk_entries_cons. apply walk_sim_app; [|done].
      destruct (keep n); [done|apply walk_sim_refl].
  - intros [n1 c1] [n2 c2] l. split.
    + unfold files_of. csimpl.
      destruct c1, c2; csimpl; try done. apply Permutation_swap.
    + intros root. rewrite !walk_entries_cons, !app_assoc.
      apply walk_sim_app; [apply walk_sim_app_comm|apply walk_sim_refl].
  - intros l1 l2 l3 _ [Hf1 Hw1] _ [Hf2 Hw2]. split; [by etrans|].
    intros root. by eapply walk_sim_trans.
Qed.

Lemma dir_offsets_indep dirs infos infos' :
  dir_offsets (layout_plan dirs infos) = dir_offsets (layout_plan dirs infos').
Proof.
  unfold layout_plan.
  destruct (foldl _ (0, ∅, _) dirs) as [[tot offs] cur].
  by destruct (foldl _ (∅, _) infos), (foldl _ (∅, _) infos').
Qed.

Lemma names_for_perm k its1 its2 :
  flat_names its1 ≡ₚ flat_names its2 -> names_for k its1 ≡ₚ names_for k its2.
Proof. intros Hp. unfold names_for. by rewrite Hp. Qed.

Lemma collect_of_tree_perm input_dir t1 t2 :
  tree_perm t1 t2 ->
  dirs_to_pack_of (temp_dirs (collect input_dir t1))
  = dirs_to_pack_of (temp_dirs (collect input_dir t2))
  /\ total_file_count (collect input_dir t1) = total_file_count (collect input_dir t2)
  /\ (all_files_info (collect input_dir t1) = []
      <-> all_files_info (collect input_dir t2) = []).
Proof.
  intros Hp.
  destruct (proj2 (proj1 (walk_of_tree_perm not_hidden) t1 t2 Hp) []) as [Hk Hn].
  destruct (collect_spec input_dir t1) as (Hi1 & Ht1 & Hd1).
  destruct (collect_spec input_dir t2) as (Hi2 & Ht2 & Hd2).
  cbv zeta in *.
  assert (length (os_walk not_hidden [] t1 ≫= item_infos input_dir)
          = length (os_walk not_hidden [] t2 ≫= item_infos input_dir)) as Hlen.
  { rewrite !length_item_infos. by rewrite Hn. }
  repeat split.
  - apply dirs_to_pack_of_ext.
    + intros k. rewrite Hd1, Hd2.
      destruct (decide (k ∈ item_key <$> os_walk not_hidden [] t1)) as [H1|H1];
        destruct (decide (k ∈ item_key <$> os_walk not_hidden [] t2)) as [H2|H2];
        try done; exfalso.
      * apply H2. by rewrite <- Hk.
      * apply H1. by rewrite Hk.
    + intros k. rewrite Hd1, Hd2.
      destruct (decide (k ∈ item_key <$> os_walk not_hidden [] t1)) as [H1|H1];
        destruct (decide (k ∈ item_key <$> os_walk not_hidden [] t2)) as [H2|H2];
        csimpl; try done.
      * by apply names_for_perm.
      * exfalso. apply H2. by rewrite <- Hk.
      * exfalso. apply H1. by rewrite Hk.
  - rewrite Ht1, Ht2. by rewrite Hlen.
  - rewrite Hi1, Hi2. intros H0. apply length_zero_iff_nil.
    rewrite <- Hlen, H0. done.
  - rewrite Hi1, Hi2. intros H0. apply length_zero_iff_nil.
    rewrite Hlen, H0. done.
Qed.

(** C5: two runs of [repack_pkr] on the same tree write the same bytes
    and return the same value, whatever the order in which the filesystem
    enumerates the entries of each directory: the result on a tree and on
    the same tree enumerated in any other order are equal. *)
Theorem repack_pkr_order_independent reread can_open input_dir t1 t2 :
  tree_perm t1 t2 ->
  repack_pkr reread can_open input_dir t1 = repack_pkr reread can_open input_dir t2.
Proof.
  intros Hp. destruct can_open; [|reflexivity].
  rewrite !repack_pkr_spec. cbv zeta.
  destruct (collect_of_tree_perm input_dir t1 t2 Hp) as (Hd & Ht & He).
  rewrite Hd, Ht.
  rewrite (dir_offsets_indep _ _
             (py_sorted info_key_leb (all_files_info (collect input_dir t2)))).
  f_equal. apply bool_decide_ext. exact He.
Qed.

Lemma repack_pkr_order_independent_witness :
  tree_perm tree_audio tree_audio_reordered
  /\ repack_pkr (reread_tree "in" tree_audio) true "in" tree_audio
     = repack_pkr (reread_tree "in" tree_audio) true "in" tree_audio_reordered.
Proof.
  assert (tree_perm tree_audio tree_audio_reordered) as Hp.
  { apply tp_dir. apply ep_skip; [|apply ep_nil]. apply tp_dir. apply ep_swap. }
  split; [exact Hp|].
  exact (repack_pkr_order_independent _ true "in" _ _ Hp).
Defined.

(** ** Trees with files *)

Lemma has_file_in_cons n c l :
  has_file_in ((n, c) :: l)
  = (not_hidden n && match c with File _ => true | Dir _ => has_file c end)
    || has_file_in l.
Proof. reflexivity. Qed.

Lemma flat_names_nil_iff its :
  flat_names its = [] <-> Forall (fun it => item_files it = []) its.
Proof.
  induction its as [|it its IH].
  - split; [constructor|done].
  - rewrite flat_names_cons. split.
    + intros H. apply app_eq_nil in H as [H1 H2].
      constructor; [|by apply IH].
      by apply fmap_nil_inv in H1.
    + intros H. apply Forall_cons in H as [H1 H2].
      rewrite H1. csimpl. by apply IH.
Qed.

Lemma has_file_in_walk es :
  Forall (fun e => forall root,
            flat_names (os_walk not_hidden root e.2) = [] <-> has_file e.2 = false) es ->
  forall root,
    filter (fun f => not_hidden f.1 = true) (files_of es) = []
    /\ flat_names (walk_entries not_hidden root es) = []
    <-> has_file_in es = false.
Proof.
  intros IH root. induction es as [|[n c] es IHes].
  - done.
  - apply Forall_cons in IH as [IHc IH]. specialize (IHes IH).
    rewrite files_of_cons, filter_app, walk_entries_cons, flat_names_app,
      has_file_in_cons.
    rewrite orb_false_iff, <- IHes. clear IHes. rewrite !app_nil.
    cbn [snd] in IHc. specialize (IHc (root ++ [n])).
    destruct (not_hidden n) eqn:Hn; cbn [andb]; destruct c as [c|es'].
    + unfold files_of. csimpl. rewrite filter_cons. csimpl.
      rewrite decide_True by done. intuition (discriminate || congruence).
    + change (files_of [(n, Dir es')]) with (@nil (string * N)).
      rewrite filter_nil, IHc. intuition (discriminate || congruence).
    + unfold files_of. csimpl. rewrite filter_cons. csimpl.
      rewrite decide_False by congruence. intuition (discriminate || congruence).
    + change (files_of [(n, Dir es')]) with (@nil (string * N)).
      rewrite filter_nil. intuition (discriminate || congruence).
Qed.

Lemma has_file_flat_names t :
  forall root, flat_names (os_walk not_hidden root t) = [] <-> has_file t = false.
Proof.
  induction t as [c|es IH] using node_ind'; intros root.
  - done.
  - rewrite os_walk_dir, flat_names_cons, app_nil.
    rewrite <- (has_file_in_walk es IH root).
    unfold item_files. cbn [w_files]. split.
    + intros [H1 H2]. split; [|done]. by apply fmap_nil_inv in H1.
    + intros [H1 H2]. split; [|done]. by rewrite H1.
Qed.

Lemma collect_no_files input_dir t :
  all_files_info (collect input_dir t) = [] <-> has_file t = false.
Proof.
  destruct (collect_spec input_dir t) as (Hi & _ & _). cbv zeta in Hi.
  rewrite Hi, <- (has_file_flat_names t []).
  rewrite <- !length_zero_iff_nil. by rewrite length_item_infos.
Qed.

(** On the tree with one file the call returns [False]. *)
Example repack_one_file_fails :
  has_file tree_one_file = true /\ (repack_tree "in" tree_one_file).1 = false.
Proof. split; vm_compute; reflexivity. Qed.

(** C1: whenever the output file can be opened, [repack_pkr] returns
    [True] exactly when the tree has no file to pack; for every tree with
    a file that is not hidden it returns [False]. *)
Theorem repack_pkr_returns reread input_dir t :
  (repack_pkr reread true input_dir t).1 = negb (has_file t).
Proof.
  rewrite repack_pkr_spec. cbv zeta. cbn [fst].
  destruct (has_file t) eqn:Hf; cbn [negb].
  - apply bool_decide_eq_false. rewrite collect_no_files. congruence.
  - apply bool_decide_eq_true. by rewrite collect_no_files.
Qed.

(** C2: the four writes that make a file-table record put 44 bytes in
    the file, the name, the marker and the size twice, with no payload
    offset between the marker and the sizes; and on a tree with one file
    the archive ends after the directory table, no record being written. *)
Theorem write_file_entry_bytes file_name file_size d :
  write_file_entry file_name file_size (at_end d)
  = (at_end (d ++ string_field file_name 32 ++ le32 0xFFFFFFFE
               ++ le32 file_size ++ le32 file_size), inr tt)
  /\ length (string_field file_name 32 ++ le32 0xFFFFFFFE
             ++ le32 file_size ++ le32 file_size) = 44%nat
  /\ repack_tree "in" tree_one_file
     = (false, Some (header_bytes 1 1 ++ string_field "/" 32 ++ le32 56 ++ le32 1)).
Proof.
  split; [|split].
  - unfold write_file_entry, write_string, write32, bind.
    rewrite !o_write_at_end. by rewrite <- !app_assoc.
  - rewrite !length_app, length_string_field, !length_le32. done.
  - vm_compute. reflexivity.
Qed.

(** C4: in the layout computed for a tree, the file table of the
    directory at rank [i] of the sorted directories starts at 16, plus 40
    for each directory, plus 48 for each file of the directories before
    it; but no file is given a payload offset: [file_data_offsets] is
    empty. *)
Theorem layout_plan_of_tree input_dir t :
  let st := collect input_dir t in
  let dirs := dirs_to_pack_of (temp_dirs st) in
  let lay := layout_plan dirs (py_sorted info_key_leb (all_files_info st)) in
  (forall i k fs, dirs !! i = Some (k, fs) ->
     dir_offsets lay !! k
     = Some (16 + 40 * N.of_nat (length dirs) + 48 * records_of (take i dirs)))
  /\ (forall file_key, file_data_offsets lay !! file_key = None).
Proof.
  cbv zeta. split.
  - intros i k fs Hi.
    apply (proj1 (proj2 (proj2 (layout_plan_dirs _ _))) i k fs); [|done].
    apply dirs_to_pack_of_NoDup.
  - intros key. by rewrite layout_plan_no_file_offsets.
Qed.

Lemma layout_plan_of_tree_witness :
  let dirs := dirs_to_pack_of (temp_dirs (collect "in" tree_audio)) in
  let lay := layout_plan dirs
               (py_sorted info_key_leb (all_files_info (collect "in" tree_audio))) in
  dirs !! 1%nat = Some ("audio/"%string, ["a.bin"; "b.bin"]%string)
  /\ dir_offsets lay !! "audio/"%string = Some 96
  /\ file_data_offsets lay !! "audio/a.bin"%string = None.
Proof.
  cbv zeta.
  assert (dirs_to_pack_of (temp_dirs (collect "in" tree_audio)) !! 1%nat
          = Some ("audio/"%string, ["a.bin"; "b.bin"]%string)) as Hi
    by (vm_compute; reflexivity).
  split; [exact Hi|].
  destruct (layout_plan_of_tree "in" tree_audio) as [Hd Hf]. split.
  - rewrite (Hd 1%nat _ _ Hi). vm_compute. reflexivity.
  - apply Hf.
Defined.

(** ** Reading the archive *)

Lemma length_slice (data : bytes) pos n :
  length (slice data pos n)
  = N.to_nat (N.min n (N.of_nat (length data) - pos)).
Proof.
  unfold slice. destruct (N.leb_spec (N.of_nat (length data)) pos) as [Hle|Hlt].
  - simpl. lia.
  - rewrite length_take, length_drop. lia.
Qed.

Lemma slice_full (data : bytes) pos n :
  pos + n <= N.of_nat (length data) ->
  slice data pos n = take (N.to_nat n) (drop (N.to_nat pos) data).
Proof.
  intros Hle. unfold slice.
  destruct (N.leb_spec (N.of_nat (length data)) pos) as [Hle'|Hlt].
  - assert (n = 0) as -> by lia. by rewrite take_0.
  - f_equal. lia.
Qed.

(** The bytes of a field found in the middle of the data. *)
Lemma slice_app (pre a post : bytes) :
  slice (pre ++ a ++ post) (N.of_nat (length pre)) (N.of_nat (length a)) = a.
Proof.
  rewrite slice_full by (rewrite !length_app; lia).
  rewrite !Nat2N.id, drop_app_length, take_app_length. done.
Qed.

Lemma byte_of_N_to_N b : byte_of_N (Byte.to_N b) = b.
Proof.
  unfold byte_of_N. pose proof (Byte.to_N_bounded b).
  rewrite N.mod_small by lia. by rewrite Byte.of_to_N.
Qed.

Lemma to_N_byte_of_N n : Byte.to_N (byte_of_N n) = n mod 256.
Proof.
  unfold byte_of_N. assert (n mod 256 < 256) as Hlt by (apply N.mod_lt; lia).
  destruct (Byte.of_N (n mod 256)) as [b|] eqn:Hb.
  - by apply Byte.to_of_N in Hb.
  - apply Byte.of_N_None_iff in Hb. lia.
Qed.

Lemma le32_decode_le32 v :
  match le32 v with
  | [b0; b1; b2; b3] => le32_decode b0 b1 b2 b3
  | _ => 0
  end = v mod 2 ^ 32.
Proof.
  unfold le32, le32_decode. rewrite !to_N_byte_of_N.
  change (2 ^ 8) with 256. change (2 ^ 16) with (256 * 256).
  change (2 ^ 24) with (256 * 256 * 256).
  change (2 ^ 32) with (256 * (256 * (256 * 256))).
  rewrite <- !N.Div0.div_div.
  rewrite !(N.Div0.mod_mul_r _ 256). lia.
Qed.

Lemma u32_at_app (pre post : bytes) v :
  u32_at (pre ++ le32 v ++ post) (N.of_nat (length pre)) = v mod 2 ^ 32.
Proof.
  unfold u32_at. pose proof (slice_app pre (le32 v) post) as Hs.
  change (N.of_nat (length (le32 v))) with 4 in Hs. rewrite Hs.
  apply le32_decode_le32.
Qed.

Lemma str_at_app (pre a post : bytes) :
  str_at (pre ++ a ++ post) (N.of_nat (length pre)) (length a)
  = string_of_list_byte (until_null a).
Proof. unfold str_at. by rewrite slice_app. Qed.

Section ExtractFacts.
Context {FS : Type} `{FileSystem FS}.
Variable data : bytes.

Lemma read32_ok (st : xstate FS) :
  x_pos st + 4 <= N.of_nat (length data) ->
  read32 data st = (st_at (x_pos st + 4) st, inr (u32_at data (x_pos st))).
Proof.
  intros Hle. unfold read32, bind, f_read, u32_at.
  pose proof (length_slice data (x_pos st) 4) as Hlen.
  destruct (slice data (x_pos st) 4) as [|b0 [|b1 [|b2 [|b3 [|b4 l]]]]];
    simpl in Hlen; try lia.
  reflexivity.
Qed.

Lemma read32_fail (st : xstate FS) :
  N.of_nat (length data) < x_pos st + 4 ->
  exists p, read32 data st = (st_at p st, inl StructError).
Proof.
  intros Hlt. unfold read32, bind, f_read.
  pose proof (length_slice data (x_pos st) 4) as Hlen.
  destruct (slice data (x_pos st) 4) as [|b0 [|b1 [|b2 [|b3 [|b4 l]]]]];
    simpl in Hlen; try lia; by eexists.
Qed.

Lemma read_string_ok n (st : xstate FS) :
  x_pos st + N.of_nat n <= N.of_nat (length data) ->
  read_string data n st
  = (st_at (x_pos st + N.of_nat n) st, inr (str_at data (x_pos st) n)).
Proof.
  intros Hle. unfold read_string, bind, f_read, str_at.
  pose proof (length_slice data (x_pos st) (N.of_nat n)) as Hlen.
  destruct (Nat.ltb_spec (length (slice data (x_pos st) (N.of_nat n))) n); [lia|].
  unfold ret, st_at. do 3 f_equal. lia.
Qed.

Lemma read_string_fail n (st : xstate FS) :
  (0 < n)%nat ->
  N.of_nat (length data) < x_pos st + N.of_nat n ->
  exists p, read_string data n st = (st_at p st, inl StructError).
Proof.
  intros Hn Hlt. unfold read_string, bind, f_read.
  pose proof (length_slice data (x_pos st) (N.of_nat n)) as Hlen.
  destruct (Nat.ltb_spec (length (slice data (x_pos st) (N.of_nat n))) n) as [?|Hge].
  - by eexists.
  - exfalso. rewrite Hlen in Hge. lia.
Qed.

Lemma when_warn (b : bool) w (st : xstate FS) :
  when b (warn w) st
  = ({| x_pos := x_pos st; x_fs := x_fs st;
        x_log := x_log st ++ (if b then [w] else []) |}, inr tt).
Proof.
  destruct b; [reflexivity|]. unfold when, ret. rewrite app_nil_r.
  by destruct st.
Qed.

Lemma write_payload_spec path size1 (st : xstate FS) :
  write_payload data path size1 st
  = (match open_wb path (x_fs st) with
     | Some fs1 =>
         let bs := slice data (x_pos st) size1 in
         {| x_pos := x_pos st + N.of_nat (length bs);
            x_fs := fs_write path bs fs1;
            x_log := x_log st
                     ++ (if N.of_nat (length bs) =? size1 then []
                         else [ShortRead (N.of_nat (length bs)) size1 path]) |}
     | None =>
         {| x_pos := x_pos st; x_fs := x_fs st;
            x_log := x_log st ++ [ErrorWritingFile path] |}
     end, inr tt).
Proof.
  unfold write_payload. destruct (open_wb path (x_fs st)) as [fs1|]; [|reflexivity].
  unfold bind at 1. unfold f_read at 1. cbn [x_pos x_fs x_log].
  unfold bind at 1. rewrite when_warn. cbn [x_pos x_fs x_log]. unfold modify.
  cbn [x_pos x_fs x_log]. cbv zeta.
  by destruct (N.of_nat (length (slice data (x_pos st) size1)) =? size1).
Qed.

Lemma extract_file_entry_ok name dir j (st : xstate FS) :
  x_pos st + 48 <= N.of_nat (length data) ->
  extract_file_entry data name dir j st = (entry_result data name dir st, inr tt).
Proof.
  intros Hle. unfold extract_file_entry.
  unfold bind at 1. rewrite read_string_ok by (simpl; lia).
  unfold bind at 1. rewrite read32_ok by (simpl; lia).
  unfold bind at 1. rewrite when_warn.
  unfold bind at 1. rewrite read32_ok by (simpl; lia).
  unfold bind at 1. rewrite read32_ok by (simpl; lia).
  unfold bind at 1. rewrite read32_ok by (simpl; lia).
  unfold bind at 1. rewrite when_warn.
  unfold bind at 1. unfold f_tell at 1.
  unfold bind at 1. unfold f_seek at 1, modify at 1.
  unfold bind at 1. rewrite write_payload_spec.
  unfold f_seek, modify. cbn [x_pos st_at x_fs x_log].
  change (N.of_nat 32) with 32.
  replace (x_pos st + 32 + 4) with (x_pos st + 36) by lia.
  replace (x_pos st + 36 + 4) with (x_pos st + 40) by lia.
  replace (x_pos st + 40 + 4) with (x_pos st + 44) by lia.
  replace (x_pos st + 44 + 4) with (x_pos st + 48) by lia.
  fold (fe_name data (x_pos st)) (fe_unk1 data (x_pos st)) (fe_offset data (x_pos st))
    (fe_size1 data (x_pos st)) (fe_size2 data (x_pos st)).
  unfold entry_result, entry_fs, entry_warnings. cbv zeta.
  destruct (open_wb _ (x_fs st)) as [fs1|]; cbn [x_pos x_fs x_log];
    destruct (fe_unk1 data (x_pos st) =? 4294967294);
    destruct (fe_size1 data (x_pos st) =? fe_size2 data (x_pos st)); cbn [negb];
    rewrite <- ?app_assoc; reflexivity.
Qed.

(** Short of 48 bytes for the record, one of the field reads raises. *)
Lemma extract_file_entry_short name dir j (st : xstate FS) :
  N.of_nat (length data) < x_pos st + 48 ->
  exists st', extract_file_entry data name dir j st = (st', inl StructError).
Proof.
  intros Hlt. unfold extract_file_entry.
  unfold bind at 1.
  destruct (N.le_gt_cases (x_pos st + 32) (N.of_nat (length data))) as [H1|H1];
    [|destruct (read_string_fail 32 st) as [p ->]; [lia|simpl; lia|by eexists]].
  rewrite read_string_ok by (simpl; lia).
  unfold bind at 1.
  match goal with |- context [read32 data ?s] => set (s1 := s) end.
  destruct (N.le_gt_cases (x_pos s1 + 4) (N.of_nat (length data))) as [H2|H2];
    [|destruct (read32_fail s1 H2) as [p ->]; by eexists].
  rewrite read32_ok by done.
  unfold bind at 1. rewrite when_warn.
  unfold bind at 1.
  match goal with |- context [read32 data ?s] => set (s2 := s) end.
  destruct (N.le_gt_cases (x_pos s2 + 4) (N.of_nat (length data))) as [H3|H3];
    [|destruct (read32_fail s2 H3) as [p ->]; by eexists].
  rewrite read32_ok by done.
  unfold bind at 1.
  match goal with |- context [read32 data ?s] => set (s3 := s) end.
  destruct (N.le_gt_cases (x_pos s3 + 4) (N.of_nat (length data))) as [H4|H4];
    [|destruct (read32_fail s3 H4) as [p ->]; by eexists].
  rewrite read32_ok by done.
  unfold bind at 1.
  match goal with |- context [read32 data ?s] => set (s4 := s) end.
  destruct (N.le_gt_cases (x_pos s4 + 4) (N.of_nat (length data))) as [H5|H5];
    [|destruct (read32_fail s4 H5) as [p ->]; by eexists].
  exfalso. subst s1 s2 s3 s4. cbn [x_pos st_at] in *. lia.
Qed.
End ExtractFacts.

Section FileTable.
Context {FS : Type} `{FileSystem FS}.
Variable data : bytes.
Variables name dir : string.

(** Running the loop body over any list of indices moves the stream 48
    bytes per record, or stops on a short table. *)
Lemma for_each_entries (js : list nat) (st : xstate FS) :
  match for_each js (extract_file_entry data name dir) st with
  | (st', inr _) => x_pos st' = x_pos st + 48 * N.of_nat (length js)
  | (st', inl e) =>
      e = StructError
      /\ N.of_nat (length data) < x_pos st + 48 * N.of_nat (length js)
  end.
Proof.
  revert st. induction js as [|j js IH]; intros st.
  - simpl. lia.
  - cbn [for_each]. unfold bind.
    destruct (N.le_gt_cases (x_pos st + 48) (N.of_nat (length data))) as [Hle|Hgt].
    + rewrite extract_file_entry_ok by done.
      pose proof (IH (entry_result data name dir st)) as IH'.
      destruct (for_each js (extract_file_entry data name dir)
                  (entry_result data name dir st)) as [st' [e|[]]];
        cbn [x_pos entry_result] in IH'; simpl length.
      * destruct IH' as [-> IH']. split; [done|lia].
      * lia.
    + destruct (extract_file_entry_short data name dir j st Hgt) as [st' ->].
      split; [done|]. simpl length. lia.
Qed.

Lemma for_range_split (j k : nat) (st : xstate FS) :
  for_range (j + k) (extract_file_entry data name dir) st
  = (for_range j (extract_file_entry data name dir)
     >> for_each (seq j k) (extract_file_entry data name dir)) st.
Proof. unfold for_range. rewrite seq_app. apply for_each_app. Qed.

(** The fields of a record laid out in the data. *)
Lemma fields_at pre namef unk1 off s1 s2 post :
  data = pre ++ namef ++ le32 unk1 ++ le32 off ++ le32 s1 ++ le32 s2 ++ post ->
  length namef = 32%nat ->
  let pos := N.of_nat (length pre) in
  pos + 48 <= N.of_nat (length data)
  /\ fe_name data pos = string_of_list_byte (until_null namef)
  /\ fe_unk1 data pos = unk1 mod 2 ^ 32
  /\ fe_offset data pos = off mod 2 ^ 32
  /\ fe_size1 data pos = s1 mod 2 ^ 32
  /\ fe_size2 data pos = s2 mod 2 ^ 32.
Proof.
  intros -> Hn pos. unfold fe_name, fe_unk1, fe_offset, fe_size1, fe_size2.
  split; [|split; [|split; [|split; [|split]]]].
  - rewrite !length_app, !length_le32. lia.
  - change 32%nat with (length namef) at 1 || rewrite <- Hn.
    apply str_at_app.
  - replace (pos + 32) with (N.of_nat (length (pre ++ namef)))
      by (rewrite length_app; lia).
    rewrite (app_assoc pre namef). apply u32_at_app.
  - replace (pos + 36) with (N.of_nat (length (pre ++ namef ++ le32 unk1)))
      by (rewrite !length_app, length_le32; lia).
    rewrite (app_assoc namef), (app_assoc pre). apply u32_at_app.
  - replace (pos + 40)
      with (N.of_nat (length (pre ++ namef ++ le32 unk1 ++ le32 off)))
      by (rewrite !length_app, !length_le32; lia).
    rewrite (app_assoc (le32 unk1)), (app_assoc namef), (app_assoc pre).
    apply u32_at_app.
  - replace (pos + 44)
      with (N.of_nat (length (pre ++ namef ++ le32 unk1 ++ le32 off ++ le32 s1)))
      by (rewrite !length_app, !length_le32; lia).
    rewrite (app_assoc (le32 off)), (app_assoc (le32 unk1)),
      (app_assoc namef), (app_assoc pre).
    apply (u32_at_app _ []) || apply u32_at_app.
Qed.
End FileTable.

Section FileEntryClaims.
Context {FS : Type} `{FileSystem FS}.

(** C6: for a file-table record holding the name field [namef], the
    marker [unk1], the payload offset [off] and the sizes [s1] and [s2],
    [extract_pkr] returns normally, the stream is left just after the
    record, and the file named by the record (when it can be opened)
    receives [data[off : off + s1]]: the bytes are requested with the
    first size; the second size only decides whether the size-mismatch
    warning is printed. *)
Theorem extract_file_entry_reads_size1 (data pre namef post : bytes)
    (unk1 off s1 s2 : N) (name dir : string) (j : nat) (st : xstate FS) :
  data = pre ++ namef ++ le32 unk1 ++ le32 off ++ le32 s1 ++ le32 s2 ++ post ->
  length namef = 32%nat ->
  x_pos st = N.of_nat (length pre) ->
  unk1 < 2 ^ 32 -> off < 2 ^ 32 -> s1 < 2 ^ 32 -> s2 < 2 ^ 32 ->
  let file_name := string_of_list_byte (until_null namef) in
  let path := path_join dir file_name in
  let payload := slice data off s1 in
  extract_file_entry data name dir j st
  = ({| x_pos := x_pos st + 48;
        x_fs := match open_wb path (x_fs st) with
                | Some fs1 => fs_write path payload fs1
                | None => x_fs st
                end;
        x_log := x_log st
                 ++ (if unk1 =? 0xFFFFFFFE then []
                     else [UnexpectedUnk1 unk1 file_name name])
                 ++ (if s1 =? s2 then [] else [SizeMismatch s1 s2 file_name name])
                 ++ match open_wb path (x_fs st) with
                    | Some _ =>
                        if N.of_nat (length payload) =? s1 then []
                        else [ShortRead (N.of_nat (length payload)) s1 path]
                    | None => [ErrorWritingFile path]
                    end |}, inr tt).
Proof.
  intros Hdata Hn Hpos Hu Ho H1 H2. cbv zeta.
  destruct (fields_at data pre namef unk1 off s1 s2 post Hdata Hn)
    as (Hlen & Hname & Hunk & Hoff & Hs1 & Hs2).
  rewrite N.mod_small in Hunk, Hoff, Hs1, Hs2 by done.
  rewrite extract_file_entry_ok by (rewrite Hpos; exact Hlen).
  unfold entry_result, entry_fs, entry_warnings. cbv zeta.
  rewrite Hpos, Hname, Hunk, Hoff, Hs1, Hs2. reflexivity.
Qed.

(** C7: the loop over a file table splits at any record [j]; and when
    the first [j] records of the table at [offset] have been processed,
    the stream is at [offset + 48 * j], the payload reads in between
    having been undone; the loop stops before that only when the data
    end before [offset + 48 * j]. *)
Theorem file_table_cursor (data : bytes) (name dir : string) (offset : N)
    (j k : nat) (st : xstate FS) :
  for_range (j + k) (extract_file_entry data name dir) st
  = (for_range j (extract_file_entry data name dir)
     >> for_each (seq j k) (extract_file_entry data name dir)) st
  /\ match (f_seek offset >> for_range j (extract_file_entry data name dir)) st with
     | (st', inr _) => x_pos st' = offset + 48 * N.of_nat j
     | (st', inl e) =>
         e = StructError /\ N.of_nat (length data) < offset + 48 * N.of_nat j
     end.
Proof.
  split; [apply for_range_split|].
  unfold bind, f_seek, modify, for_range.
  pose proof (for_each_entries data name dir (seq 0 j)
                {| x_pos := offset; x_fs := x_fs st; x_log := x_log st |}) as Hl.
  rewrite length_seq in Hl. exact Hl.
Qed.

(** C9: when the payload read yields fewer than [s1] bytes (the data
    end before [off + s1]) and the output file can be opened, the file
    is written with the bytes that are there (none when the offset is
    at or past the end), the short read is reported as a warning, and
    the call returns normally with the stream just after the record,
    ready for the next one. *)
Theorem short_payload_still_written (data pre namef post : bytes)
    (unk1 off s1 s2 : N) (name dir : string) (j : nat) (st : xstate FS) fs1 :
  data = pre ++ namef ++ le32 unk1 ++ le32 off ++ le32 s1 ++ le32 s2 ++ post ->
  length namef = 32%nat ->
  x_pos st = N.of_nat (length pre) ->
  off < 2 ^ 32 -> s1 < 2 ^ 32 ->
  let path := path_join dir (string_of_list_byte (until_null namef)) in
  let payload := slice data off s1 in
  open_wb path (x_fs st) = Some fs1 ->
  N.of_nat (length payload) < s1 ->
  exists st',
    extract_file_entry data name dir j st = (st', inr tt)
    /\ x_fs st' = fs_write path payload fs1
    /\ N.of_nat (length data) < off + s1
    /\ (N.of_nat (length data) <= off -> payload = [])
    /\ ShortRead (N.of_nat (length payload)) s1 path ∈ x_log st'
    /\ x_pos st' = x_pos st + 48.
Proof.
  intros Hdata Hn Hpos Ho H1. cbv zeta. intros Hopen Hshort.
  destruct (fields_at data pre namef unk1 off s1 s2 post Hdata Hn)
    as (Hlen & Hname & Hunk & Hoff & Hs1 & Hs2).
  rewrite N.mod_small in Hoff, Hs1 by done.
  eexists. split.
  { apply extract_file_entry_ok. rewrite Hpos. exact Hlen. }
  unfold entry_result, entry_fs, entry_warnings. cbn [x_pos x_fs x_log]. cbv zeta.
  rewrite Hpos, Hname, Hoff, Hs1, Hopen.
  split; [done|]. split.
  { rewrite length_slice in Hshort. lia. }
  split.
  { intros Hpast. apply length_zero_iff_nil. rewrite length_slice. lia. }
  split; [|done].
  rewrite (proj2 (N.eqb_neq (N.of_nat (length (slice data off s1))) s1)) by lia.
  rewrite !elem_of_app. right. right. right. left.
Qed.
End FileEntryClaims.

Lemma extract_file_entry_reads_size1_witness :
  extract_file_entry entry_example "/" "out" 0 xstate0
  = ({| x_pos := 48;
        x_fs := {| sf_dirs := ∅;
                   sf_files := <["out/a.bin"%string := [x01; x02; x03]]>
                                 (<["out/a.bin"%string := []]> ∅) |};
        x_log := [SizeMismatch 3 5 "a.bin" "/"] |}, inr tt).
Proof.
  exact (extract_file_entry_reads_size1 entry_example [] (string_field "a.bin" 32)
           [x01; x02; x03] 0xFFFFFFFE 48 3 5 "/" "out" 0 xstate0
           eq_refl eq_refl eq_refl eq_refl eq_refl eq_refl eq_refl).
Defined.

Lemma short_payload_still_written_witness :
  exists st',
    extract_file_entry entry_short_example "/" "out" 0 xstate0 = (st', inr tt)
    /\ x_fs st' = fs_write "out/a.bin" [x02; x03]
                    {| sf_dirs := ∅; sf_files := <["out/a.bin"%string := []]> ∅ |}
    /\ N.of_nat (length entry_short_example) < 49 + 3
    /\ (N.of_nat (length entry_short_example) <= 49 -> [x02; x03] = [])
    /\ ShortRead 2 3 "out/a.bin" ∈ x_log st'
    /\ x_pos st' = 0 + 48.
Proof.
  exact (short_payload_still_written entry_short_example [] (string_field "a.bin" 32)
           [x01; x02; x03] 0xFFFFFFFE 49 3 3 "/" "out" 0 xstate0
           {| sf_dirs := ∅; sf_files := <["out/a.bin"%string := []]> ∅ |}
           eq_refl eq_refl eq_refl eq_refl eq_refl eq_refl eq_refl).
Defined.

(** ** Lenient extraction *)

Lemma only_oserror_bind {S A B} (c : M S A) (k : A -> M S B) :
  only_oserror c -> (forall a, only_oserror (k a)) -> only_oserror (bind c k).
Proof.
  intros Hc Hk s. unfold bind. specialize (Hc s).
  destruct (c s) as [s1 [e|a]]; [exact Hc|]. apply Hk.
Qed.

Lemma only_oserror_for_each {S A} (l : list A) (body : A -> M S unit) :
  Forall (fun x => only_oserror (body x)) l -> only_oserror (for_each l body).
Proof.
  induction 1 as [|x l Hx Hl IH]; simpl.
  - by intros s.
  - apply only_oserror_bind; [exact Hx|]. by intros _.
Qed.

Section Lenient.
Context {FS : Type} `{FileSystem FS}.
Variable data : bytes.

Lemma read_dir_entries_ok n (st : xstate FS) :
  x_pos st + 40 * N.of_nat n <= N.of_nat (length data) ->
  read_dir_entries data n st
  = (st_at (x_pos st + 40 * N.of_nat n) st,
     inr (dir_entries_at data (x_pos st) n)).
Proof.
  revert st. induction n as [|n IH]; intros st Hle.
  - simpl. unfold ret, st_at. do 2 f_equal. destruct st; simpl. f_equal. lia.
  - cbn [read_dir_entries dir_entries_at].
    unfold bind at 1. rewrite read_string_ok by (simpl; lia).
    unfold bind at 1. rewrite read32_ok by (simpl; lia).
    unfold bind at 1. rewrite read32_ok by (simpl; lia).
    unfold bind at 1. rewrite IH by (simpl; lia).
    unfold ret, st_at. cbn [x_pos x_fs x_log].
    change (N.of_nat 32) with 32.
    replace (x_pos st + 32 + 4) with (x_pos st + 36) by lia.
    replace (x_pos st + 36 + 4) with (x_pos st + 40) by lia.
    replace (x_pos st + 40 + 40 * N.of_nat n)
      with (x_pos st + 40 * N.of_nat (S n)) by lia.
    reflexivity.
Qed.

Lemma do_makedirs_only_oserror path : only_oserror (@do_makedirs FS _ path).
Proof.
  intros st. unfold do_makedirs. destruct (makedirs path (x_fs st)); [done|].
  by eexists.
Qed.

Lemma extract_dir_only_oserror base e :
  table_in_bounds data e = true -> only_oserror (extract_dir data base e).
Proof.
  intros Hb. unfold extract_dir.
  apply only_oserror_bind; [apply do_makedirs_only_oserror|]. intros _.
  apply only_oserror_bind; [by intros s|]. intros cursor.
  intros st. unfold bind, f_seek, modify, for_range.
  unfold table_in_bounds in Hb. apply orb_true_iff in Hb as [Hb|Hb].
  { apply N.eqb_eq in Hb. rewrite Hb. done. }
  apply N.leb_le in Hb.
  pose proof (for_each_entries data (de_name e)
                (path_join_all base
                   (filter (fun part => nonempty part = true)
                      (split_slash (de_name e))))
                (seq 0 (N.to_nat (de_count e)))
                {| x_pos := de_offset e; x_fs := x_fs st; x_log := x_log st |})
    as Hl.
  destruct (for_each _ _ _) as [st' [ex|[]]]; [|done].
  exfalso. destruct Hl as [_ Hl]. rewrite length_seq in Hl. cbn [x_pos] in Hl.
  lia.
Qed.

Lemma extract_body_only_oserror base (st : xstate FS) :
  navigable data = true -> x_pos st = 0 ->
  match (extract_body data base st).2 with
  | inr _ => True
  | inl e => exists p, e = OSError p
  end.
Proof.
  intros Hnav Hpos. unfold navigable in Hnav. cbv zeta in Hnav.
  apply andb_true_iff in Hnav as [Hnav Htabs].
  apply andb_true_iff in Hnav as [H16 Hdirs].
  apply N.leb_le in H16, Hdirs. rewrite forallb_forall in Htabs.
  unfold extract_body.
  unfold bind at 1. rewrite read32_ok by lia.
  unfold bind at 1. rewrite read32_ok by (simpl; lia).
  unfold bind at 1. rewrite read32_ok by (simpl; lia).
  unfold bind at 1. rewrite read32_ok by (simpl; lia).
  unfold bind at 1. rewrite when_warn.
  cbn [x_pos st_at x_fs x_log]. rewrite Hpos.
  change (0 + 4 + 4) with 8.
  unfold bind at 1.
  match goal with |- context [do_makedirs base ?s] =>
    pose proof (do_makedirs_only_oserror base s) as Hm;
    destruct (do_makedirs base s) as [s1 [e|[]]] eqn:Hmk
  end; [exact Hm|].
  assert (x_pos s1 = 16) as Hp1.
  { unfold do_makedirs in Hmk. cbn [x_fs x_pos x_log] in Hmk.
    destruct (makedirs base (x_fs st)); [|done].
    injection Hmk as <-. done. }
  unfold bind at 1. rewrite read_dir_entries_ok by (rewrite Hp1; lia).
  rewrite Hp1.
  apply only_oserror_for_each. apply Forall_forall. intros e He.
  apply extract_dir_only_oserror. apply Htabs. by apply list_elem_of_In.
Qed.
End Lenient.

(** A well-formed archive is extracted without a warning: the two files
    of its "audio" directory get their three and zero bytes. *)
Example extract_archive_audio :
  let r := extract_pkr "x.pkr" (Some archive_audio) "out" sf_empty in
  x_returned r = true
  /\ x_warnings r = []
  /\ sf_files (x_tree r) !! "out/audio/a.bin"%string = Some [x01; x02; x03]
  /\ sf_files (x_tree r) !! "out/audio/b.bin"%string = Some [].
Proof. vm_compute. repeat split. Qed.

(** On that archive the four anomalies are printed as warnings, the file
    is created (empty: its payload lies past the end) and the call
    returns [True]. *)
Example extract_anomalous :
  let r := extract_pkr "x.pkr" (Some archive_anomalous) "out" sf_empty in
  x_returned r = true
  /\ x_warnings r
     = [UnexpectedMagicVersion 0x12345678 7; UnexpectedUnk1 0 "a.bin" "/";
        SizeMismatch 3 4 "a.bin" "/"; ShortRead 0 3 "out/a.bin"]
  /\ sf_files (x_tree r) !! "out/a.bin"%string = Some [].
Proof. vm_compute. repeat split. Qed.

(** ** Round trip of directories *)

Lemma string_app_cons (x : ascii) (a b : string) :
  String x a +:+ b = String x (a +:+ b).
Proof. reflexivity. Qed.

Lemma string_app_nil_l (b : string) : EmptyString +:+ b = b.
Proof. reflexivity. Qed.

Lemma string_app_assoc (a b c : string) : (a +:+ b) +:+ c = a +:+ (b +:+ c).
Proof.
  induction a as [|x a IH]; [done|]. rewrite !string_app_cons. by rewrite IH.
Qed.

Lemma endswith_slash_app (a b : string) :
  b <> EmptyString -> endswith_slash (a +:+ b) = endswith_slash b.
Proof.
  intros Hb. induction a as [|x a IH]; [done|].
  rewrite string_app_cons. cbn [endswith_slash]. rewrite IH.
  destruct (a +:+ b) eqn:Hab; [|done].
  destruct a; [rewrite string_app_nil_l in Hab; congruence|discriminate].
Qed.

Lemma replace_backslash_app (a b : string) :
  replace_backslash (a +:+ b) = replace_backslash a +:+ replace_backslash b.
Proof.
  induction a as [|x a IH]; [done|].
  rewrite string_app_cons. cbn [replace_backslash].
  rewrite string_app_cons. by rewrite IH.
Qed.

Lemma chars_ok_no_backslash s : chars_ok s = true -> replace_backslash s = s.
Proof.
  induction s as [|c s IH]; [done|]. simpl. unfold char_ok.
  intros Hc. apply andb_true_iff in Hc as [Hc Hs].
  apply andb_true_iff in Hc as [Hc _]. apply andb_true_iff in Hc as [_ Hc].
  apply negb_true_iff in Hc. rewrite Hc, IH by done. done.
Qed.

Lemma chars_ok_endswith s : chars_ok s = true -> endswith_slash s = false.
Proof.
  induction s as [|c s IH]; [done|]. simpl. unfold char_ok.
  intros Hc. apply andb_true_iff in Hc as [Hc Hs].
  apply andb_true_iff in Hc as [Hc _]. apply andb_true_iff in Hc as [Hc _].
  apply negb_true_iff in Hc. destruct s; [exact Hc|]. by apply IH.
Qed.

Lemma name_ok_relpath_ok s : name_ok s = true -> relpath_ok s.
Proof.
  unfold name_ok. intros Hn. apply andb_true_iff in Hn as [H0 Hc].
  destruct s as [|c0 r]; [done|]. apply negb_true_iff in H0.
  split; [|split].
  - exists c0, r. split; [done|]. split; [done|].
    simpl in Hc. unfold char_ok in Hc.
    apply andb_true_iff in Hc as [Hc _]. apply andb_true_iff in Hc as [Hc _].
    apply andb_true_iff in Hc as [Hc _]. by apply negb_true_iff in Hc.
  - by apply chars_ok_endswith.
  - by apply chars_ok_no_backslash.
Qed.

Lemma name_ok_nonempty s : name_ok s = true -> s <> EmptyString.
Proof. by destruct s. Qed.

Lemma relpath_fold_ok (cs : list string) (acc : string) :
  relpath_ok acc -> Forall (fun c => name_ok c = true) cs ->
  relpath_ok (foldl (fun a x => a +:+ "/" +:+ x) acc cs)
  /\ foldl (fun a x => a +:+ "/" +:+ x) acc cs +:+ "/" = acc +:+ "/" +:+ canon cs.
Proof.
  revert acc. induction cs as [|x cs IH]; intros acc Hacc Hcs.
  - simpl. split; [done|]. done.
  - apply Forall_cons in Hcs as [Hx Hcs]. cbn [foldl canon].
    destruct (IH (acc +:+ "/" +:+ x)) as [Hok Heq]; [|done|].
    + destruct Hacc as ((c0 & r & -> & Hd & Hs) & He & Hb).
      destruct (name_ok_relpath_ok x Hx) as (_ & Hxe & Hxb).
      split; [|split].
      * exists c0, (r +:+ "/" +:+ x). by repeat split.
      * rewrite endswith_slash_app.
        -- rewrite endswith_slash_app; [done|by apply name_ok_nonempty].
        -- by rewrite string_app_cons.
      * rewrite !replace_backslash_app, Hb, Hxb. done.
    + split; [done|]. rewrite Heq. by rewrite !string_app_assoc.
Qed.

Lemma pkr_dir_name_of_canon (c : string) (cs : list string) :
  Forall (fun c => name_ok c = true) (c :: cs) ->
  pkr_dir_name_of (c :: cs) = canon (c :: cs).
Proof.
  intros Hcs. apply Forall_cons in Hcs as [Hc Hcs].
  destruct (relpath_fold_ok cs c (name_ok_relpath_ok c Hc) Hcs)
    as (((c0 & r & Hr & Hd & Hs) & He & Hb) & Heq).
  unfold pkr_dir_name_of, relpath. rewrite Hb.
  assert (String.eqb (foldl (fun a x => a +:+ "/" +:+ x) c cs) "." = false) as ->.
  { rewrite Hr. simpl. rewrite Hd. done. }
  assert (String.eqb (foldl (fun a x => a +:+ "/" +:+ x) c cs) "/" = false) as ->.
  { rewrite Hr. simpl. rewrite Hs. done. }
  rewrite He. cbn [negb andb]. exact Heq.
Qed.

Lemma split_slash_component (c rest : string) :
  chars_ok c = true -> split_slash (c +:+ "/" +:+ rest) = c :: split_slash rest.
Proof.
  induction c as [|x c IH]; intros Hc.
  - reflexivity.
  - simpl in Hc. apply andb_true_iff in Hc as [Hx Hc].
    unfold char_ok in Hx. apply andb_true_iff in Hx as [Hx _].
    apply andb_true_iff in Hx as [Hx _]. apply negb_true_iff in Hx.
    rewrite string_app_cons. cbn [split_slash]. rewrite Hx, IH by done. done.
Qed.

Lemma name_ok_chars_ok s : name_ok s = true -> chars_ok s = true.
Proof. unfold name_ok. intros Hn. by apply andb_true_iff in Hn as [_ Hn]. Qed.

Lemma split_slash_canon (root : list string) :
  Forall (fun c => name_ok c = true) root ->
  filter (fun part => nonempty part = true) (split_slash (canon root)) = root.
Proof.
  induction 1 as [|c cs Hc Hcs IH]; [done|].
  cbn [canon]. rewrite split_slash_component by (by apply name_ok_chars_ok).
  rewrite filter_cons, IH. rewrite decide_True; [done|].
  by destruct c.
Qed.

(** The path components [extract_pkr] derives from a canonical name are
    those of the directory it was made from. *)
Lemma path_parts_of_pkr_dir_name (root : list string) :
  Forall (fun c => name_ok c = true) root ->
  filter (fun part => nonempty part = true) (split_slash (pkr_dir_name_of root))
  = root.
Proof.
  intros Hr. destruct root as [|c cs]; [reflexivity|].
  rewrite pkr_dir_name_of_canon by done. by apply split_slash_canon.
Qed.

Lemma no_nul_app (a b : string) : no_nul (a +:+ b) = no_nul a && no_nul b.
Proof.
  induction a as [|x a IH]; [done|].
  rewrite string_app_cons. cbn [no_nul]. rewrite IH. by rewrite andb_assoc.
Qed.

Lemma chars_ok_no_nul s : chars_ok s = true -> no_nul s = true.
Proof.
  induction s as [|c s IH]; [done|]. simpl. unfold char_ok. intros Hc.
  apply andb_true_iff in Hc as [Hc Hs]. apply andb_true_iff in Hc as [_ Hc].
  rewrite Hc, IH by done. done.
Qed.

Lemma no_nul_pkr_dir_name (root : list string) :
  Forall (fun c => name_ok c = true) root -> no_nul (pkr_dir_name_of root) = true.
Proof.
  intros Hr. destruct root as [|c cs]; [reflexivity|].
  rewrite pkr_dir_name_of_canon by done.
  induction Hr as [|x xs Hx Hxs IH]; [done|].
  cbn [canon]. rewrite !no_nul_app, IH.
  rewrite chars_ok_no_nul by (by apply name_ok_chars_ok). done.
Qed.

Lemma list_byte_of_string_cons c s :
  list_byte_of_string (String c s) = byte_of_ascii c :: list_byte_of_string s.
Proof. reflexivity. Qed.

Lemma length_list_byte_of_string s :
  length (list_byte_of_string s) = String.length s.
Proof.
  induction s as [|c s IH]; [done|].
  rewrite list_byte_of_string_cons. simpl. by rewrite IH.
Qed.

Lemma until_null_padded s m :
  no_nul s = true ->
  until_null (list_byte_of_string s ++ replicate m x00) = list_byte_of_string s.
Proof.
  induction s as [|c s IH]; intros Hs.
  - by destruct m.
  - simpl in Hs. apply andb_true_iff in Hs as [Hc Hs].
    rewrite list_byte_of_string_cons. cbn [app until_null].
    destruct (Byte.eqb (byte_of_ascii c) x00) eqn:Hb.
    + apply Byte.byte_dec_bl in Hb.
      apply (f_equal ascii_of_byte) in Hb. rewrite ascii_of_byte_of_ascii in Hb.
      subst c. done.
    + by rewrite IH.
Qed.

(** A name that fits in the field is read back as it was written. *)
Lemma str_at_string_field (pre post : bytes) (k : string) :
  (String.length k <= 32)%nat -> no_nul k = true ->
  str_at (pre ++ string_field k 32 ++ post) (N.of_nat (length pre)) 32 = k.
Proof.
  intros Hlen Hnul.
  pose proof (str_at_app pre (string_field k 32) post) as Hs.
  rewrite length_string_field in Hs. rewrite Hs.
  unfold string_field. rewrite take_ge by (rewrite length_list_byte_of_string; lia).
  rewrite until_null_padded by done. apply string_of_list_byte_of_string.
Qed.

Lemma length_dir_record_bytes offs d : length (dir_record_bytes offs d) = 40%nat.
Proof.
  unfold dir_record_bytes. by rewrite !length_app, length_string_field, !length_le32.
Qed.

Lemma dir_entries_at_table offs (dirs : list (string * list string)) :
  Forall field_ok dirs.*1 ->
  forall pre post,
    dir_entries_at (pre ++ dir_table_bytes offs dirs ++ post)
      (N.of_nat (length pre)) (length dirs)
    = dir_record_read offs <$> dirs.
Proof.
  induction dirs as [|d dirs IH]; intros Hok pre post; [done|].
  apply Forall_cons in Hok as [[Hlen Hnul] Hok].
  unfold dir_table_bytes. rewrite fmap_cons. cbn [concat length dir_entries_at].
  fold (dir_table_bytes offs dirs). rewrite fmap_cons. f_equal.
  - unfold dir_record_read, dir_record_bytes. rewrite <- !app_assoc. f_equal.
    + by apply str_at_string_field.
    + replace (N.of_nat (length pre) + 32)
        with (N.of_nat (length (pre ++ string_field d.1 32)))
        by (rewrite length_app, length_string_field; lia).
      rewrite (app_assoc pre). apply u32_at_app.
    + replace (N.of_nat (length pre) + 36)
        with (N.of_nat (length (pre ++ string_field d.1 32
                                ++ le32 (default 0 (offs !! d.1)))))
        by (rewrite !length_app, length_string_field, length_le32; lia).
      rewrite (app_assoc (string_field d.1 32)), (app_assoc pre).
      apply u32_at_app.
  - replace (N.of_nat (length pre) + 40)
      with (N.of_nat (length (pre ++ dir_record_bytes offs d)))
      by (rewrite length_app, length_dir_record_bytes; lia).
    rewrite <- (app_assoc (dir_record_bytes offs d)), (app_assoc pre).
    by apply IH.
Qed.

Lemma plain_dirs_in_cons n c l :
  plain_dirs_in ((n, c) :: l) = name_ok n && plain_dirs c && plain_dirs_in l.
Proof. reflexivity. Qed.

Lemma name_ok_not_hidden s : name_ok s = true -> not_hidden s = true.
Proof.
  unfold name_ok, not_hidden, startswith_dot. destruct s as [|c s]; [done|].
  intros Hn. by apply andb_true_iff in Hn as [Hn _].
Qed.

Lemma plain_walk t :
  plain_dirs t = true ->
  forall root, Forall (fun c => name_ok c = true) root ->
    os_walk not_hidden root t = os_walk (fun _ => true) root t
    /\ Forall plain_item (os_walk (fun _ => true) root t).
Proof.
  induction t as [c|es IH] using node_ind'; [done|].
  intros Hp root Hroot. change (plain_dirs (Dir es)) with (plain_dirs_in es) in Hp.
  rewrite !os_walk_dir.
  assert (files_of es = []
          /\ walk_entries not_hidden root es = walk_entries (fun _ => true) root es
          /\ Forall plain_item (walk_entries (fun _ => true) root es))
    as (Hf & Hw & Hi).
  { induction es as [|[n c] es IHes]; [done|].
    apply Forall_cons in IH as [IHc IH]. cbn [snd] in IHc.
    rewrite plain_dirs_in_cons in Hp.
    apply andb_true_iff in Hp as [Hp Hes]. apply andb_true_iff in Hp as [Hn Hc].
    destruct (IHes IH Hes) as (Hf & Hw & Hi).
    destruct (IHc Hc (root ++ [n])) as [Hwc Hic].
    { apply Forall_app. split; [done|]. by constructor. }
    rewrite files_of_cons, !walk_entries_cons, Hf, Hw.
    rewrite (name_ok_not_hidden n Hn), Hwc.
    split; [|split; [done|]].
    - destruct c; [done|reflexivity].
    - apply Forall_app. by split. }
  rewrite Hw. split; [done|].
  constructor; [|done]. split; [exact Hf|exact Hroot].
Qed.

Lemma extract_empty_dirs (data : bytes) (base : string) (entries : list dir_entry)
    (st : xstate simple_fs) :
  Forall (fun e => de_count e = 0) entries ->
  sf_files (x_fs st) = ∅ ->
  exists p,
    for_each entries (extract_dir data base) st
    = ({| x_pos := p;
          x_fs := {| sf_dirs := list_to_set (export_path base <$> (de_name <$> entries))
                                ∪ sf_dirs (x_fs st);
                     sf_files := ∅ |};
          x_log := x_log st |}, inr tt).
Proof.
  intros Hc. revert st. induction Hc as [|e entries He Hes IH]; intros st Hfiles.
  - exists (x_pos st). simpl. unfold ret. destruct st as [p [d f] l].
    simpl in *. subst f. do 3 f_equal. set_solver.
  - cbn [for_each]. unfold bind at 1.
    unfold extract_dir at 1. fold (export_path base (de_name e)).
    unfold bind at 1. unfold do_makedirs at 1. cbn [makedirs simple_fs_FileSystem].
    rewrite Hfiles, lookup_empty.
    unfold bind at 1, f_tell at 1. unfold bind at 1, f_seek at 1, modify at 1.
    rewrite He. change (N.to_nat 0) with 0%nat.
    unfold for_range. cbn [seq for_each]. unfold ret at 1.
    cbn [x_pos x_fs x_log].
    match goal with |- context [for_each entries _ ?s] =>
      destruct (IH s) as [p Hp]; [done|]; rewrite Hp
    end.
    exists p. cbn [x_pos x_fs x_log sf_dirs sf_files]. do 3 f_equal.
    rewrite !fmap_cons. set_solver.
Qed.

Lemma length_header_bytes n fc : length (header_bytes n fc) = 16%nat.
Proof. reflexivity. Qed.

Lemma length_dir_table_bytes offs dirs :
  length (dir_table_bytes offs dirs) = (40 * length dirs)%nat.
Proof.
  induction dirs as [|d dirs IH]; [done|].
  unfold dir_table_bytes in *. rewrite fmap_cons. cbn [concat].
  rewrite length_app, IH, length_dir_record_bytes. simpl. lia.
Qed.

(** Extracting an archive that holds only a directory table of empty
    directories. *)
Lemma extract_dir_table (pkr_file_path base : string) offs
    (dirs : list (string * list string)) (fc : N) :
  Forall field_ok dirs.*1 ->
  Forall (fun d => d.2 = []) dirs ->
  N.of_nat (length dirs) < 2 ^ 32 ->
  fc < 2 ^ 32 ->
  extract_pkr pkr_file_path
    (Some (header_bytes (N.of_nat (length dirs)) fc ++ dir_table_bytes offs dirs))
    base sf_empty
  = {| x_returned := true; x_caught := None;
       x_tree := {| sf_dirs := list_to_set (export_path base <$> dirs.*1) ∪ {[base]};
                    sf_files := ∅ |};
       x_warnings := [] |}.
Proof.
  intros Hok Hempty Hn Hfc.
  set (data := header_bytes _ _ ++ _).
  assert (N.of_nat (length data) = 16 + 40 * N.of_nat (length dirs)) as Hlen.
  { unfold data. rewrite length_app, length_header_bytes, length_dir_table_bytes. lia. }
  assert (u32_at data 0 = PKR_MAGIC) as Hmagic.
  { apply (u32_at_app [] _ PKR_MAGIC). }
  assert (u32_at data 4 = PKR_VERSION) as Hversion.
  { unfold data, header_bytes. rewrite <- !app_assoc.
    apply (u32_at_app (le32 PKR_MAGIC) _ PKR_VERSION). }
  assert (u32_at data 8 = N.of_nat (length dirs)) as Hnum.
  { unfold data, header_bytes. rewrite <- !app_assoc.
    rewrite (app_assoc (le32 PKR_MAGIC)).
    rewrite (u32_at_app (le32 PKR_MAGIC ++ le32 PKR_VERSION)).
    by apply N.mod_small. }
  assert (dir_entries_at data 16 (length dirs) = dir_record_read offs <$> dirs)
    as Hentries.
  { unfold data. rewrite <- (app_nil_r (dir_table_bytes offs dirs)).
    by apply (dir_entries_at_table offs dirs Hok (header_bytes _ _) []). }
  unfold extract_pkr, extract_body.
  unfold bind at 1. rewrite read32_ok by (cbn [x_pos]; lia).
  unfold bind at 1. rewrite read32_ok by (cbn [x_pos st_at]; lia).
  unfold bind at 1. rewrite read32_ok by (cbn [x_pos st_at]; lia).
  unfold bind at 1. rewrite read32_ok by (cbn [x_pos st_at]; lia).
  unfold st_at. cbn [x_pos x_fs x_log]. change (0 + 4) with 4.
  change (4 + 4) with 8. change (8 + 4) with 12. change (12 + 4) with 16.
  rewrite Hmagic, Hversion, Hnum.
  unfold bind at 1. rewrite when_warn. cbn [x_pos x_fs x_log].
  change (negb (PKR_MAGIC =? 0x32524B50) || negb (PKR_VERSION =? 0x00000001))
    with false. cbn [app].
  unfold bind at 1. unfold do_makedirs at 1.
  cbn [makedirs simple_fs_FileSystem x_fs x_pos x_log sf_files sf_dirs sf_empty].
  rewrite lookup_empty.
  unfold bind at 1. rewrite read_dir_entries_ok by (cbn [x_pos]; lia).
  unfold st_at. cbn [x_pos x_fs x_log]. rewrite Nat2N.id, Hentries.
  match goal with |- context [for_each _ _ ?s] =>
    destruct (extract_empty_dirs data base (dir_record_read offs <$> dirs) s)
      as [p Hp]
  end.
  { apply Forall_fmap. eapply Forall_impl; [exact Hempty|].
    intros d Hd. unfold dir_record_read. cbn [de_count compose]. by rewrite Hd. }
  { reflexivity. }
  rewrite Hp. f_equal. cbn [x_fs x_log sf_dirs]. f_equal.
  rewrite <- (list_fmap_compose (dir_record_read offs) de_name).
  rewrite (list_fmap_ext (de_name ∘ dir_record_read offs) fst dirs) by done.
  set_solver.
Qed.

Lemma tree_files_cons root n c l :
  tree_files root (Dir ((n, c) :: l))
  = tree_files (path_join root n) c ++ tree_files root (Dir l).
Proof. reflexivity. Qed.

Lemma plain_tree_files t :
  plain_dirs t = true -> forall root, tree_files root t = [].
Proof.
  induction t as [c|es IH] using node_ind'; [done|].
  intros Hp root. change (plain_dirs (Dir es)) with (plain_dirs_in es) in Hp.
  induction es as [|[n c] es IHes]; [done|].
  apply Forall_cons in IH as [IHc IH]. cbn [snd] in IHc.
  rewrite plain_dirs_in_cons in Hp.
  apply andb_true_iff in Hp as [Hp Hes]. apply andb_true_iff in Hp as [Hn Hc].
  rewrite tree_files_cons, IHc, IHes by done. done.
Qed.

(** What [repack_pkr] makes of a tree of plain directories. *)
Lemma repack_plain_dirs reread input_dir t :
  plain_dirs t = true ->
  exists offs dirs,
    repack_pkr reread true input_dir t
    = (true, Some (header_bytes (N.of_nat (length dirs)) 0
                   ++ dir_table_bytes offs dirs))
    /\ (forall k, k ∈ dirs.*1 <-> k ∈ canonical_names t)
    /\ Forall (fun d => d.2 = []) dirs
    /\ (length dirs <= length (canonical_names t))%nat.
Proof.
  intros Hp.
  destruct (plain_walk t Hp [] (Forall_nil_2 _)) as [Hw Hi].
  destruct (collect_spec input_dir t) as (Hinfos & Htotal & Htd).
  cbv zeta in *. rewrite Hw in *.
  set (its := os_walk (fun _ => true) [] t) in *.
  assert (flat_names its = []) as Hflat.
  { apply flat_names_nil_iff. eapply Forall_impl; [exact Hi|].
    intros it [Hf _]. unfold item_files. by rewrite Hf. }
  assert (its ≫= item_infos input_dir = []) as Hnil.
  { apply length_zero_iff_nil. by rewrite length_item_infos, Hflat. }
  rewrite Hnil in *. simpl in Htotal.
  assert (forall k, default [] (temp_dirs (collect input_dir t) !! k) = []) as Hval.
  { intros k. rewrite Htd. destruct (decide _); [|done].
    unfold names_for. by rewrite Hflat. }
  eexists _, (dirs_to_pack_of (temp_dirs (collect input_dir t))).
  split; [|split; [|split]].
  - rewrite repack_pkr_spec. cbv zeta. rewrite Hinfos, Htotal. reflexivity.
  - intros k. rewrite dirs_to_pack_of_keys. unfold canonical_names. fold its.
    rewrite list_elem_of_fmap. split.
    + intros ([k' v] & -> & Hin). apply elem_of_map_to_list in Hin.
      rewrite Htd in Hin. cbn [fst]. by destruct (decide _).
    + intros Hin. assert (is_Some (temp_dirs (collect input_dir t) !! k)) as [v Hv].
      { rewrite Htd. rewrite decide_True by done. by eexists. }
      exists (k, v). split; [done|]. by apply elem_of_map_to_list.
  - unfold dirs_to_pack_of. apply Forall_fmap, Forall_forall. intros k _.
    cbn [compose snd]. by rewrite Hval.
  - rewrite <- (length_fmap fst). apply submseteq_length, NoDup_submseteq.
    + apply dirs_to_pack_of_NoDup.
    + intros k. rewrite dirs_to_pack_of_keys. unfold canonical_names. fold its.
      rewrite list_elem_of_fmap. intros ([k' v] & -> & Hin).
      apply elem_of_map_to_list in Hin. rewrite Htd in Hin. cbn [fst].
      by destruct (decide _).
Qed.

(** C3, as stated, fails on a tree without hidden entries (and without
    files): the 33 bytes and more of a canonical directory name do not
    fit the 32-byte field, and the directory comes back under its
    truncated name. *)
Lemma roundtrip_long_name_fails :
  no_hidden_entries tree_long_name = true /\ ~ roundtrip "in" "out" tree_long_name.
Proof.
  split; [reflexivity|].
  intros (archive & Ha & Hfs).
  assert (bool_decide ("out/aaaaaaaaaaaaaaaaaaaaaaaaaaaaaaaaaaaaaaaa"%string
                       ∈ sf_dirs (expected_fs "out" tree_long_name)) = true) as Hin
    by (vm_compute; reflexivity).
  rewrite <- Hfs in Hin.
  assert (archive = default [] (repack_tree "in" tree_long_name).2) as ->
    by (by rewrite Ha).
  vm_compute in Hin. discriminate Hin.
Qed.

(** C3, amended: for a tree of directories only, whose names are not
    hidden, not empty and free of path separators and null characters,
    whose canonical directory names fit in 32 bytes and whose header and
    directory table end below 2^32, [repack_pkr] succeeds, and extracting
    its archive succeeds without a warning and creates exactly the
    directories of the tree, the empty ones included, and no file. *)
Theorem roundtrip_directories (pkr_file_path input_dir base : string) (t : node) :
  plain_dirs t = true ->
  Forall (fun k => (String.length k <= 32)%nat) (canonical_names t) ->
  16 + 40 * N.of_nat (length (canonical_names t)) < 2 ^ 32 ->
  exists archive,
    repack_tree input_dir t = (true, Some archive)
    /\ extract_pkr pkr_file_path (Some archive) base sf_empty
       = {| x_returned := true; x_caught := None;
            x_tree := expected_fs base t; x_warnings := [] |}.
Proof.
  intros Hp Hlen Hcount.
  destruct (repack_plain_dirs (reread_tree input_dir t) input_dir t Hp)
    as (offs & dirs & Hrepack & Hkeys & Hempty & Hle).
  destruct (plain_walk t Hp [] (Forall_nil_2 _)) as [_ Hi].
  eexists. split; [exact Hrepack|].
  rewrite extract_dir_table; [|
    apply Forall_forall; intros k Hk; apply Hkeys in Hk; split;
      [by eapply (proj1 (Forall_forall _ _) Hlen)|];
      unfold canonical_names in Hk; apply list_elem_of_fmap in Hk as (it & -> & Hit);
      apply no_nul_pkr_dir_name; by apply (proj1 (Forall_forall _ _) Hi it)
    | done | | done].
  2: { clear -Hle Hcount. lia. }
  f_equal. unfold expected_fs. f_equal.
  - apply set_eq. intros x.
    rewrite elem_of_union, !elem_of_list_to_set, elem_of_singleton.
    unfold tree_dirs. rewrite !list_elem_of_fmap. split.
    + intros [(k & -> & Hk)| ->].
      * apply Hkeys in Hk. unfold canonical_names in Hk.
        apply list_elem_of_fmap in Hk as (it & -> & Hit).
        exists it. split; [|done]. unfold export_path, item_key.
        rewrite path_parts_of_pkr_dir_name; [done|].
        by apply (proj1 (Forall_forall _ _) Hi it).
      * destruct t as [c|es]; [done|]. rewrite os_walk_dir.
        eexists. split; [|left]. reflexivity.
    + intros (it & -> & Hit). left. exists (item_key it). split.
      * unfold export_path, item_key.
        rewrite path_parts_of_pkr_dir_name; [done|].
        by apply (proj1 (Forall_forall _ _) Hi it).
      * apply Hkeys. unfold canonical_names. apply list_elem_of_fmap.
        by exists it.
  - by rewrite plain_tree_files.
Qed.

Lemma roundtrip_directories_witness :
  exists archive,
    repack_tree "in" tree_dirs_only = (true, Some archive)
    /\ extract_pkr "archive.pkr" (Some archive) "out" sf_empty
       = {| x_returned := true; x_caught := None;
            x_tree := expected_fs "out" tree_dirs_only; x_warnings := [] |}.
Proof.
  apply (roundtrip_directories "archive.pkr" "in" "out" tree_dirs_only).
  - reflexivity.
  - vm_compute. repeat constructor.
  - vm_compute. reflexivity.
Defined.

(** The scenario of the specification, a directory with two files, does
    not come back either: the archive stops after the directory table. *)
Example roundtrip_audio_fails : ~ roundtrip "in" "out" tree_audio.
Proof.
  intros (archive & Ha & Hfs).
  assert (bool_decide (is_Some (sf_files (expected_fs "out" tree_audio)
                                  !! "out/audio/a.bin"%string)) = true) as Hin
    by (vm_compute; reflexivity).
  rewrite <- Hfs in Hin.
  assert (archive = default [] (repack_tree "in" tree_audio).2) as ->
    by (by rewrite Ha).
  vm_compute in Hin. discriminate Hin.
Qed.

(** ** Volume adjustment *)








(** * Further properties *)

(** ** repack_pkr.py: names, hidden entries, counts and order *)

Lemma no_backslash_replace s : no_backslash (replace_backslash s) = true.
Proof.
  induction s as [|c s IH]; [done|]. cbn [replace_backslash no_backslash].
  rewrite IH, andb_true_r.
  destruct (Ascii.eqb c "\") eqn:Hc; [done|]. by rewrite Hc.
Qed.

Lemma no_backslash_app a b : no_backslash (a +:+ b) = no_backslash a && no_backslash b.
Proof.
  induction a as [|x a IH]; [done|].
  rewrite string_app_cons. cbn [no_backslash]. rewrite IH. by rewrite andb_assoc.
Qed.

Lemma endswith_slash_snoc s : endswith_slash (s +:+ "/") = true.
Proof. by rewrite endswith_slash_app. Qed.

(** X1: whatever the directory, its canonical name ends with a slash and
    holds no backslash; the walked directory itself is named "/". *)
Theorem pkr_dir_name_canonical (root : list string) :
  endswith_slash (pkr_dir_name_of root) = true
  /\ no_backslash (pkr_dir_name_of root) = true
  /\ pkr_dir_name_of [] = "/"%string.
Proof.
  split; [|split; [|reflexivity]].
  - unfold pkr_dir_name_of.
    destruct (String.eqb (replace_backslash (relpath root)) ".") eqn:Hdot.
    + reflexivity.
    + destruct (String.eqb (replace_backslash (relpath root)) "/") eqn:Hs.
      * apply String.eqb_eq in Hs. by rewrite Hs.
      * cbn [negb andb].
        destruct (endswith_slash (replace_backslash (relpath root))) eqn:He;
          cbn [negb]; [done|apply endswith_slash_snoc].
  - unfold pkr_dir_name_of.
    destruct (String.eqb (replace_backslash (relpath root)) "."); [reflexivity|].
    destruct (negb _ && negb _).
    + rewrite no_backslash_app, no_backslash_replace. done.
    + apply no_backslash_replace.
Qed.




Lemma by_key_cons_notin (ks : list string) (p : string * string) l :
  p.1 ∉ ks ->
  (ks ≫= fun k => filter (fun q => q.1 = k) (p :: l))
  = (ks ≫= fun k => filter (fun q => q.1 = k) l).
Proof.
  induction ks as [|k ks IH]; intros Hp; [done|].
  rewrite !bind_cons. rewrite IH by (intros Hc; apply Hp; by right).
  rewrite filter_cons_False; [done|].
  intros Heq. apply Hp. rewrite Heq. left.
Qed.

Lemma by_key_cons_in (ks : list string) (p : string * string) l :
  NoDup ks -> p.1 ∈ ks ->
  length (ks ≫= fun k => filter (fun q => q.1 = k) (p :: l))
  = S (length (ks ≫= fun k => filter (fun q => q.1 = k) l)).
Proof.
  induction ks as [|k ks IH]; intros Hnd Hp; [by apply elem_of_nil in Hp|].
  apply NoDup_cons in Hnd as [Hk Hnd]. rewrite !bind_cons, !length_app.
  destruct (decide (p.1 = k)) as [Heq|Hne].
  - rewrite filter_cons_True by done.
    rewrite by_key_cons_notin by (by rewrite Heq). done.
  - rewrite filter_cons_False by done.
    apply elem_of_cons in Hp as [?|Hp]; [done|].
    rewrite IH by done. lia.
Qed.

Lemma length_by_key (ks : list string) (l : list (string * string)) :
  NoDup ks -> (forall p, p ∈ l -> p.1 ∈ ks) ->
  length (ks ≫= fun k => filter (fun q => q.1 = k) l) = length l.
Proof.
  intros Hnd. induction l as [|p l IH]; intros Hl.
  - clear. induction ks as [|k ks IH]; [done|]. by rewrite bind_cons, length_app, IH.
  - rewrite by_key_cons_in; [|done|apply Hl; left].
    cbn [length]. f_equal. apply IH. intros q Hq. apply Hl. by right.
Qed.

Lemma length_concat_fmap_bind {A B C} (f : A -> list B) (g : A -> list C) ks :
  (forall k, k ∈ ks -> length (f k) = length (g k)) ->
  length (concat (f <$> ks)) = length (ks ≫= g).
Proof.
  induction ks as [|k ks IH]; intros Hk; [done|].
  rewrite fmap_cons, bind_cons. cbn [concat]. rewrite !length_app.
  rewrite Hk by left. rewrite IH; [done|]. intros k' Hk'. apply Hk. by right.
Qed.

Lemma flat_names_key its p : p ∈ flat_names its -> p.1 ∈ item_key <$> its.
Proof.
  unfold flat_names. intros (it & Hp & Hit)%list_elem_of_bind.
  apply list_elem_of_fmap in Hp as (f & -> & _). cbn [fst].
  apply list_elem_of_fmap. by exists it.
Qed.

Lemma collect_keys base t k :
  k ∈ (dirs_to_pack_of (temp_dirs (collect base t))).*1
  <-> k ∈ item_key <$> os_walk not_hidden [] t.
Proof.
  destruct (collect_spec base t) as (_ & _ & Hd). cbv zeta in Hd.
  rewrite dirs_to_pack_of_keys. rewrite list_elem_of_fmap. split.
  - intros ([k' v] & -> & Hin). apply elem_of_map_to_list in Hin.
    rewrite Hd in Hin. cbn [fst]. by destruct (decide _).
  - intros Hk. exists (k, names_for k (os_walk not_hidden [] t)). split; [done|].
    apply elem_of_map_to_list. rewrite Hd. by rewrite decide_True.
Qed.

Lemma collect_dir_files base t k fs :
  (k, fs) ∈ dirs_to_pack_of (temp_dirs (collect base t)) ->
  fs = py_sorted String.leb (names_for k (os_walk not_hidden [] t)).
Proof.
  intros Hin. assert (k ∈ (dirs_to_pack_of (temp_dirs (collect base t))).*1) as Hk.
  { apply list_elem_of_fmap. by exists (k, fs). }
  apply collect_keys in Hk.
  destruct (collect_spec base t) as (_ & _ & Hd). cbv zeta in Hd.
  unfold dirs_to_pack_of in Hin. apply list_elem_of_fmap in Hin as (k' & Heq & _).
  injection Heq as -> ->. rewrite Hd. by rewrite decide_True.
Qed.

Lemma collect_counts (input_dir : string) (t : node) :
  let st := collect input_dir t in
  total_file_count st = N.of_nat (length (all_files_info st))
  /\ records_of (dirs_to_pack_of (temp_dirs st)) = total_file_count st.
Proof.
  cbv zeta. destruct (collect_spec input_dir t) as (Hi & Ht & Hd). cbv zeta in *.
  split; [by rewrite Hi, Ht|].
  rewrite Ht, length_item_infos. unfold records_of. f_equal.
  set (its := os_walk not_hidden [] t) in *.
  set (dirs := dirs_to_pack_of (temp_dirs (collect input_dir t))).
  assert (dirs.*2 = (fun k => py_sorted String.leb
                                (default [] (temp_dirs (collect input_dir t) !! k)))
                    <$> dirs.*1) as ->.
  { unfold dirs, dirs_to_pack_of. rewrite <- !list_fmap_compose.
    by apply list_fmap_ext. }
  rewrite (length_concat_fmap_bind _
             (fun k => filter (fun q : string * string => q.1 = k) (flat_names its))).
  - apply length_by_key; [apply dirs_to_pack_of_NoDup|].
    intros p Hp. apply collect_keys. by apply flat_names_key.
  - intros k Hk. apply collect_keys in Hk. rewrite Hd.
    rewrite decide_True by done. cbn [default].
    rewrite (Permutation_length (sorted_strings_perm _)).
    unfold id, names_for. by rewrite length_fmap.
Qed.

(** X3: the three counts of the first pass agree: [total_file_count], the
    length of [all_files_info], and the number of file names held by
    [dirs_to_pack], although directories that share a canonical name are
    merged there. *)
Theorem collect_counts_agree (input_dir : string) (t : node) :
  let st := collect input_dir t in
  total_file_count st = N.of_nat (length (all_files_info st))
  /\ records_of (dirs_to_pack_of (temp_dirs st)) = total_file_count st.
Proof. apply collect_counts. Qed.

Lemma strongly_sorted_strict {A} (R : A -> A -> Prop) l :
  StronglySorted R l -> NoDup l ->
  StronglySorted (fun a b => R a b /\ a <> b) l.
Proof.
  induction 1 as [|x l Hs IH Hall]; intros Hnd; [constructor|].
  apply NoDup_cons in Hnd as [Hx Hnd]. constructor; [by apply IH|].
  apply Forall_forall. intros y Hy. split.
  - by apply (proj1 (Forall_forall _ _) Hall).
  - intros ->. done.
Qed.

(** X4: in [dirs_to_pack] the directory names are exactly the canonical
    names of the walked directories, each once and in strictly increasing
    order; the file names of a directory are in order, and are the names
    of the files that the walk found under that canonical name. *)
Theorem dirs_to_pack_sorted (input_dir : string) (t : node) :
  let dirs := dirs_to_pack_of (temp_dirs (collect input_dir t)) in
  let its := os_walk not_hidden [] t in
  StronglySorted (fun a b => String.leb a b = true /\ a <> b) dirs.*1
  /\ (forall k, k ∈ dirs.*1 <-> k ∈ item_key <$> its)
  /\ (forall k fs, (k, fs) ∈ dirs ->
        StronglySorted (fun a b => String.leb a b = true) fs
        /\ fs ≡ₚ names_for k its).
Proof.
  cbv zeta. split; [|split].
  - apply strongly_sorted_strict; [|apply dirs_to_pack_of_NoDup].
    unfold dirs_to_pack_of. rewrite <- list_fmap_compose.
    rewrite (list_fmap_ext _ id) by done. rewrite list_fmap_id.
    apply py_sorted_strongly; [apply String.leb_total|apply string_leb_trans].
  - intros k. apply collect_keys.
  - intros k fs Hin. apply collect_dir_files in Hin as ->. split.
    + apply py_sorted_strongly; [apply String.leb_total|apply string_leb_trans].
    + apply sorted_strings_perm.
Qed.

Lemma dirs_to_pack_sorted_witness :
  ("sfx/"%string, ["a.wav"; "b.wav"]%string)
    ∈ dirs_to_pack_of (temp_dirs (collect "in" tree_mixed))
  /\ StronglySorted (fun a b => String.leb a b = true) ["a.wav"; "b.wav"]%string
  /\ ["a.wav"; "b.wav"]%string ≡ₚ names_for "sfx/" (os_walk not_hidden [] tree_mixed).
Proof.
  assert (("sfx/"%string, ["a.wav"; "b.wav"]%string)
            ∈ dirs_to_pack_of (temp_dirs (collect "in" tree_mixed))) as Hin.
  { vm_compute. apply list_elem_of_In. right. left. reflexivity. }
  split; [exact Hin|].
  exact (proj2 (proj2 (dirs_to_pack_sorted "in" tree_mixed)) _ _ Hin).
Defined.

(** ** repack_pkr.py: the layout and the archive *)

Lemma records_of_app a b : records_of (a ++ b) = records_of a + records_of b.
Proof.
  unfold records_of. rewrite fmap_app, concat_app, length_app. lia.
Qed.

Lemma records_of_take_le a dirs : records_of (take a dirs) <= records_of dirs.
Proof.
  rewrite <- (take_drop a dirs) at 2. rewrite records_of_app. lia.
Qed.

Lemma records_of_take_S i k fs dirs :
  dirs !! i = Some (k, fs) ->
  records_of (take (S i) dirs) = records_of (take i dirs) + N.of_nat (length fs).
Proof.
  intros Hi. rewrite (take_S_r _ _ _ Hi), records_of_app.
  unfold records_of at 2. csimpl. rewrite length_app. cbn [length]. lia.
Qed.

Lemma payload_size_perm l1 l2 : l1 ≡ₚ l2 -> payload_size l1 = payload_size l2.
Proof.
  induction 1 as [|x l1 l2 _ IH|x y l|l1 l2 l3 _ IH1 _ IH2];
    cbn [payload_size foldr] in *; [done| |lia|congruence].
  fold (payload_size l1) (payload_size l2). by rewrite IH.
Qed.

Lemma layout_plan_data_offset dirs infos :
  current_data_offset (layout_plan dirs infos)
  = 16 + 40 * N.of_nat (length dirs) + 48 * records_of dirs + payload_size infos.
Proof.
  unfold layout_plan. fold dir_step.
  destruct (dir_step_fold dirs 0 ∅
              (header_size + N.of_nat (length dirs) * dir_entry_size))
    as (offs' & Heq & _).
  rewrite Heq.
  match goal with
  | |- context [foldl ?f (∅, ?c) infos] =>
      assert (Hfold : forall l fdo c',
                 (foldl f (fdo, c') l).2 = c' + payload_size l)
  end.
  { induction l as [|x l IH]; intros fdo c'; cbn [foldl payload_size foldr].
    - cbn [snd]. lia.
    - rewrite IH. fold (payload_size l). lia. }
  match goal with
  | |- context [foldl ?f (∅, ?c) infos] =>
      specialize (Hfold infos ∅ c); destruct (foldl f (∅, c) infos) as [fdo cdo]
  end.
  cbn [current_data_offset snd] in *. rewrite Hfold.
  unfold header_size, dir_entry_size. lia.
Qed.

(** X5: the layout places the file tables one after the other behind the
    directory table: each of them, the only one of a tree with a single
    directory included, starts at or after byte 16 + 40 n and ends at or
    before the offset planned for the payloads; each ends where the next
    one starts or before; the file tables take 48 bytes for each
    collected file, and the offset after the last payload is the sum of
    the four parts. *)
Theorem file_tables_do_not_overlap (input_dir : string) (t : node) :
  let st := collect input_dir t in
  let dirs := dirs_to_pack_of (temp_dirs st) in
  let lay := layout_plan dirs (py_sorted info_key_leb (all_files_info st)) in
  let tables_start := 16 + 40 * N.of_nat (length dirs) in
  total_file_tables_size lay = 48 * total_file_count st
  /\ current_data_offset lay
     = tables_start + 48 * total_file_count st + payload_size (all_files_info st)
  /\ (forall i k fs,
        dirs !! i = Some (k, fs) ->
        exists o,
          dir_offsets lay !! k = Some o
          /\ tables_start <= o
          /\ o + 48 * N.of_nat (length fs)
             <= tables_start + total_file_tables_size lay)
  /\ forall i j ki fi kj fj,
       (i < j)%nat -> dirs !! i = Some (ki, fi) -> dirs !! j = Some (kj, fj) ->
       exists oi oj,
         dir_offsets lay !! ki = Some oi /\ dir_offsets lay !! kj = Some oj
         /\ tables_start <= oi
         /\ oi + 48 * N.of_nat (length fi) <= oj
         /\ oj + 48 * N.of_nat (length fj)
            <= tables_start + total_file_tables_size lay.
Proof.
  cbv zeta. destruct (collect_counts input_dir t) as [_ Hrec].
  set (st := collect input_dir t) in *.
  set (dirs := dirs_to_pack_of (temp_dirs st)) in *.
  set (infos := py_sorted info_key_leb (all_files_info st)).
  destruct (layout_plan_dirs dirs infos) as (Htot & _ & Hoff & _).
  pose proof (dirs_to_pack_of_NoDup (temp_dirs st)) as Hnd. fold dirs in Hnd.
  split; [by rewrite Htot, Hrec|]. split; [|split].
  - rewrite layout_plan_data_offset, Hrec. f_equal.
    apply payload_size_perm, py_sorted_perm.
  - intros i k fs Hi.
    exists (16 + 40 * N.of_nat (length dirs) + 48 * records_of (take i dirs)).
    split; [by apply (Hoff i k fs)|]. rewrite Htot.
    pose proof (records_of_take_S i k fs dirs Hi) as HSi.
    pose proof (records_of_take_le (S i) dirs) as Hend.
    split; lia.
  - intros i j ki fi kj fj Hij Hi Hj.
    exists (16 + 40 * N.of_nat (length dirs) + 48 * records_of (take i dirs)),
           (16 + 40 * N.of_nat (length dirs) + 48 * records_of (take j dirs)).
    split; [by apply (Hoff i ki fi)|]. split; [by apply (Hoff j kj fj)|].
    rewrite Htot.
    pose proof (records_of_take_S i ki fi dirs Hi) as HSi.
    pose proof (records_of_take_S j kj fj dirs Hj) as HSj.
    pose proof (records_of_take_le (S j) dirs) as Hend.
    pose proof (records_of_take_le (S i) (take j dirs)) as Hmid.
    rewrite take_take in Hmid. replace (S i `min` j)%nat with (S i) in Hmid by lia.
    split; [lia|]. split; lia.
Qed.

Lemma file_tables_do_not_overlap_witness :
  (let st := collect "in" tree_one_file in
   let dirs := dirs_to_pack_of (temp_dirs st) in
   let lay := layout_plan dirs (py_sorted info_key_leb (all_files_info st)) in
   exists o,
     dir_offsets lay !! "/"%string = Some o
     /\ 16 + 40 * N.of_nat (length dirs) <= o
     /\ o + 48 * N.of_nat (length ["a.bin"%string])
        <= 16 + 40 * N.of_nat (length dirs) + total_file_tables_size lay)
  /\ (let st := collect "in" tree_mixed in
      let dirs := dirs_to_pack_of (temp_dirs st) in
      let lay := layout_plan dirs (py_sorted info_key_leb (all_files_info st)) in
      exists oi oj,
        dir_offsets lay !! "/"%string = Some oi
        /\ dir_offsets lay !! "sfx/"%string = Some oj
        /\ 16 + 40 * N.of_nat (length dirs) <= oi
        /\ oi + 48 * N.of_nat (length ["readme"%string]) <= oj
        /\ oj + 48 * N.of_nat (length ["a.wav"; "b.wav"]%string)
           <= 16 + 40 * N.of_nat (length dirs) + total_file_tables_size lay).
Proof.
  cbv zeta. split.
  - apply (proj1 (proj2 (proj2 (file_tables_do_not_overlap "in" tree_one_file)))
             0%nat "/"%string ["a.bin"%string]).
    vm_compute. reflexivity.
  - apply (proj2 (proj2 (proj2 (file_tables_do_not_overlap "in" tree_mixed)))
             0%nat 1%nat "/"%string ["readme"%string]
             "sfx/"%string ["a.wav"; "b.wav"]%string).
    + lia.
    + vm_compute. reflexivity.
    + vm_compute. reflexivity.
Defined.

(** X6: when the output file can be opened, [repack_pkr] leaves a file of
    exactly 16 + 40 n bytes for the n directories of [dirs_to_pack]: a
    header that holds the magic number, the version, n and the number of
    collected files (both taken to fit in 32 bits), and the directory
    table.  No file record and no payload follows, and the contents of
    the input files play no part in the result. *)
Theorem repack_pkr_archive (reread : string -> option bytes)
    (input_dir : string) (t : node) :
  let st := collect input_dir t in
  let dirs := dirs_to_pack_of (temp_dirs st) in
  N.of_nat (length dirs) < 2 ^ 32 ->
  total_file_count st < 2 ^ 32 ->
  exists archive,
    (repack_pkr reread true input_dir t).2 = Some archive
    /\ N.of_nat (length archive) = 16 + 40 * N.of_nat (length dirs)
    /\ u32_at archive 0 = PKR_MAGIC
    /\ u32_at archive 4 = PKR_VERSION
    /\ u32_at archive 8 = N.of_nat (length dirs)
    /\ u32_at archive 12 = total_file_count st
    /\ forall reread', repack_pkr reread' true input_dir t
                       = repack_pkr reread true input_dir t.
Proof.
  cbv zeta. intros Hdirs Hcount.
  rewrite repack_pkr_spec. eexists. split; [reflexivity|].
  split; [|split; [|split; [|split; [|split]]]].
  - rewrite length_app, length_header_bytes, length_dir_table_bytes. lia.
  - unfold header_bytes. rewrite <- !app_assoc.
    exact (u32_at_app [] _ PKR_MAGIC).
  - unfold header_bytes. rewrite <- !app_assoc.
    exact (u32_at_app (le32 PKR_MAGIC) _ PKR_VERSION).
  - unfold header_bytes. rewrite <- !app_assoc.
    rewrite (app_assoc (le32 PKR_MAGIC) (le32 PKR_VERSION)).
    rewrite <- (N.mod_small _ _ Hdirs) at 2.
    exact (u32_at_app (le32 PKR_MAGIC ++ le32 PKR_VERSION) _ _).
  - unfold header_bytes. rewrite <- !app_assoc.
    rewrite (app_assoc (le32 PKR_MAGIC) (le32 PKR_VERSION)).
    rewrite (app_assoc (le32 PKR_MAGIC ++ le32 PKR_VERSION)).
    rewrite <- (N.mod_small _ _ Hcount) at 2.
    exact (u32_at_app ((le32 PKR_MAGIC ++ le32 PKR_VERSION) ++ le32 _) _ _).
  - intros reread'. by rewrite repack_pkr_spec.
Qed.

Lemma repack_pkr_archive_witness :
  exists archive,
    (repack_pkr (fun _ => None) true "in" tree_mixed).2 = Some archive
    /\ N.of_nat (length archive)
       = 16 + 40 * N.of_nat (length (dirs_to_pack_of
                                       (temp_dirs (collect "in" tree_mixed))))
    /\ u32_at archive 0 = PKR_MAGIC
    /\ u32_at archive 4 = PKR_VERSION
    /\ u32_at archive 8
       = N.of_nat (length (dirs_to_pack_of (temp_dirs (collect "in" tree_mixed))))
    /\ u32_at archive 12 = total_file_count (collect "in" tree_mixed)
    /\ forall reread', repack_pkr reread' true "in" tree_mixed
                       = repack_pkr (fun _ => None) true "in" tree_mixed.
Proof.
  apply (repack_pkr_archive (fun _ => None) "in" tree_mixed).
  - vm_compute. reflexivity.
  - vm_compute. reflexivity.
Defined.

(** ** extract_pkr.py: truncated archives *)

Section ExtractMore.
Context {FS : Type} `{FileSystem FS}.
Variable data : bytes.

Lemma read_dir_entries_fail n (st : xstate FS) :
  x_pos st <= N.of_nat (length data) ->
  N.of_nat (length data) < x_pos st + 40 * N.of_nat n ->
  exists p, read_dir_entries data n st = (st_at p st, inl StructError).
Proof.
  revert st. induction n as [|n IH]; intros st Hpos Hlt; [lia|].
  cbn [read_dir_entries]. unfold bind at 1.
  destruct (N.le_gt_cases (x_pos st + 32) (N.of_nat (length data))) as [H1|H1];
    [|destruct (read_string_fail data 32 st) as [p ->]; [lia|simpl; lia|by eexists]].
  rewrite read_string_ok by (simpl; lia).
  unfold bind at 1.
  match goal with |- context [read32 data ?s] => set (s1 := s) end.
  destruct (N.le_gt_cases (x_pos s1 + 4) (N.of_nat (length data))) as [H2|H2];
    [|destruct (read32_fail data s1 H2) as [p ->]; by eexists].
  rewrite read32_ok by done.
  unfold bind at 1.
  match goal with |- context [read32 data ?s] => set (s2 := s) end.
  destruct (N.le_gt_cases (x_pos s2 + 4) (N.of_nat (length data))) as [H3|H3];
    [|destruct (read32_fail data s2 H3) as [p ->]; by eexists].
  rewrite read32_ok by done.
  unfold bind at 1.
  match goal with |- context [read_dir_entries data n ?s] => set (s3 := s) end.
  destruct (IH s3) as [p Hp].
  - subst s1 s2 s3. cbn [x_pos st_at] in *. lia.
  - subst s1 s2 s3. cbn [x_pos st_at] in *. lia.
  - rewrite Hp. by exists p.
Qed.

Lemma extract_file_entry_short_fs name dir j (st : xstate FS) :
  N.of_nat (length data) < x_pos st + 48 ->
  exists st', extract_file_entry data name dir j st = (st', inl StructError)
              /\ x_fs st' = x_fs st.
Proof.
  intros Hlt. unfold extract_file_entry.
  unfold bind at 1.
  destruct (N.le_gt_cases (x_pos st + 32) (N.of_nat (length data))) as [H1|H1];
    [|destruct (read_string_fail data 32 st) as [p ->];
      [lia|simpl; lia|by eexists]].
  rewrite read_string_ok by (simpl; lia).
  unfold bind at 1.
  match goal with |- context [read32 data ?s] => set (s1 := s) end.
  destruct (N.le_gt_cases (x_pos s1 + 4) (N.of_nat (length data))) as [H2|H2];
    [|destruct (read32_fail data s1 H2) as [p ->]; by eexists].
  rewrite read32_ok by done.
  unfold bind at 1. rewrite when_warn.
  unfold bind at 1.
  match goal with |- context [read32 data ?s] => set (s2 := s) end.
  destruct (N.le_gt_cases (x_pos s2 + 4) (N.of_nat (length data))) as [H3|H3];
    [|destruct (read32_fail data s2 H3) as [p ->]; by eexists].
  rewrite read32_ok by done.
  unfold bind at 1.
  match goal with |- context [read32 data ?s] => set (s3 := s) end.
  destruct (N.le_gt_cases (x_pos s3 + 4) (N.of_nat (length data))) as [H4|H4];
    [|destruct (read32_fail data s3 H4) as [p ->]; by eexists].
  rewrite read32_ok by done.
  unfold bind at 1.
  match goal with |- context [read32 data ?s] => set (s4 := s) end.
  destruct (N.le_gt_cases (x_pos s4 + 4) (N.of_nat (length data))) as [H5|H5];
    [|destruct (read32_fail data s4 H5) as [p ->]; by eexists].
  exfalso. subst s1 s2 s3 s4. cbn [x_pos st_at] in *. lia.
Qed.

Lemma for_each_entries_ok name dir (js : list nat) (st : xstate FS) :
  x_pos st + 48 * N.of_nat (length js) <= N.of_nat (length data) ->
  for_each js (extract_file_entry data name dir) st
  = (table_result data name dir (length js) st, inr tt).
Proof.
  revert st. induction js as [|j js IH]; intros st Hle; [done|].
  cbn [for_each length]. unfold bind at 1.
  rewrite extract_file_entry_ok by (cbn [length] in Hle; lia).
  rewrite IH by (cbn [length entry_result x_pos] in *; lia).
  unfold table_result. by rewrite Nat.iter_succ, Nat.iter_swap.
Qed.

Lemma x_pos_table_result name dir n (st : xstate FS) :
  x_pos (table_result data name dir n st) = x_pos st + 48 * N.of_nat n.
Proof.
  induction n as [|n IH]; [cbn; lia|].
  unfold table_result in *. rewrite Nat.iter_succ. unfold entry_result at 1.
  cbn [x_pos]. rewrite IH. lia.
Qed.

(** X7: a file table that is cut short: when the data end inside the
    record of rank [j], the [j] records before it are processed as usual
    (their files are written) and the loop then stops on the error of the
    binary read; the record that is cut creates no file. *)
Theorem file_table_cut_short (name dir : string) (count j : nat) (st : xstate FS) :
  (j < count)%nat ->
  x_pos st + 48 * N.of_nat j <= N.of_nat (length data) ->
  N.of_nat (length data) < x_pos st + 48 * N.of_nat (S j) ->
  exists st',
    for_range count (extract_file_entry data name dir) st = (st', inl StructError)
    /\ x_fs st' = x_fs (table_result data name dir j st).
Proof.
  intros Hj Hle Hlt. replace count with (j + S (count - S j))%nat by lia.
  rewrite for_range_split. unfold bind at 1. unfold for_range.
  pose proof (for_each_entries_ok name dir (seq 0 j) st) as Hok.
  rewrite length_seq in Hok. rewrite Hok by done.
  cbn [seq for_each]. unfold bind at 1.
  destruct (extract_file_entry_short_fs name dir j (table_result data name dir j st))
    as (st' & -> & Hfs).
  { rewrite x_pos_table_result. lia. }
  by exists st'.
Qed.
End ExtractMore.

Lemma short_header_result {FS : Type} `{FileSystem FS}
    (pkr_file_path : string) (data : bytes) (base : string) (fs : FS) :
  N.of_nat (length data) < 16 ->
  extract_pkr pkr_file_path (Some data) base fs
  = {| x_returned := false; x_caught := Some StructError;
       x_tree := fs; x_warnings := [] |}.
Proof.
  intros Hlen. unfold extract_pkr.
  set (st0 := {| x_pos := 0; x_fs := fs; x_log := [] |}).
  assert (exists q, extract_body data base st0 = (st_at q st0, inl StructError))
    as [q ->]; [|done].
  unfold extract_body. unfold bind at 1.
  destruct (N.le_gt_cases (x_pos st0 + 4) (N.of_nat (length data))) as [H1|H1];
    [|destruct (read32_fail data st0 H1) as [p ->]; by eexists].
  rewrite read32_ok by done.
  unfold bind at 1.
  match goal with |- context [read32 data ?s] => set (s1 := s) end.
  destruct (N.le_gt_cases (x_pos s1 + 4) (N.of_nat (length data))) as [H2|H2];
    [|destruct (read32_fail data s1 H2) as [p ->]; by eexists].
  rewrite read32_ok by done.
  unfold bind at 1.
  match goal with |- context [read32 data ?s] => set (s2 := s) end.
  destruct (N.le_gt_cases (x_pos s2 + 4) (N.of_nat (length data))) as [H3|H3];
    [|destruct (read32_fail data s2 H3) as [p ->]; by eexists].
  rewrite read32_ok by done.
  unfold bind at 1.
  match goal with |- context [read32 data ?s] => set (s3 := s) end.
  destruct (N.le_gt_cases (x_pos s3 + 4) (N.of_nat (length data))) as [H4|H4];
    [|destruct (read32_fail data s3 H4) as [p ->]; by eexists].
  exfalso. subst s1 s2 s3 st0. cbn [x_pos st_at] in *. lia.
Qed.

(** X8: an archive shorter than its 16-byte header: the call returns
    [False] on the error of the binary read, before anything is created
    or printed: the output tree is untouched, the output directory itself
    included. *)
Theorem extract_short_header {FS : Type} `{FileSystem FS}
    (pkr_file_path : string) (data : bytes) (base : string) (fs : FS) :
  N.of_nat (length data) < 16 ->
  extract_pkr pkr_file_path (Some data) base fs
  = {| x_returned := false; x_caught := Some StructError;
       x_tree := fs; x_warnings := [] |}.
Proof. apply short_header_result. Qed.

Lemma extract_short_header_witness :
  extract_pkr "x.pkr" (Some [x50; x4b; x52]) "out" sf_empty
  = {| x_returned := false; x_caught := Some StructError;
       x_tree := sf_empty; x_warnings := [] |}.
Proof.
  apply (extract_short_header "x.pkr" [x50; x4b; x52] "out" sf_empty).
  vm_compute. reflexivity.
Defined.

Lemma file_table_cut_short_witness :
  exists st',
    for_range 2 (extract_file_entry archive_cut_table "/" "out")
      {| x_pos := 56; x_fs := sf_empty; x_log := [] |} = (st', inl StructError)
    /\ x_fs st'
       = x_fs (table_result archive_cut_table "/" "out" 1
                 {| x_pos := 56; x_fs := sf_empty; x_log := [] |}).
Proof.
  apply (file_table_cut_short archive_cut_table "/" "out" 2 1
           {| x_pos := 56; x_fs := sf_empty; x_log := [] |}).
  - lia.
  - vm_compute. discriminate.
  - vm_compute. reflexivity.
Defined.

(** X9: the directory table is read as a whole before anything is
    extracted: when the data hold the header but end before the last of
    the announced directory entries, the call returns [False] on the
    error of the binary read, and all it has done is to create the output
    directory and, for a wrong magic number or version, to print the
    warning. *)
Theorem extract_truncated_dir_table {FS : Type} `{FileSystem FS}
    (pkr_file_path : string) (data : bytes) (base : string) (fs fs' : FS) :
  16 <= N.of_nat (length data) ->
  N.of_nat (length data) < 16 + 40 * u32_at data 8 ->
  makedirs base fs = Some fs' ->
  extract_pkr pkr_file_path (Some data) base fs
  = {| x_returned := false; x_caught := Some StructError; x_tree := fs';
       x_warnings :=
         if negb (u32_at data 0 =? 0x32524B50) || negb (u32_at data 4 =? 1)
         then [UnexpectedMagicVersion (u32_at data 0) (u32_at data 4)]
         else [] |}.
Proof.
  intros H16 Hlt Hmk. unfold extract_pkr, extract_body.
  unfold bind at 1. rewrite read32_ok by (cbn [x_pos]; lia).
  unfold bind at 1. rewrite read32_ok by (cbn [x_pos st_at]; lia).
  unfold bind at 1. rewrite read32_ok by (cbn [x_pos st_at]; lia).
  unfold bind at 1. rewrite read32_ok by (cbn [x_pos st_at]; lia).
  unfold bind at 1. rewrite when_warn.
  cbn [x_pos st_at x_fs x_log]. change (0 + 4 + 4) with 8. change (0 + 4) with 4.
  unfold bind at 1. unfold do_makedirs at 1. cbn [x_fs x_pos x_log]. rewrite Hmk.
  unfold bind at 1.
  match goal with |- context [read_dir_entries data ?n ?s] =>
    destruct (read_dir_entries_fail data n s) as [p ->]
  end.
  - cbn [x_pos]. lia.
  - cbn [x_pos]. rewrite N2Nat.id. lia.
  - cbn [st_at x_fs x_log app]. reflexivity.
Qed.

Lemma extract_truncated_dir_table_witness :
  extract_pkr "x.pkr" (Some archive_header_only) "out" sf_empty
  = {| x_returned := false; x_caught := Some StructError;
       x_tree := {| sf_dirs := {["out"%string]} ∪ ∅; sf_files := ∅ |};
       x_warnings := [] |}.
Proof.
  apply (extract_truncated_dir_table "x.pkr" archive_header_only "out" sf_empty
           {| sf_dirs := {["out"%string]} ∪ ∅; sf_files := ∅ |}).
  - vm_compute. discriminate.
  - vm_compute. reflexivity.
  - reflexivity.
Defined.

(** ** extract_pkr.py: where the output goes *)

Lemma split_slash_parts s :
  Forall (fun part => startswith_slash part = false) (split_slash s).
Proof.
  induction s as [|c s IH]; [by repeat constructor|].
  cbn [split_slash]. destruct (Ascii.eqb c "/") eqn:Hc.
  - by constructor.
  - destruct (split_slash s) as [|h t]; [by repeat constructor|].
    apply Forall_cons in IH as [_ IH]. by constructor.
Qed.

Lemma string_prefix_refl a : string_prefix a a.
Proof.
  exists EmptyString. induction a as [|c a IH]; [done|].
  rewrite string_app_cons. by rewrite <- IH.
Qed.

Lemma string_prefix_app a b c : string_prefix a b -> string_prefix a (b +:+ c).
Proof. intros [r ->]. exists (r +:+ c). by rewrite string_app_assoc. Qed.

Lemma path_join_prefix a b :
  startswith_slash b = false -> string_prefix a (path_join a b).
Proof.
  intros Hb. unfold path_join. rewrite Hb.
  destruct (_ || _); [by eexists|].
  by exists ("/" +:+ b).
Qed.

Lemma path_join_all_prefix a parts :
  Forall (fun part => startswith_slash part = false) parts ->
  string_prefix a (path_join_all a parts).
Proof.
  revert a. induction parts as [|x parts IH]; intros a Hparts.
  - apply string_prefix_refl.
  - apply Forall_cons in Hparts as [Hx Hparts]. cbn [path_join_all foldl].
    destruct (path_join_prefix a x Hx) as [r Hr].
    destruct (IH (path_join a x) Hparts) as [r' Hr'].
    exists (r +:+ r'). unfold path_join_all in Hr'. rewrite Hr', Hr.
    by rewrite string_app_assoc.
Qed.

(** X10: whatever name a directory entry holds, the directory created for
    it has a path that begins with the output directory: the name is cut
    at the slashes and the empty parts are dropped, so that no part is an
    absolute path, and a name made of slashes only is the output
    directory itself. *)
Theorem export_path_below_base (base name : string) :
  string_prefix base (export_path base name)
  /\ export_path base "/" = base
  /\ export_path base EmptyString = base.
Proof.
  split; [|split; reflexivity].
  unfold export_path. apply path_join_all_prefix.
  apply Forall_forall. intros part Hpart.
  apply list_elem_of_filter in Hpart as [_ Hpart].
  by apply (proj1 (Forall_forall _ _) (split_slash_parts name)).
Qed.

(** X11: the name of a file record is joined to the directory path as
    [os.path.join] does, and is not checked: for a record whose name
    begins with a slash the file is opened at that very path, whatever
    the output directory and the directory entry are. *)
Theorem absolute_file_name_escapes {FS : Type} `{FileSystem FS}
    (data : bytes) (name dir : string) (j : nat) (st : xstate FS) (fs1 : FS) :
  x_pos st + 48 <= N.of_nat (length data) ->
  let file_name := fe_name data (x_pos st) in
  startswith_slash file_name = true ->
  open_wb file_name (x_fs st) = Some fs1 ->
  exists st',
    extract_file_entry data name dir j st = (st', inr tt)
    /\ x_fs st'
       = fs_write file_name
           (slice data (fe_offset data (x_pos st)) (fe_size1 data (x_pos st))) fs1.
Proof.
  intros Hle file_name Habs Hopen. eexists. split.
  - by apply extract_file_entry_ok.
  - cbn [entry_result x_fs]. unfold entry_fs. cbv zeta.
    fold file_name. unfold path_join. rewrite Habs, Hopen. reflexivity.
Qed.

Lemma absolute_file_name_escapes_witness :
  exists st',
    extract_file_entry entry_absolute "audio/" "out/audio" 0 xstate0 = (st', inr tt)
    /\ x_fs st'
       = fs_write "/tmp/x" [x0a; x0b]
           {| sf_dirs := ∅; sf_files := <["/tmp/x"%string := []]> ∅ |}.
Proof.
  apply (absolute_file_name_escapes entry_absolute "audio/" "out/audio" 0 xstate0
           {| sf_dirs := ∅; sf_files := <["/tmp/x"%string := []]> ∅ |}).
  - vm_compute. discriminate.
  - vm_compute. reflexivity.
  - vm_compute. reflexivity.
Defined.

(** X12: a directory name survives the trip through the archive: for a
    directory whose path components are not empty, not hidden and free of
    separators and null characters, and whose canonical name fits in 32
    bytes, the 32-byte field that [repack_pkr] writes is read back as the
    canonical name, and the directory created for it is the same path
    below the output directory. *)
Theorem dir_name_roundtrip (base : string) (root : list string) (pre post : bytes) :
  Forall (fun c => name_ok c = true) root ->
  (String.length (pkr_dir_name_of root) <= 32)%nat ->
  let field := string_field (pkr_dir_name_of root) 32 in
  let name := str_at (pre ++ field ++ post) (N.of_nat (length pre)) 32 in
  name = pkr_dir_name_of root
  /\ export_path base name = path_join_all base root.
Proof.
  intros Hroot Hlen. cbv zeta.
  rewrite str_at_string_field by (by try apply no_nul_pkr_dir_name).
  split; [done|]. unfold export_path.
  by rewrite path_parts_of_pkr_dir_name.
Qed.

Lemma dir_name_roundtrip_witness :
  let field := string_field (pkr_dir_name_of ["audio"; "sfx"]%string) 32 in
  let name := str_at ([x01] ++ field ++ [x02]) (N.of_nat (length [x01])) 32 in
  name = pkr_dir_name_of ["audio"; "sfx"]%string
  /\ export_path "out" name = path_join_all "out" ["audio"; "sfx"]%string.
Proof.
  apply (dir_name_roundtrip "out" ["audio"; "sfx"]%string [x01] [x02]).
  - repeat constructor.
  - vm_compute. lia.
Defined.

(** ** extract_pkr.py: navigable archives *)

Lemma extract_dir_spec {FS : Type} `{FileSystem FS} (data : bytes) (base : string)
    (e : dir_entry) (st : xstate FS) :
  table_in_bounds data e = true ->
  extract_dir data base e st = dir_result data base e st.
Proof.
  intros Hb. unfold extract_dir, dir_result. cbv zeta. fold (export_path base (de_name e)).
  unfold bind at 1. unfold do_makedirs at 1.
  destruct (makedirs (export_path base (de_name e)) (x_fs st)) as [fs'|]; [|done].
  unfold bind at 1. unfold f_tell at 1. cbn [x_pos].
  unfold bind at 1. unfold f_seek at 1, modify at 1. cbn [x_pos x_fs x_log].
  unfold for_range.
  destruct (N.to_nat (de_count e)) as [|n] eqn:Hn; [reflexivity|].
  pose proof (for_each_entries_ok data (de_name e) (export_path base (de_name e))
                (seq 0 (S n))
                {| x_pos := de_offset e; x_fs := fs'; x_log := x_log st |}) as Hok.
  rewrite length_seq in Hok. apply Hok. cbn [x_pos].
  unfold table_in_bounds in Hb. apply orb_true_iff in Hb as [Hz|Hle].
  - apply N.eqb_eq in Hz. rewrite Hz in Hn. discriminate Hn.
  - apply N.leb_le in Hle. lia.
Qed.

Lemma extract_pkr_navigable_run {FS : Type} `{FileSystem FS}
    (pkr_file_path : string) (data : bytes) (base : string) (fs fs' : FS)
    (st : xstate FS) (r : exn + unit) :
  navigable data = true ->
  makedirs base fs = Some fs' ->
  let num_dir := u32_at data 8 in
  let start :=
    {| x_pos := 16 + 40 * num_dir; x_fs := fs';
       x_log :=
         if negb (u32_at data 0 =? 0x32524B50) || negb (u32_at data 4 =? 1)
         then [UnexpectedMagicVersion (u32_at data 0) (u32_at data 4)]
         else [] |} in
  for_each (dir_entries_at data 16 (N.to_nat num_dir)) (dir_result data base) start
  = (st, r) ->
  extract_pkr pkr_file_path (Some data) base fs
  = {| x_returned := match r with inl _ => false | inr _ => true end;
       x_caught := match r with inl e => Some e | inr _ => None end;
       x_tree := x_fs st; x_warnings := x_log st |}.
Proof.
  intros Hnav Hmk. cbv zeta. intros Hrun.
  unfold navigable in Hnav. cbv zeta in Hnav.
  apply andb_true_iff in Hnav as [Hnav Htabs].
  apply andb_true_iff in Hnav as [H16 Hdirs].
  apply N.leb_le in H16, Hdirs. rewrite forallb_forall in Htabs.
  unfold extract_pkr, extract_body.
  unfold bind at 1. rewrite read32_ok by (cbn [x_pos]; lia).
  unfold bind at 1. rewrite read32_ok by (cbn [x_pos st_at]; lia).
  unfold bind at 1. rewrite read32_ok by (cbn [x_pos st_at]; lia).
  unfold bind at 1. rewrite read32_ok by (cbn [x_pos st_at]; lia).
  unfold bind at 1. rewrite when_warn.
  cbn [x_pos st_at x_fs x_log]. change (0 + 4 + 4) with 8. change (0 + 4) with 4.
  unfold bind at 1. unfold do_makedirs at 1. cbn [x_fs x_pos x_log]. rewrite Hmk.
  unfold bind at 1. rewrite read_dir_entries_ok by (cbn [x_pos]; lia).
  unfold st_at. cbn [x_pos x_fs x_log app]. rewrite N2Nat.id.
  change (8 + 4 + 4) with 16.
  assert (forall l (s : xstate FS),
             Forall (fun e => table_in_bounds data e = true) l ->
             for_each l (extract_dir data base) s
             = for_each l (dir_result data base) s) as Hfor.
  { induction l as [|e l IH]; intros s Hl; [done|].
    apply Forall_cons in Hl as [He Hl]. cbn [for_each]. unfold bind.
    rewrite extract_dir_spec by done.
    destruct (dir_result data base e s) as [s' [err|[]]]; [done|by apply IH]. }
  rewrite Hfor.
  - rewrite Hrun. by destruct r as [e|[]].
  - apply Forall_forall. intros e He. apply Htabs. by apply list_elem_of_In.
Qed.

(** X13: what [extract_pkr] does on a structurally navigable archive,
    once the output directory is created: the directory entries are
    handled in the order of the table; for each one the directory is
    created and its records are read one after the other from the offset
    of the entry, 48 bytes each, whatever the position the stream was
    left at; the call returns [False] only if a directory cannot be
    created. *)
Theorem extract_pkr_navigable {FS : Type} `{FileSystem FS}
    (pkr_file_path : string) (data : bytes) (base : string) (fs fs' : FS)
    (st : xstate FS) (r : exn + unit) :
  navigable data = true ->
  makedirs base fs = Some fs' ->
  let num_dir := u32_at data 8 in
  let start :=
    {| x_pos := 16 + 40 * num_dir; x_fs := fs';
       x_log :=
         if negb (u32_at data 0 =? 0x32524B50) || negb (u32_at data 4 =? 1)
         then [UnexpectedMagicVersion (u32_at data 0) (u32_at data 4)]
         else [] |} in
  for_each (dir_entries_at data 16 (N.to_nat num_dir)) (dir_result data base) start
  = (st, r) ->
  extract_pkr pkr_file_path (Some data) base fs
  = {| x_returned := match r with inl _ => false | inr _ => true end;
       x_caught := match r with inl e => Some e | inr _ => None end;
       x_tree := x_fs st; x_warnings := x_log st |}.
Proof.
  intros Hnav Hmk. cbv zeta. intros Hrun.
  by apply (extract_pkr_navigable_run pkr_file_path data base fs fs' st r).
Qed.

Lemma extract_pkr_navigable_witness :
  extract_pkr "x.pkr" (Some archive_audio) "out" sf_empty
  = {| x_returned := true; x_caught := None;
       x_tree :=
         {| sf_dirs := {["out/audio"%string]} ∪ ({["out"%string]}
                       ∪ ({["out"%string]} ∪ ∅));
            sf_files :=
              <["out/audio/b.bin"%string := []]>
                (<["out/audio/b.bin"%string := []]>
                   (<["out/audio/a.bin"%string := [x01; x02; x03]]>
                      (<["out/audio/a.bin"%string := []]> ∅))) |};
       x_warnings := [] |}.
Proof.
  apply (extract_pkr_navigable "x.pkr" archive_audio "out" sf_empty
           {| sf_dirs := {["out"%string]} ∪ ∅; sf_files := ∅ |}
           {| x_pos := 192;
              x_fs :=
                {| sf_dirs := {["out/audio"%string]} ∪ ({["out"%string]}
                              ∪ ({["out"%string]} ∪ ∅));
                   sf_files :=
                     <["out/audio/b.bin"%string := []]>
                       (<["out/audio/b.bin"%string := []]>
                          (<["out/audio/a.bin"%string := [x01; x02; x03]]>
                             (<["out/audio/a.bin"%string := []]> ∅))) |};
              x_log := [] |} (inr tt)).
  - vm_compute. reflexivity.
  - reflexivity.
  - vm_compute. reflexivity.
Defined.

(** C8: [extract_pkr] always returns a boolean, [False] exactly when one
    of its handlers caught an exception.  On a structurally navigable
    archive, whatever its magic, version, markers, second sizes and
    payload offsets, nothing is raised by the parsing: the only exception
    that can end the extraction is the failure of [os.makedirs]; an
    unexpected magic or version only puts its warning in front of the
    others, and the extraction goes on through every directory entry of
    the table and every record of its file table.  A file record is
    handled in the same way whatever it holds: the call returns normally
    and leaves the stream after the record, the file it names is written
    with the bytes obtained, and a marker other than 0xFFFFFFFE, two
    sizes that differ and a payload shorter than the first size each add
    their warning and change nothing else. *)
Theorem extract_pkr_lenient {FS : Type} `{FileSystem FS}
    (pkr_file_path : string) (input : option bytes) (output_base_dir : string)
    (fs : FS) :
  let r := extract_pkr pkr_file_path input output_base_dir fs in
  (x_returned r = true <-> x_caught r = None)
  /\ (forall data, input = Some data -> navigable data = true ->
        (x_caught r = None \/ exists p, x_caught r = Some (OSError p))
        /\ forall fs' st res,
             makedirs output_base_dir fs = Some fs' ->
             for_each (dir_entries_at data 16 (N.to_nat (u32_at data 8)))
               (dir_result data output_base_dir)
               {| x_pos := 16 + 40 * u32_at data 8; x_fs := fs';
                  x_log :=
                    if negb (u32_at data 0 =? 0x32524B50)
                       || negb (u32_at data 4 =? 1)
                    then [UnexpectedMagicVersion (u32_at data 0) (u32_at data 4)]
                    else [] |}
             = (st, res) ->
             r = {| x_returned := match res with inl _ => false | inr _ => true end;
                    x_caught := match res with inl e => Some e | inr _ => None end;
                    x_tree := x_fs st; x_warnings := x_log st |})
  /\ (forall data name dir j (st : xstate FS),
        x_pos st + 48 <= N.of_nat (length data) ->
        let pos := x_pos st in
        let file_name := fe_name data pos in
        let path := path_join dir file_name in
        let payload := slice data (fe_offset data pos) (fe_size1 data pos) in
        extract_file_entry data name dir j st
        = ({| x_pos := pos + 48;
              x_fs := match open_wb path (x_fs st) with
                      | Some fs1 => fs_write path payload fs1
                      | None => x_fs st
                      end;
              x_log := x_log st
                       ++ (if fe_unk1 data pos =? 0xFFFFFFFE then []
                           else [UnexpectedUnk1 (fe_unk1 data pos) file_name name])
                       ++ (if fe_size1 data pos =? fe_size2 data pos then []
                           else [SizeMismatch (fe_size1 data pos)
                                   (fe_size2 data pos) file_name name])
                       ++ match open_wb path (x_fs st) with
                          | Some _ =>
                              if N.of_nat (length payload) =? fe_size1 data pos
                              then []
                              else [ShortRead (N.of_nat (length payload))
                                      (fe_size1 data pos) path]
                          | None => [ErrorWritingFile path]
                          end |}, inr tt)).
Proof.
  cbv zeta. split; [|split].
  - unfold extract_pkr. destruct input as [data|]; [|done].
    by destruct (extract_body _ _ _) as [st [e|[]]].
  - intros data -> Hnav. split.
    + unfold extract_pkr.
      pose proof (extract_body_only_oserror data output_base_dir
                    {| x_pos := 0; x_fs := fs; x_log := [] |} Hnav eq_refl) as Hb.
      destruct (extract_body _ _ _) as [st [e|[]]]; cbn [snd x_caught] in *.
      * right. destruct Hb as [p ->]. by exists p.
      * by left.
    + intros fs' st res Hmk Hrun.
      by apply (extract_pkr_navigable_run pkr_file_path data output_base_dir
                  fs fs' st res).
  - intros data name dir j st Hle.
    by rewrite extract_file_entry_ok.
Qed.

Lemma extract_pkr_lenient_witness :
  navigable archive_anomalous = true
  /\ extract_pkr "x.pkr" (Some archive_anomalous) "out" sf_empty
     = {| x_returned := true; x_caught := None;
          x_tree :=
            {| sf_dirs := {["out"%string]} ∪ ({["out"%string]} ∪ ∅);
               sf_files := <["out/a.bin"%string := []]>
                             (<["out/a.bin"%string := []]> ∅) |};
          x_warnings :=
            [UnexpectedMagicVersion 0x12345678 7; UnexpectedUnk1 0 "a.bin" "/";
             SizeMismatch 3 4 "a.bin" "/"; ShortRead 0 3 "out/a.bin"] |}.
Proof.
  assert (navigable archive_anomalous = true) as Hnav by (vm_compute; reflexivity).
  split; [exact Hnav|].
  apply (proj2 (proj1 (proj2 (extract_pkr_lenient "x.pkr" (Some archive_anomalous)
                                "out" sf_empty))
                  archive_anomalous eq_refl Hnav)
           {| sf_dirs := {["out"%string]} ∪ ∅; sf_files := ∅ |}
           {| x_pos := 104;
              x_fs :=
                {| sf_dirs := {["out"%string]} ∪ ({["out"%string]} ∪ ∅);
                   sf_files := <["out/a.bin"%string := []]>
                                 (<["out/a.bin"%string := []]> ∅) |};
              x_log :=
                [UnexpectedMagicVersion 0x12345678 7; UnexpectedUnk1 0 "a.bin" "/";
                 SizeMismatch 3 4 "a.bin" "/"; ShortRead 0 3 "out/a.bin"] |}
           (inr tt)).
  - reflexivity.
  - vm_compute. reflexivity.
Defined.

(** ** adjust_wav_volume.py: what the factor does to the samples *)


Lemma int16_of_bytes_range b0 b1 :
  (int16_min <= int16_of_bytes b0 b1 <= int16_max)%Z.
Proof.
  unfold int16_of_bytes, int16_min, int16_max. cbv zeta.
  pose proof (Byte.to_N_bounded b0). pose proof (Byte.to_N_bounded b1).
  destruct (Z.ltb_spec (Z.of_N (Byte.to_N b0 + 256 * Byte.to_N b1)) 32768); lia.
Qed.

Lemma bytes_of_int16_of_bytes b0 b1 :
  bytes_of_int16 (int16_of_bytes b0 b1) = [b0; b1].
Proof.
  unfold bytes_of_int16, int16_of_bytes. cbv zeta.
  pose proof (Byte.to_N_bounded b0) as H0. pose proof (Byte.to_N_bounded b1) as H1.
  set (u := Byte.to_N b0 + 256 * Byte.to_N b1).
  assert (u < 65536) as Hu by (unfold u; lia).
  assert (Z.to_N ((if (Z.of_N u <? 32768)%Z then Z.of_N u else (Z.of_N u - 65536)%Z)
                  mod 65536) = u) as ->.
  { destruct (Z.ltb_spec (Z.of_N u) 32768).
    - rewrite Z.mod_small by lia. lia.
    - replace (Z.of_N u - 65536)%Z with (Z.of_N u + (-1) * 65536)%Z by lia.
      rewrite Z.mod_add by lia. rewrite Z.mod_small by lia. lia. }
  assert (u / 256 = Byte.to_N b1) as ->.
  { unfold u. rewrite N.mul_comm, N.div_add by lia.
    rewrite N.div_small by lia. lia. }
  f_equal; [|by rewrite byte_of_N_to_N].
  rewrite <- (byte_of_N_to_N b0). unfold byte_of_N. do 2 f_equal.
  unfold u. by rewrite N.mul_comm, N.Div0.mod_add.
Qed.

(** What [np.frombuffer] makes of a buffer it accepts. *)
Lemma frombuffer_int16_spec (frames : bytes) :
  (forall samples, frombuffer_int16 frames = Some samples ->
     Forall (fun s => (int16_min <= s <= int16_max)%Z) samples
     /\ concat (bytes_of_int16 <$> samples) = frames
     /\ length frames = (2 * length samples)%nat)
  /\ (forall b samples, frombuffer_int16 (b :: frames) = Some samples ->
        Forall (fun s => (int16_min <= s <= int16_max)%Z) samples
        /\ concat (bytes_of_int16 <$> samples) = b :: frames
        /\ length (b :: frames) = (2 * length samples)%nat).
Proof.
  induction frames as [|b1 frames [IH1 IH2]].
  - split; [by intros samples [= <-]|]. by intros b samples H.
  - split; [apply IH2|].
    intros b0 samples Hs. cbn [frombuffer_int16] in Hs.
    destruct (frombuffer_int16 frames) as [rest|] eqn:Hrest; [|done].
    injection Hs as <-. destruct (IH1 rest eq_refl) as (Hr & Hc & Hl).
    split; [|split].
    + constructor; [apply int16_of_bytes_range|done].
    + rewrite fmap_cons. cbn [concat]. rewrite Hc, bytes_of_int16_of_bytes. done.
    + cbn [length]. rewrite Hl. lia.
Qed.

Lemma length_bytes_of_samples (l : list Z) :
  length (concat (bytes_of_int16 <$> l)) = (2 * length l)%nat.
Proof.
  induction l as [|z l IH]; [done|].
  rewrite fmap_cons. cbn [concat]. rewrite length_app, IH.
  change (length (bytes_of_int16 z)) with 2%nat. cbn [length]. lia.
Qed.

(** X14: whatever the factor, the frames written have the length of the
    frames read: adjusting a file in place keeps its size. *)
Theorem adjust_volume_keeps_length (params out_params : wav_params)
    (frames out_frames : bytes) (output_ok : bool) (factor : float64) :
  adjust_volume (WavFile params frames) output_ok factor
  = (true, Some (out_params, out_frames)) ->
  length out_frames = length frames.
Proof.
  unfold adjust_volume.
  destruct (negb (String.eqb (comptype params) "NONE")); [done|].
  destruct (frombuffer_int16 frames) as [samples|] eqn:Hs; [|done].
  destruct output_ok; [|done]. intros [= _ <-].
  destruct (proj1 (frombuffer_int16_spec frames) samples Hs) as (_ & _ & ->).
  by rewrite length_bytes_of_samples, length_fmap.
Qed.

Lemma adjust_volume_keeps_length_witness :
  length [x08; x00; x00; x00; x00; x38] = length [x10; x00; xff; xff; x00; x70].
Proof.
  apply (adjust_volume_keeps_length (pcm 2 3) (pcm 2 3)
           [x10; x00; xff; xff; x00; x70] [x08; x00; x00; x00; x00; x38]
           true f64_half).
  vm_compute. reflexivity.
Defined.














(** ** pkr_volume_adjuster_gui.py: the worker *)

Lemma repack_pkr_true reread can_open input_dir t :
  (repack_pkr reread can_open input_dir t).1 = true ->
  can_open = true /\ has_file t = false.
Proof.
  destruct can_open.
  - rewrite repack_pkr_spec. cbv zeta. cbn [fst]. intros Hb.
    apply bool_decide_eq_true in Hb. split; [done|]. by apply collect_no_files in Hb.
  - unfold repack_pkr. cbv zeta. cbn [fst]. done.
Qed.

Section WorkerFacts.
Context {FS : Type} `{FileSystem FS}.
Variables (out_exists rmtree_old_ok : bool) (pkr_path : string)
  (pkr_input : option bytes) (fs0 : FS) (audio_isdir : bool)
  (audio_listing : list string) (wav_at : string -> wav_input)
  (writable : string -> bool) (reread : string -> option bytes)
  (can_open : bool) (out_tree : node) (rmtree_tmp_ok : bool)
  (output_dir : string) (factor : float64).

Let worker : list queue_item :=
  processing_worker out_exists rmtree_old_ok pkr_path pkr_input fs0 audio_isdir
    audio_listing wav_at writable reread can_open out_tree rmtree_tmp_ok
    output_dir factor.

Let pending (q : queue_item) : Prop := is_complete q = false.

Lemma put_queue m c e st :
  result_queue (put m c e st) = result_queue st ++ [(m, c, e)].
Proof. reflexivity. Qed.

Lemma adjust_fold audio_dir total (l : list string) :
  forall i st,
    let st' := foldl (adjust_one wav_at writable factor audio_dir total) st
                     (enumerate_from i l) in
    result_queue st'
    = result_queue st
      ++ ((fun p => (ProcessingWav (p.1 + 1) total p.2, false, false))
            <$> enumerate_from i l)
    /\ processed_count st'
       = (processed_count st
          + length (filter (fun f =>
                      (adjust_volume (wav_at (path_join audio_dir f))
                         (writable (path_join audio_dir f)) factor).1 = true) l))%nat
    /\ (processed_count st' + error_count st'
        = processed_count st + error_count st + length l)%nat.
Proof.
  induction l as [|f l IH]; intros i st; cbv zeta.
  - cbn [enumerate_from foldl fmap list_fmap]. rewrite app_nil_r, filter_nil.
    cbn [length]. split; [done|]. lia.
  - cbn [enumerate_from foldl]. destruct (IH (S i)
      (adjust_one wav_at writable factor audio_dir total st (i, f)))
      as (Hq & Hp & Hc).
    cbv zeta in Hq, Hp, Hc. rewrite Hq, Hp. rewrite Hp in Hc.
    rewrite fmap_cons, filter_cons. cbn [fst snd length].
    unfold adjust_one in *. cbv zeta in *.
    destruct (adjust_volume (wav_at (path_join audio_dir f))
                (writable (path_join audio_dir f)) factor).1 eqn:Hadj;
      cbn [negb result_queue processed_count error_count put] in *.
    + rewrite decide_True by done. cbn [length].
      rewrite <- app_assoc. split; [done|]. lia.
    + rewrite decide_False by done.
      rewrite <- app_assoc. split; [done|]. lia.
Qed.

Lemma adjust_wavs_pending st :
  Forall pending (result_queue st) ->
  Forall pending
    (result_queue (adjust_wavs audio_isdir audio_listing wav_at writable
                     output_dir factor st).1).
Proof.
  intros Hst. unfold adjust_wavs. cbv zeta. destruct audio_isdir; cbn [fst].
  - destruct (filter _ audio_listing) as [|f l] eqn:Hl; cbn [fst].
    + rewrite !put_queue. by repeat (apply Forall_app; split; [|by repeat constructor]).
    + destruct (adjust_fold (path_join output_dir "audio") (length (f :: l)) (f :: l)
                  0%nat (put AdjustingWavVolumes false false st)) as (Hq & _).
      cbv zeta in Hq. rewrite Hq, put_queue.
      apply Forall_app. split.
      * apply Forall_app. split; [done|by repeat constructor].
      * apply Forall_fmap, Forall_forall. by intros p _.
  - rewrite put_queue. apply Forall_app. split; [done|by repeat constructor].
Qed.

Lemma worker_prefix_pending :
  Forall pending
    (result_queue
       (put ExtractingPKR false false
          (if out_exists then
             if rmtree_old_ok then
               put RemovingExisting false false
                 {| result_queue := []; processed_count := 0; error_count := 0 |}
             else put WarnRemoveOldFailed false true
                    (put RemovingExisting false false
                       {| result_queue := []; processed_count := 0;
                          error_count := 0 |})
           else {| result_queue := []; processed_count := 0; error_count := 0 |}))).
Proof. destruct out_exists, rmtree_old_ok; by repeat constructor. Qed.

Lemma worker_queue_shape :
  exists messages last,
    worker = messages ++ [last]
    /\ is_complete last = true
    /\ Forall (fun q => is_complete q = false) messages.
Proof.
  subst worker. unfold processing_worker. cbv zeta.
  pose proof worker_prefix_pending as Hpre.
  match type of Hpre with Forall _ (result_queue ?s) => set (st2 := s) in * end.
  assert ((if out_exists
           then if rmtree_old_ok
                then put RemovingExisting false false
                       {| result_queue := []; processed_count := 0; error_count := 0 |}
                else put WarnRemoveOldFailed false true
                       (put RemovingExisting false false
                          {| result_queue := []; processed_count := 0;
                             error_count := 0 |})
           else {| result_queue := []; processed_count := 0; error_count := 0 |})
          = (if out_exists
             then let st := put RemovingExisting false false
                              {| result_queue := []; processed_count := 0;
                                 error_count := 0 |} in
                  if rmtree_old_ok then st else put WarnRemoveOldFailed false true st
             else {| result_queue := []; processed_count := 0; error_count := 0 |}))
    as Heq by reflexivity.
  destruct (x_returned (extract_pkr pkr_path pkr_input output_dir fs0)); cbn [negb].
  - pose proof (adjust_wavs_pending st2 Hpre) as Hadj.
    destruct (adjust_wavs audio_isdir audio_listing wav_at writable output_dir
                factor st2) as [st3 summary].
    cbn [fst] in Hadj.
    destruct (repack_pkr reread can_open output_dir out_tree).1.
    + destruct rmtree_tmp_ok; rewrite !put_queue; eexists _, _;
        (split; [reflexivity|split; [reflexivity|]]);
        apply Forall_app; (split; [|by repeat constructor]);
        apply Forall_app; (split; [done|by repeat constructor]).
    + unfold worker_handler. rewrite !put_queue. eexists _, _.
      split; [reflexivity|split; [reflexivity|]].
      apply Forall_app. split; [done|by repeat constructor].
  - unfold worker_handler. rewrite put_queue. eexists _, _.
    split; [reflexivity|split; [reflexivity|exact Hpre]].
Qed.

(** X19: on every run the worker puts exactly one message with
    [is_complete] set, and it is the last message of the queue: the
    window, which leaves its busy state on such a message and stops
    polling, is released once, whatever fails on the way. *)
Theorem worker_completes_once :
  exists messages last,
    worker = messages ++ [last]
    /\ is_complete last = true
    /\ Forall (fun q => is_complete q = false) messages.
Proof. apply worker_queue_shape. Qed.
End WorkerFacts.

Section WorkerOutcome.
Context {FS : Type} `{FileSystem FS}.
Variables (out_exists rmtree_old_ok : bool) (pkr_path : string)
  (pkr_input : option bytes) (fs0 : FS) (audio_isdir : bool)
  (audio_listing : list string) (wav_at : string -> wav_input)
  (writable : string -> bool) (reread : string -> option bytes)
  (can_open : bool) (out_tree : node) (rmtree_tmp_ok : bool)
  (output_dir : string) (factor : float64).

Let worker : list queue_item :=
  processing_worker out_exists rmtree_old_ok pkr_path pkr_input fs0 audio_isdir
    audio_listing wav_at writable reread can_open out_tree rmtree_tmp_ok
    output_dir factor.

Lemma worker_last :
  last worker
  = Some
      (if x_returned (extract_pkr pkr_path pkr_input output_dir fs0) then
         if (repack_pkr reread can_open output_dir out_tree).1 then
           (ProcessingComplete
              (adjust_wavs audio_isdir audio_listing wav_at writable output_dir
                 factor
                 (put ExtractingPKR false false
                    (if out_exists then
                       let st := put RemovingExisting false false
                                   {| result_queue := []; processed_count := 0;
                                      error_count := 0 |} in
                       if rmtree_old_ok then st
                       else put WarnRemoveOldFailed false true st
                     else {| result_queue := []; processed_count := 0;
                             error_count := 0 |}))).2
              rmtree_tmp_ok, true, negb rmtree_tmp_ok)
         else (ErrorOccurred RepackingFailed, true, true)
       else (ErrorOccurred ExtractionFailed, true, true)).
Proof.
  subst worker. unfold processing_worker. cbv zeta.
  destruct (x_returned (extract_pkr pkr_path pkr_input output_dir fs0)); cbn [negb].
  - destruct (adjust_wavs _ _ _ _ _ _ _) as [st3 summary]. cbn [snd].
    destruct (repack_pkr reread can_open output_dir out_tree).1.
    + destruct rmtree_tmp_ok; rewrite put_queue; apply last_snoc.
    + unfold worker_handler. rewrite put_queue. apply last_snoc.
  - unfold worker_handler. rewrite put_queue. apply last_snoc.
Qed.

(** X20: the worker ends on a message that is not an error exactly when
    the extraction returned [True], [repack_pkr] returned [True] and the
    temporary directory could be removed; what [adjust_volume] returned
    for the wav files plays no part: a file that could not be adjusted is
    counted in the summary, and the run goes on. *)
Theorem worker_reports_success :
  (exists message, last worker = Some (message, true, false))
  <-> x_returned (extract_pkr pkr_path pkr_input output_dir fs0) = true
      /\ (repack_pkr reread can_open output_dir out_tree).1 = true
      /\ rmtree_tmp_ok = true.
Proof.
  rewrite worker_last.
  destruct (x_returned (extract_pkr pkr_path pkr_input output_dir fs0));
    destruct (repack_pkr reread can_open output_dir out_tree).1;
    destruct rmtree_tmp_ok; cbn [negb]; split;
    try (intros [m [=]]; done); try (intros (? & ? & ?); done).
  intros _. by eexists.
Qed.

(** X21: when the directory that is repacked holds a file that is not
    hidden, as it does after any archive with a file was extracted, the
    worker ends on an error: [repack_pkr] returns [False] there, so the
    message is the failure of the repacking (or of the extraction, if
    that failed first), and the queue holds no message of completion. *)
Theorem worker_fails_on_files :
  has_file out_tree = true ->
  last worker
  = Some (ErrorOccurred
            (if x_returned (extract_pkr pkr_path pkr_input output_dir fs0)
             then RepackingFailed else ExtractionFailed), true, true)
  /\ forall summary cleaned_up complete error,
       (ProcessingComplete summary cleaned_up, complete, error) ∉ worker.
Proof.
  intros Hfile.
  assert ((repack_pkr reread can_open output_dir out_tree).1 = false) as Hrepack.
  { destruct (repack_pkr reread can_open output_dir out_tree).1 eqn:Hr; [|done].
    apply repack_pkr_true in Hr as [_ Hr]. congruence. }
  split.
  - rewrite worker_last, Hrepack. by destruct (x_returned _).
  - intros summary cleaned_up complete error Hin.
    subst worker. unfold processing_worker in Hin. cbv zeta in Hin.
    rewrite Hrepack in Hin.
    assert (forall st : worker_state,
               (ProcessingComplete summary cleaned_up, complete, error)
                 ∈ result_queue
                     (adjust_wavs audio_isdir audio_listing wav_at writable
                        output_dir factor st).1 ->
               (ProcessingComplete summary cleaned_up, complete, error)
                 ∈ result_queue st) as Hadj.
    { intros st. unfold adjust_wavs. cbv zeta. destruct audio_isdir; cbn [fst].
      - destruct (filter _ audio_listing) as [|f l] eqn:Hl; cbn [fst].
        + rewrite !put_queue, !elem_of_app, !list_elem_of_singleton.
          intros [[?|[=]]|[=]]. done.
        + destruct (adjust_fold wav_at writable factor
                      (path_join output_dir "audio") (length (f :: l)) (f :: l)
                      0%nat (put AdjustingWavVolumes false false st)) as (Hq & _).
          cbv zeta in Hq. rewrite Hq, put_queue.
          rewrite !elem_of_app, list_elem_of_singleton, list_elem_of_fmap.
          intros [[?|[=]]|(p & [=] & _)]. done.
      - rewrite put_queue, elem_of_app, list_elem_of_singleton.
        intros [?|[=]]. done. }
    destruct (x_returned (extract_pkr pkr_path pkr_input output_dir fs0));
      cbn [negb] in Hin.
    + match type of Hin with
      | context [adjust_wavs _ _ _ _ _ _ ?s] => set (st2 := s) in *
      end.
      pose proof (Hadj st2) as Hadj2.
      destruct (adjust_wavs _ _ _ _ _ _ st2) as [st3 summary']. cbn [fst] in Hadj2.
      unfold worker_handler in Hin. rewrite !put_queue in Hin.
      rewrite !elem_of_app, !list_elem_of_singleton in Hin.
      destruct Hin as [[Hin|[=]]|[=]].
      apply Hadj2 in Hin. subst st2.
      rewrite put_queue, elem_of_app, list_elem_of_singleton in Hin.
      destruct Hin as [Hin|[=]].
      destruct out_exists, rmtree_old_ok; cbv zeta in Hin;
        rewrite ?put_queue in Hin; cbn [result_queue app] in Hin;
        repeat (apply elem_of_cons in Hin as [[=]|Hin]);
        by apply elem_of_nil in Hin.
    + unfold worker_handler in Hin. rewrite !put_queue in Hin.
      rewrite !elem_of_app, !list_elem_of_singleton in Hin.
      destruct Hin as [[Hin|[=]]|[=]].
      destruct out_exists, rmtree_old_ok; cbv zeta in Hin;
        rewrite ?put_queue in Hin; cbn [result_queue app] in Hin;
        repeat (apply elem_of_cons in Hin as [[=]|Hin]);
        by apply elem_of_nil in Hin.
Qed.
End WorkerOutcome.

Lemma worker_reports_success_witness :
  exists message,
    last (processing_worker false true "ALL.PKR" (Some archive_audio) sf_empty
            false [] (fun _ => WavMissing) (fun _ => true) (fun _ => None)
            true tree_dirs_only true "out" f64_half)
    = Some (message, true, false).
Proof.
  apply (proj2 (worker_reports_success false true "ALL.PKR" (Some archive_audio)
                  sf_empty false [] (fun _ => WavMissing) (fun _ => true)
                  (fun _ => None) true tree_dirs_only true "out" f64_half)).
  split; [|split]; vm_compute; reflexivity.
Defined.

Lemma worker_fails_on_files_witness :
  has_file tree_audio = true
  /\ last (processing_worker false true "ALL.PKR" (Some archive_audio) sf_empty
             true ["a.wav"%string] (fun _ => WavInvalid) (fun _ => true)
             (fun _ => None) true tree_audio true "out" f64_half)
     = Some (ErrorOccurred
               (if x_returned (extract_pkr "ALL.PKR" (Some archive_audio) "out"
                                 sf_empty)
                then RepackingFailed else ExtractionFailed), true, true).
Proof.
  split; [reflexivity|].
  apply (worker_fails_on_files false true "ALL.PKR" (Some archive_audio) sf_empty
           true ["a.wav"%string] (fun _ => WavInvalid) (fun _ => true)
           (fun _ => None) true tree_audio true "out" f64_half).
  reflexivity.
Defined.

Lemma fmap_enumerate_from {A B} (g : nat -> A -> B) (l : list A) :
  forall i, (fun p => g p.1 p.2) <$> enumerate_from i l
            = imap (fun j => g (i + j)%nat) l.
Proof.
  induction l as [|x l IH]; intros i; [done|].
  cbn [enumerate_from]. rewrite fmap_cons, imap_cons, IH. cbn [fst snd].
  rewrite Nat.add_0_r. f_equal. apply imap_ext. intros j y _. cbn.
  f_equal. lia.
Qed.

(** X22: the volume adjustment step, when the audio directory exists and
    lists at least one name ending in ".wav" in any letter case: every
    such name, and no other, is announced and passed to [adjust_volume]
    with the same path as input and output, in the order of the listing
    and numbered from 1; the summary counts as adjusted the files for
    which [adjust_volume] returned [True], and the adjusted and the failed
    files add up to the total. *)
Theorem adjust_wavs_counts (audio_listing : list string)
    (wav_at : string -> wav_input) (writable : string -> bool)
    (output_dir : string) (factor : float64) (st : worker_state) :
  let wav_files := filter (fun f => is_wav f = true) audio_listing in
  let audio_dir := path_join output_dir "audio" in
  let adjusted f :=
    (adjust_volume (wav_at (path_join audio_dir f))
       (writable (path_join audio_dir f)) factor).1 = true in
  let total := length wav_files in
  wav_files <> [] ->
  processed_count st = 0%nat -> error_count st = 0%nat ->
  exists st' errors,
    adjust_wavs true audio_listing wav_at writable output_dir factor st
    = (st', WavFilesAdjusted (length (filter adjusted wav_files)) total errors)
    /\ (length (filter adjusted wav_files) + errors = total)%nat
    /\ result_queue st'
       = result_queue st ++ (AdjustingWavVolumes, false, false)
         :: imap (fun i f => (ProcessingWav (i + 1) total f, false, false))
              wav_files.
Proof.
  cbv zeta. intros Hne Hp He. unfold adjust_wavs. cbv zeta.
  destruct (filter (fun f => is_wav f = true) audio_listing) as [|f l] eqn:Hl;
    [done|].
  destruct (adjust_fold wav_at writable factor (path_join output_dir "audio")
              (length (f :: l)) (f :: l) 0%nat
              (put AdjustingWavVolumes false false st)) as (Hq & Hproc & Hsum).
  cbv zeta in Hq, Hproc, Hsum. cbn [processed_count error_count put] in Hproc, Hsum.
  rewrite Hp in Hproc, Hsum. rewrite He in Hsum.
  eexists _, _. split; [|split].
  - rewrite Hproc. cbn [Nat.add]. reflexivity.
  - rewrite Hproc in Hsum. cbn [Nat.add] in Hsum. exact Hsum.
  - rewrite Hq, put_queue, <- app_assoc. cbn [app]. do 2 f_equal.
    apply (fmap_enumerate_from
             (fun i f0 => (ProcessingWav (i + 1) (length (f :: l)) f0, false, false))).
Qed.

Lemma adjust_wavs_counts_witness :
  exists st' errors,
    adjust_wavs true ["a.WAV"; "notes.txt"; "b.wav"]%string
      (fun p => if String.eqb p "out/audio/b.wav"
                then WavFile (pcm 2 1) [x10; x00] else WavInvalid)
      (fun _ => true) "out" f64_half
      {| result_queue := []; processed_count := 0; error_count := 0 |}
    = (st', WavFilesAdjusted 1 2 errors)
    /\ (1 + errors = 2)%nat
    /\ result_queue st'
       = [(AdjustingWavVolumes, false, false);
          (ProcessingWav 1 2 "a.WAV", false, false);
          (ProcessingWav 2 2 "b.wav", false, false)].
Proof.
  apply (adjust_wavs_counts ["a.WAV"; "notes.txt"; "b.wav"]%string
           (fun p => if String.eqb p "out/audio/b.wav"
                     then WavFile (pcm 2 1) [x10; x00] else WavInvalid)
           (fun _ => true) "out" f64_half
           {| result_queue := []; processed_count := 0; error_count := 0 |}).
  - vm_compute. discriminate.
  - reflexivity.
  - reflexivity.
Defined.

(** ** The command lines *)

(** X23: run from the command line on a directory that holds a file,
    repack_pkr.py ends with the exit status 0 although [repack_pkr]
    returned [False]: the value is dropped, and the status only tells
    that the arguments were usable. *)
Theorem repack_main_ignores_failure (prog input_directory output_file : string)
    (dir_at : string -> option node) (reread : string -> option bytes)
    (can_open : bool) (t : node) :
  dir_at input_directory = Some t ->
  has_file t = true ->
  (repack_pkr reread can_open input_directory t).1 = false
  /\ (repack_main [prog; input_directory; output_file] dir_at reread can_open).1 = 0.
Proof.
  intros Hdir Hfile. split.
  - destruct (repack_pkr reread can_open input_directory t).1 eqn:Hr; [|done].
    apply repack_pkr_true in Hr as [_ Hr]. congruence.
  - unfold repack_main. by rewrite Hdir.
Qed.

Lemma repack_main_ignores_failure_witness :
  (repack_pkr (fun _ => None) true "in" tree_one_file).1 = false
  /\ (repack_main ["repack_pkr.py"; "in"; "ALL.PKR"]%string
        (fun _ => Some tree_one_file) (fun _ => None) true).1 = 0.
Proof.
  apply (repack_main_ignores_failure "repack_pkr.py" "in" "ALL.PKR"
           (fun _ => Some tree_one_file) (fun _ => None) true tree_one_file);
    reflexivity.
Defined.

(** X24: run from the command line, extract_pkr.py reports every failure:
    the exit status is 0 only if there are two arguments, the input is a
    regular file and [extract_pkr] returned [True]; with an archive cut
    inside its header the status is 1 and nothing is created. *)
Theorem extract_main_exit_status {FS : Type} `{FileSystem FS}
    (argv : list string) (file_at : string -> option bytes) (fs : FS) :
  ((extract_main argv file_at fs).1 = 0
   <-> exists prog input_file data,
         argv = [prog; input_file] /\ file_at input_file = Some data
         /\ x_returned (extract_pkr input_file (Some data) "out" fs) = true)
  /\ (forall prog input_file data,
        argv = [prog; input_file] -> file_at input_file = Some data ->
        N.of_nat (length data) < 16 ->
        extract_main argv file_at fs = (1, fs)).
Proof.
  split.
  - unfold extract_main. split.
    + destruct argv as [|prog [|input_file [|x argv]]]; try done.
      destruct (file_at input_file) as [data|] eqn:Hf; [|done]. cbv zeta.
      destruct (x_returned _) eqn:Hr; [|done]. intros _.
      by exists prog, input_file, data.
    + intros (prog & input_file & data & -> & -> & Hr). cbv zeta. by rewrite Hr.
  - intros prog input_file data -> Hf Hlen. unfold extract_main. rewrite Hf.
    cbv zeta. by rewrite short_header_result.
Qed.

Lemma extract_main_exit_status_witness :
  extract_main ["extract_pkr.py"; "x.pkr"]%string (fun _ => Some [x50; x4b; x52])
    sf_empty
  = (1, sf_empty).
Proof.
  apply (proj2 (extract_main_exit_status ["extract_pkr.py"; "x.pkr"]%string
                  (fun _ => Some [x50; x4b; x52]) sf_empty)
           "extract_pkr.py"%string "x.pkr"%string [x50; x4b; x52]).
  - reflexivity.
  - reflexivity.
  - vm_compute. reflexivity.
Defined.

(** ** pkr_volume_adjuster_gui.py: the window and the queue *)

Lemma complete_item_is_last (front rest messages0 : list queue_item)
    (last0 q : queue_item) :
  Forall (fun q => is_complete q = false) messages0 ->
  front ++ q :: rest = messages0 ++ [last0] ->
  is_complete q = true ->
  rest = [] /\ q = last0.
Proof.
  intros Hall Heq Hq. destruct rest as [|r rest _] using rev_ind.
  - apply (app_inj_tail front messages0) in Heq as [_ ->]. done.
  - exfalso. rewrite app_comm_cons, app_assoc in Heq.
    apply app_inj_tail in Heq as [Heq _]. rewrite <- Heq in Hall.
    apply Forall_app in Hall as [_ Hall]. apply Forall_cons in Hall as [Hq' _].
    congruence.
Qed.

Lemma session_step_inv (messages0 : list queue_item) (last0 : queue_item)
    (s s' : session) :
  Forall (fun q => is_complete q = false) messages0 ->
  is_complete last0 = true ->
  session_inv (messages0 ++ [last0]) s ->
  session_step s s' ->
  session_inv (messages0 ++ [last0]) s'.
Proof.
  intros Hall Hlast (shown & Hhist & Hsplit & Hstate) Hstep.
  destruct Hstep as [q rest queue g|rest queue g Hsched];
    cbn [window in_queue to_put] in *.
  - exists shown. cbn [window in_queue to_put].
    split; [done|]. split; [by rewrite <- app_assoc|].
    destruct Hstate as [?|(_ & _ & _ & [=] & _)]. by left.
  - destruct Hstate as [(_ & Hproc & Hdial & Hshown)|(Hs & _)]; [|congruence].
    destruct queue as [|[[m c] e] queue]; cbn [check_processing_queue fst snd].
    + exists shown. cbn [status_history is_processing dialogs check_scheduled].
      split; [done|]. split; [done|]. left. by rewrite Hproc.
    + destruct c; cbn [fst snd status_history is_processing dialogs check_scheduled].
      * destruct (complete_item_is_last shown (queue ++ rest) messages0 last0
                    (m, true, e) Hall Hsplit eq_refl) as [Hnil <-].
        apply app_eq_nil in Hnil as [-> ->].
        exists (shown ++ [(m, true, e)]). split; [by rewrite fmap_app, Hhist|].
        split; [by rewrite <- Hsplit, <- app_assoc|]. right.
        repeat split. exists m, e. rewrite last_snoc. by rewrite Hdial.
      * exists (shown ++ [(m, false, e)]). split; [by rewrite fmap_app, Hhist|].
        split; [by rewrite <- Hsplit, <- app_assoc|]. left.
        repeat split; try done. apply Forall_app. split; [done|by repeat constructor].
Qed.

Lemma session_reachable_inv (messages0 : list queue_item) (last0 : queue_item)
    (s : session) :
  Forall (fun q => is_complete q = false) messages0 ->
  is_complete last0 = true ->
  rtc session_step (session_start (messages0 ++ [last0])) s ->
  session_inv (messages0 ++ [last0]) s.
Proof.
  intros Hall Hlast Hrun. apply rtc_nsteps in Hrun as [n Hrun].
  revert s Hrun. induction n as [|n IH]; intros s Hrun.
  - inversion Hrun; subst. exists []. cbn. repeat split. left. repeat split.
    constructor.
  - apply nsteps_inv_r in Hrun as (s1 & Hrun & Hstep).
    by apply (session_step_inv messages0 last0 s1 s Hall Hlast (IH s1 Hrun)).
Qed.

Lemma session_put_all (rest queue : list queue_item) (g : gui_state) :
  rtc session_step {| to_put := rest; in_queue := queue; window := g |}
      {| to_put := []; in_queue := queue ++ rest; window := g |}.
Proof.
  revert queue. induction rest as [|q rest IH]; intros queue.
  - rewrite app_nil_r. apply rtc_refl.
  - eapply rtc_l; [apply step_put|].
    replace (queue ++ q :: rest) with ((queue ++ [q]) ++ rest)
      by (by rewrite <- app_assoc).
    apply IH.
Qed.

Lemma session_drain (messages0 : list queue_item) (last0 : queue_item) :
  Forall (fun q => is_complete q = false) messages0 ->
  is_complete last0 = true ->
  forall n s,
    session_inv (messages0 ++ [last0]) s ->
    to_put s = [] -> length (in_queue s) = n ->
    exists s_end, rtc session_step s s_end /\ forall s', ~ session_step s_end s'.
Proof.
  intros Hall Hlast. induction n as [|n IH]; intros s Hinv Hput Hlen.
  - destruct Hinv as (shown & _ & Hsplit & Hstate).
    apply nil_length_inv in Hlen. rewrite Hlen, Hput, !app_nil_r in Hsplit.
    destruct Hstate as [(_ & _ & _ & Hshown)|(Hs & _)].
    + exfalso. rewrite Hsplit in Hshown. apply Forall_app in Hshown as [_ Hshown].
      apply Forall_cons in Hshown as [Hshown _]. congruence.
    + exists s. split; [apply rtc_refl|]. intros s' Hstep.
      destruct Hstep; cbn [to_put window] in *; congruence.
  - destruct s as [rest queue g]. cbn [to_put in_queue] in Hput, Hlen. subst rest.
    destruct queue as [|q queue]; [done|].
    pose proof Hinv as (shown & _ & _ & Hstate).
    destruct Hstate as [(Hs & _)|(_ & _ & Hq & _)]; [|done].
    cbn [window] in Hs.
    pose proof (step_check [] (q :: queue) g Hs) as Hstep.
    destruct (IH _ (session_step_inv messages0 last0 _ _ Hall Hlast Hinv Hstep))
      as (s_end & Hrun & Hstuck).
    + done.
    + cbn [in_queue]. destruct q as [[m c] e]. cbn in Hlen.
      destruct c; cbn [check_processing_queue fst]; lia.
    + exists s_end. split; [|done]. by eapply rtc_l.
Qed.

(** X25: the window and the worker, for every way their steps can
    interleave: the messages reach the status line in the order the
    worker put them, none lost; the window polls the queue for as long as
    it is busy and shows no dialog meanwhile; and once neither side can
    take a step, the window is no longer busy, every message of the
    worker has been shown, and exactly one dialog was opened, for the
    last message, an error dialog exactly when that message is an
    error; and from every state the two sides can go on to such an
    end. *)
Theorem window_released {FS : Type} `{FileSystem FS}
    (out_exists rmtree_old_ok : bool) (pkr_path : string)
    (pkr_input : option bytes) (fs0 : FS) (audio_isdir : bool)
    (audio_listing : list string) (wav_at : string -> wav_input)
    (writable : string -> bool) (reread : string -> option bytes)
    (can_open : bool) (out_tree : node) (rmtree_tmp_ok : bool)
    (output_dir : string) (factor : float64) (s : session) :
  let messages :=
    processing_worker out_exists rmtree_old_ok pkr_path pkr_input fs0 audio_isdir
      audio_listing wav_at writable reread can_open out_tree rmtree_tmp_ok
      output_dir factor in
  rtc session_step (session_start messages) s ->
  (exists shown,
     status_history (window s) = (fun q => q.1.1) <$> shown
     /\ shown ++ in_queue s ++ to_put s = messages)
  /\ (check_scheduled (window s) = is_processing (window s))
  /\ (is_processing (window s) = true -> dialogs (window s) = [])
  /\ ((forall s', ~ session_step s s') ->
      is_processing (window s) = false
      /\ status_history (window s) = (fun q => q.1.1) <$> messages
      /\ exists m e, last messages = Some (m, true, e)
                     /\ dialogs (window s) = [(e, m)])
  /\ (exists s_end,
        rtc session_step s s_end /\ forall s', ~ session_step s_end s').
Proof.
  cbv zeta. intros Hrun.
  destruct (worker_queue_shape out_exists rmtree_old_ok pkr_path pkr_input fs0
              audio_isdir audio_listing wav_at writable reread can_open out_tree
              rmtree_tmp_ok output_dir factor) as (messages0 & last0 & Heq & Hlast & Hall).
  cbv zeta in Heq. rewrite Heq in *.
  pose proof (session_reachable_inv messages0 last0 s Hall Hlast Hrun) as Hinv.
  assert (exists s_end,
             rtc session_step s s_end /\ forall s', ~ session_step s_end s')
    as Hend.
  { destruct s as [rest queue g].
    pose proof (session_put_all rest queue g) as Hput.
    assert (session_inv (messages0 ++ [last0])
              {| to_put := []; in_queue := queue ++ rest; window := g |}) as Hinv'.
    { destruct Hinv as (shown & Hhist & Hsplit & Hstate).
      cbn [window in_queue to_put] in *. exists shown.
      cbn [window in_queue to_put]. split; [done|].
      split; [by rewrite app_nil_r|].
      destruct Hstate as [?|(? & ? & -> & -> & ?)]; [by left|by right]. }
    destruct (session_drain messages0 last0 Hall Hlast _ _ Hinv' eq_refl eq_refl)
      as (s_end & Hrun' & Hstuck).
    exists s_end. split; [|done]. by etrans. }
  destruct Hinv as (shown & Hhist & Hsplit & Hstate).
  split; [by exists shown|].
  destruct Hstate as [(Hs & Hp & Hd & _)|(Hs & Hp & Hq & Ht & m & e & Hl & Hd)].
  - split; [congruence|]. split; [done|]. split; [|done]. intros Hstuck. exfalso.
    destruct s as [rest queue g]. cbn [window] in *.
    apply (Hstuck _ (step_check rest queue g Hs)).
  - split; [congruence|]. split; [congruence|]. split; [|done]. intros _.
    split; [done|]. split; [|by exists m, e].
    rewrite Hq, Ht, !app_nil_r in Hsplit. by rewrite <- Hsplit.
Qed.

Lemma window_released_witness :
  let messages :=
    processing_worker false true "ALL.PKR" (Some archive_audio) sf_empty true
      ["a.wav"%string] (fun _ => WavInvalid) (fun _ => true) (fun _ => None)
      true tree_audio true "out" f64_half in
  let s := session_start messages in
  (exists shown,
     status_history (window s) = (fun q => q.1.1) <$> shown
     /\ shown ++ in_queue s ++ to_put s = messages)
  /\ (check_scheduled (window s) = is_processing (window s))
  /\ (is_processing (window s) = true -> dialogs (window s) = [])
  /\ ((forall s', ~ session_step s s') ->
      is_processing (window s) = false
      /\ status_history (window s) = (fun q => q.1.1) <$> messages
      /\ exists m e, last messages = Some (m, true, e)
                     /\ dialogs (window s) = [(e, m)])
  /\ (exists s_end,
        rtc session_step s s_end /\ forall s', ~ session_step s_end s').
Proof.
  cbv zeta.
  apply (window_released false true "ALL.PKR" (Some archive_audio) sf_empty true
           ["a.wav"%string] (fun _ => WavInvalid) (fun _ => true) (fun _ => None)
           true tree_audio true "out" f64_half).
  apply rtc_refl.
Defined.

Lemma string_length_app (a b : string) :
  String.length (a +:+ b) = (String.length a + String.length b)%nat.
Proof.
  induction a as [|c a IH]; [done|].
  rewrite string_app_cons. cbn [String.length]. by rewrite IH.
Qed.

Lemma substring_split (p : string) :
  forall d, (d <= String.length p)%nat ->
    String.substring 0 d p +:+ String.substring d (String.length p - d) p = p.
Proof.
  induction p as [|c p IH]; intros d Hd.
  - cbn [String.length] in Hd. by replace d with 0%nat by lia.
  - destruct d as [|d].
    + cbn [String.length Nat.sub String.substring].
      rewrite string_app_nil_l. f_equal.
      clear. induction p as [|x p IH]; [done|]. cbn [String.length String.substring].
      by rewrite IH.
    + cbn [String.length Nat.sub String.substring].
      rewrite string_app_cons. f_equal. apply IH. cbn [String.length] in Hd. lia.
Qed.

Lemma rfind_lt c s d : rfind c s = Some d -> (d < String.length s)%nat.
Proof.
  revert d. induction s as [|x s IH]; intros d; [done|].
  cbn [rfind String.length]. destruct (rfind c s) as [i|].
  - intros [= <-]. specialize (IH i eq_refl). lia.
  - destruct (Ascii.eqb x c); [|done]. intros [= <-]. lia.
Qed.

Lemma splitext_join p : (splitext p).1 +:+ (splitext p).2 = p.
Proof.
  assert (p +:+ EmptyString = p) as Hnil.
  { induction p as [|c p IH]; [done|]. by rewrite string_app_cons, IH. }
  unfold splitext. cbv zeta.
  destruct (rfind "." p) as [d|] eqn:Hd; [|exact Hnil].
  destruct (_ && _); [|exact Hnil].
  cbn [fst snd]. apply substring_split. apply rfind_lt in Hd. lia.
Qed.

(** X26: from the command line, without the option [-o] (or with an
    empty one), the adjusted file is written to a path that is never the
    input path: it is the input path with "_adj" put before its
    extension, four characters longer. *)
Theorem default_output_is_not_input (input_wav : string) (output : option string) :
  output = None \/ output = Some EmptyString ->
  let output_wav := output_wav_of input_wav output in
  output_wav <> input_wav
  /\ String.length output_wav = (String.length input_wav + 4)%nat
  /\ exists base ext,
       input_wav = base +:+ ext /\ output_wav = base +:+ "_adj" +:+ ext.
Proof.
  intros Hout. cbv zeta.
  assert (output_wav_of input_wav output
          = (splitext input_wav).1 +:+ "_adj" +:+ (splitext input_wav).2) as ->.
  { unfold output_wav_of. destruct Hout as [-> | ->]; cbn [nonempty String.eqb negb];
      by destruct (splitext input_wav). }
  pose proof (splitext_join input_wav) as Hjoin.
  assert (String.length ((splitext input_wav).1 +:+ "_adj" +:+ (splitext input_wav).2)
          = (String.length input_wav + 4)%nat) as Hlen.
  { rewrite <- Hjoin at 3. rewrite !string_length_app. cbn [String.length]. lia. }
  split; [|split; [exact Hlen|]].
  - intros Heq. rewrite Heq in Hlen. lia.
  - by exists (splitext input_wav).1, (splitext input_wav).2.
Qed.

Lemma default_output_is_not_input_witness :
  output_wav_of "audio/a.b/.hidden.wav" None <> "audio/a.b/.hidden.wav"%string
  /\ String.length (output_wav_of "audio/a.b/.hidden.wav" None)
     = (String.length "audio/a.b/.hidden.wav" + 4)%nat
  /\ exists base ext,
       "audio/a.b/.hidden.wav"%string = base +:+ ext
       /\ output_wav_of "audio/a.b/.hidden.wav" None = base +:+ "_adj" +:+ ext.
Proof.
  apply (default_output_is_not_input "audio/a.b/.hidden.wav" None). by left.
Defined.
